(** * Module for_each / count expansion of the Terraform local graph

    A shallow embedding of
    [checkov/terraform/graph_builder/foreach/module_handler.py]
    (class [ForeachModuleHandler]) and theorems about it.

    The handler works on two pieces of mutable state of the local graph:
    the list [vertices] and the dictionary [vertices_by_module_dependency],
    whose keys are [TFModule] objects.  [TFModule] objects are mutable and
    are shared between blocks and dictionary keys, and the handler assigns
    to their [foreach_idx] field in place, so they live in an explicit
    object heap here and blocks and dictionary entries hold references. *)

From Stdlib Require Import ZArith String Ascii Bool Lia.
From Stdlib Require Import DecimalString.
From stdpp Require Import base list option.

Local Open Scope string_scope.
Local Open Scope list_scope.

(** ** Python values that occur as iteration statements and instance keys *)

(** [int | str]: the type of [new_key], [new_value] and [for_each_index]. *)
Inductive PyKey : Type :=
| PyInt (z : Z)
| PyStr (s : string).

Definition PyKey_eqb (a b : PyKey) : bool :=
  match a, b with
  | PyInt x, PyInt y => Z.eqb x y
  | PyStr x, PyStr y => String.eqb x y
  | _, _ => false
  end.

Lemma PyKey_eqb_eq (a b : PyKey) : PyKey_eqb a b = true <-> a = b.
Proof.
  destruct a as [x|x], b as [y|y]; simpl; split; intros H;
    try discriminate; try (inversion H; subst).
  - apply Z.eqb_eq in H. now subst.
  - apply Z.eqb_refl.
  - apply String.eqb_eq in H. now subst.
  - apply String.eqb_refl.
Qed.

Definition opt_eqb {A} (eqb : A -> A -> bool) (a b : option A) : bool :=
  match a, b with
  | Some x, Some y => eqb x y
  | None, None => true
  | _, _ => false
  end.

(** Python truthiness of an optional key: [None], [0] and the empty string
    are falsy. *)
Definition key_truthy (k : option PyKey) : bool :=
  match k with
  | None => false
  | Some (PyInt z) => negb (Z.eqb z 0)
  | Some (PyStr s) => negb (String.eqb s "")
  end.

(** [new_key or new_value], where [new_key] may be [None]. *)
Definition py_or (new_key : option PyKey) (new_value : PyKey) : PyKey :=
  match new_key with
  | Some k => if key_truthy (Some k) then k else new_value
  | None => new_value
  end.

(** The value of a [for_each] / [count] attribute or of a resolved
    statement: a sequence, a mapping (in insertion order), an integer, a
    string (an expression not yet rendered, or a malformed statement) or
    [None]. *)
Inductive Statement : Type :=
| SNone
| SInt (n : Z)
| SStr (s : string)
| SList (l : list PyKey)
| SDict (d : list (PyKey * PyKey)).

Definition stmt_truthy (s : Statement) : bool :=
  match s with
  | SNone => false
  | SInt n => negb (Z.eqb n 0)
  | SStr s => negb (String.eqb s "")
  | SList l => negb (Nat.eqb (length l) 0)
  | SDict d => negb (Nat.eqb (length d) 0)
  end.

Inductive BlockType : Type :=
| MODULE | RESOURCE | VARIABLE | OUTPUT | LOCALS | DATA | PROVIDER.

Definition BlockType_eqb (a b : BlockType) : bool :=
  match a, b with
  | MODULE, MODULE | RESOURCE, RESOURCE | VARIABLE, VARIABLE
  | OUTPUT, OUTPUT | LOCALS, LOCALS | DATA, DATA | PROVIDER, PROVIDER => true
  | _, _ => false
  end.

Lemma BlockType_eqb_eq (a b : BlockType) : BlockType_eqb a b = true <-> a = b.
Proof. destruct a, b; simpl; split; congruence. Qed.

(** ** TFModule: objects and values *)

Abbreviation loc := nat.

(** A [TFModule] object: [nested_tf_module] refers to another object. *)
Record TFObject : Type := mkTFObject {
  o_path : string;
  o_name : string;
  o_nested : option loc;
  o_foreach_idx : option PyKey;
}.

Abbreviation Heap := (list TFObject).

(** The structure [__eq__] and [__hash__] of [TFModule] look at: all four
    fields, the nested module recursively. *)
#[warnings="-register-all"]
Inductive TFModule : Type :=
| TFM (path name : string) (nested_tf_module : option TFModule)
      (foreach_idx : option PyKey).

Definition tfm_path (m : TFModule) := let 'TFM p _ _ _ := m in p.
Definition tfm_name (m : TFModule) := let 'TFM _ n _ _ := m in n.
Definition tfm_nested (m : TFModule) := let 'TFM _ _ n _ := m in n.
Definition tfm_foreach_idx (m : TFModule) := let 'TFM _ _ _ i := m in i.

Fixpoint TFModule_eqb (a b : TFModule) : bool :=
  match a, b with
  | TFM p1 n1 s1 i1, TFM p2 n2 s2 i2 =>
    String.eqb p1 p2 && String.eqb n1 n2 &&
    match s1, s2 with
    | Some x, Some y => TFModule_eqb x y
    | None, None => true
    | _, _ => false
    end && opt_eqb PyKey_eqb i1 i2
  end.

Fixpoint tfm_depth (m : TFModule) : nat :=
  match m with
  | TFM _ _ None _ => 1
  | TFM _ _ (Some n) _ => S (tfm_depth n)
  end.

(** A key of [vertices_by_module_dependency]: a [TFModule] or [None]. *)
Definition Key := option TFModule.

Definition Key_eqb : Key -> Key -> bool := opt_eqb TFModule_eqb.

(** Reading the structure of the object at [l].  The result is [None] when
    a reference dangles or the nesting does not end within [fuel] steps. *)
Fixpoint tf_read (fuel : nat) (h : Heap) (l : loc) : option TFModule :=
  match fuel with
  | O => None
  | S f =>
    match h !! l with
    | None => None
    | Some o =>
      match o_nested o with
      | None => Some (TFM (o_path o) (o_name o) None (o_foreach_idx o))
      | Some n =>
        match tf_read f h n with
        | None => None
        | Some v => Some (TFM (o_path o) (o_name o) (Some v) (o_foreach_idx o))
        end
      end
    end
  end.

(** A chain of distinct objects is not longer than the heap. *)
Definition tf_value (h : Heap) (l : loc) : option TFModule :=
  tf_read (length h) h l.

(** The structure of an optional reference ([source_module_object] is
    [None] at the root).  The outer [option] is failure of the read. *)
Definition ref_value (h : Heap) (r : option loc) : option Key :=
  match r with
  | None => Some None
  | Some l => match tf_value h l with
              | Some v => Some (Some v)
              | None => None
              end
  end.

(** ** Blocks *)

(** A [TerraformBlock], with the fields the handler reads or writes.
    [config] and [attributes] are kept by value: they are only ever changed
    on a block that [deepcopy] has just produced.  The one part of [config]
    the handler mutates in place is the [TFModule] under
    [config[...][RESOLVED_MODULE_ENTRY_NAME][0].tf_source_modules]
    (see [_update_resolved_entry_for_tf_definition]); [resolved_module_entry]
    holds the reference to it, and is [None] when [config] has no such
    entry, the entry is empty or its [tf_source_modules] is [None]. *)
Record TerraformBlock : Type := mkBlock {
  block_type : BlockType;
  path : string;
  name : string;
  config : list (string * Statement);
  resolved_module_entry : option loc;
  attributes : list (string * Statement);
  source_module_object : option loc;
  source_module : list nat;
  for_each_index : option PyKey;
}.

Definition set_name (b : TerraformBlock) (n : string) : TerraformBlock :=
  mkBlock (block_type b) (path b) n (config b) (resolved_module_entry b)
          (attributes b) (source_module_object b) (source_module b)
          (for_each_index b).

Definition set_config_attributes (b : TerraformBlock)
    (ca : list (string * Statement) * list (string * Statement))
  : TerraformBlock :=
  mkBlock (block_type b) (path b) (name b) (fst ca) (resolved_module_entry b)
          (snd ca) (source_module_object b) (source_module b)
          (for_each_index b).

Definition set_source_module_object (b : TerraformBlock) (r : option loc)
  : TerraformBlock :=
  mkBlock (block_type b) (path b) (name b) (config b) (resolved_module_entry b)
          (attributes b) r (source_module b) (for_each_index b).

Definition set_source_module (b : TerraformBlock) (s : list nat)
  : TerraformBlock :=
  mkBlock (block_type b) (path b) (name b) (config b) (resolved_module_entry b)
          (attributes b) (source_module_object b) s (for_each_index b).

Definition set_for_each_index (b : TerraformBlock) (i : option PyKey)
  : TerraformBlock :=
  mkBlock (block_type b) (path b) (name b) (config b) (resolved_module_entry b)
          (attributes b) (source_module_object b) (source_module b) i.

Definition set_refs (b : TerraformBlock) (smo res : option loc)
  : TerraformBlock :=
  mkBlock (block_type b) (path b) (name b) (config b) res
          (attributes b) smo (source_module b) (for_each_index b).

Definition FOREACH_STRING : string := "for_each".
Definition COUNT_STRING : string := "count".

(** [attributes.get(k)]; a missing attribute reads as [None]. *)
Fixpoint attributes_get (a : list (string * Statement)) (k : string)
  : Statement :=
  match a with
  | [] => SNone
  | (k', v) :: r => if String.eqb k' k then v else attributes_get r k
  end.

(** ** The membership index *)

(** The value of one entry: block type to vertex indices, in insertion
    order. *)
Definition Members := list (BlockType * list nat).

(** [m[t]], a missing block type reads as the empty list. *)
Fixpoint members_get (m : Members) (t : BlockType) : list nat :=
  match m with
  | [] => []
  | (t', l) :: r => if BlockType_eqb t' t then l else members_get r t
  end.

(** [m[t].append(i)]. *)
Fixpoint members_append (m : Members) (t : BlockType) (i : nat) : Members :=
  match m with
  | [] => [(t, [i])]
  | (t', l) :: r =>
    if BlockType_eqb t' t then (t', l ++ [i]) :: r
    else (t', l) :: members_append r t i
  end.

(** One slot of the dictionary: the key object, the hash the key had when
    it was inserted (a hash is taken to identify the structure it was
    computed from), and the value. *)
Record Entry : Type := mkEntry {
  e_key : option loc;
  e_hash : Key;
  e_members : Members;
}.

Definition Dict := list Entry.

(** A slot answers a lookup of [k] when its stored hash is the hash of [k]
    and its key object, as it is now, equals [k]. *)
Definition entry_matches (h : Heap) (k : Key) (e : Entry) : bool :=
  Key_eqb (e_hash e) k &&
  match ref_value h (e_key e) with
  | Some v => Key_eqb v k
  | None => false
  end.

Fixpoint dict_find (h : Heap) (d : Dict) (k : Key) : option Entry :=
  match d with
  | [] => None
  | e :: r => if entry_matches h k e then Some e else dict_find h r k
  end.

(** [k in d] *)
Definition dict_mem (h : Heap) (d : Dict) (k : Key) : bool :=
  match dict_find h d k with Some _ => true | None => false end.

(** [d.get(k)] *)
Definition dict_get (h : Heap) (d : Dict) (k : Key) : option Members :=
  match dict_find h d k with Some e => Some (e_members e) | None => None end.

(** [d[k] = v] with the key object [kl] of structure [k]: the value of the
    slot that answers [k] is replaced and its key object stays; otherwise a
    new slot is added at the end. *)
Fixpoint dict_set (h : Heap) (d : Dict) (kl : option loc) (k : Key)
    (v : Members) : Dict :=
  match d with
  | [] => [mkEntry kl k v]
  | e :: r =>
    if entry_matches h k e then mkEntry (e_key e) (e_hash e) v :: r
    else e :: dict_set h r kl k v
  end.

(** ** The graph store *)

Record Store : Type := mkStore {
  vertices : list TerraformBlock;
  vertices_by_module_dependency : Dict;
  heap : Heap;
}.

Definition with_vertices (s : Store) (v : list TerraformBlock) : Store :=
  mkStore v (vertices_by_module_dependency s) (heap s).
Definition with_dict (s : Store) (d : Dict) : Store :=
  mkStore (vertices s) d (heap s).
Definition with_heap (s : Store) (h : Heap) : Store :=
  mkStore (vertices s) (vertices_by_module_dependency s) h.

(** ** Computations on the store that may raise *)

(** The exceptions the handler's code can end in, and
    [InvalidStatementKind], the error section 7 of the specification names
    for a malformed statement of a block. *)
Inductive PyErr : Type :=
| IndexError | TypeError | KeyError | AttributeError | RecursionError
| InvalidStatementKind (block_idx : nat) (value : Statement).

Inductive Res (A : Type) : Type :=
| Ok (a : A)
| Raise (e : PyErr)
| OutOfFuel.
Arguments Ok {A} a.
Arguments Raise {A} e.
Arguments OutOfFuel {A}.

(** A computation returns its result together with the store as it is when
    the computation ends or is abandoned. *)
Definition M (A : Type) : Type := Store -> Res A * Store.

Definition ret {A} (a : A) : M A := fun s => (Ok a, s).
Definition raise {A} (e : PyErr) : M A := fun s => (Raise e, s).
Definition out_of_fuel {A} : M A := fun s => (OutOfFuel, s).

Definition bind {A B} (m : M A) (f : A -> M B) : M B :=
  fun s =>
    match m s with
    | (Ok a, s') => f a s'
    | (Raise e, s') => (Raise e, s')
    | (OutOfFuel, s') => (OutOfFuel, s')
    end.

Declare Scope py_scope.
Delimit Scope py_scope with py.
Notation "'do' x <- m ; k" := (bind m (fun x => k))
  (at level 10, x name, m at level 100, k at level 200) : py_scope.
Notation "'run' m ; k" := (bind m (fun _ => k))
  (at level 10, m at level 100, k at level 200) : py_scope.
Local Open Scope py_scope.

Definition get_store : M Store := fun s => (Ok s, s).
Definition put_store (s : Store) : M unit := fun _ => (Ok tt, s).

(** [for x in l: body x] *)
Fixpoint py_for {A} (l : list A) (body : A -> M unit) : M unit :=
  match l with
  | [] => ret tt
  | x :: r => run body x; py_for r body
  end.

(** [enumerate(l)] *)
Definition enumerate {A} (l : list A) : list (nat * A) :=
  combine (seq 0 (length l)) l.

(** [for x in l: acc = body acc x], for loops that build a local value. *)
Fixpoint for_fold {A B} (l : list A) (acc : B) (body : B -> A -> M B) : M B :=
  match l with
  | [] => ret acc
  | x :: r => do acc' <- body acc x; for_fold r acc' body
  end.

(** ** Python primitives on the store *)

(** [self.local_graph.vertices[i]] *)
Definition vertex (i : nat) : M TerraformBlock :=
  fun s => match vertices s !! i with
           | Some b => (Ok b, s)
           | None => (Raise IndexError, s)
           end.

(** [self.local_graph.vertices.append(b)] *)
Definition vertices_append (b : TerraformBlock) : M unit :=
  fun s => (Ok tt, with_vertices s (vertices s ++ [b])).

(** [self.local_graph.vertices[i] = b] *)
Definition vertices_set (i : nat) (b : TerraformBlock) : M unit :=
  fun s => if decide (i < length (vertices s))
           then (Ok tt, with_vertices s (<[i := b]> (vertices s)))
           else (Raise IndexError, s).

(** [len(self.local_graph.vertices)] *)
Definition vertices_len : M nat := fun s => (Ok (length (vertices s)), s).

(** [TFModule(path, name, nested_tf_module, foreach_idx)]: a new object. *)
Definition new_TFModule (p n : string) (nested : option loc)
    (idx : option PyKey) : M loc :=
  fun s => (Ok (length (heap s)),
            with_heap s (heap s ++ [mkTFObject p n nested idx])).

(** Reading the fields of the object at [l]. *)
Definition tf_object (l : loc) : M TFObject :=
  fun s => match heap s !! l with
           | Some o => (Ok o, s)
           | None => (Raise RecursionError, s)
           end.

(** [l.foreach_idx = idx] *)
Definition assign_foreach_idx (l : loc) (idx : option PyKey) : M unit :=
  fun s => match heap s !! l with
           | Some o =>
             (Ok tt,
              with_heap s (<[l := mkTFObject (o_path o) (o_name o)
                                             (o_nested o) idx]> (heap s)))
           | None => (Raise RecursionError, s)
           end.

(** The structure of a key object, for [==], hashing and lookups.  A
    nesting that does not end makes [__eq__] and [__hash__] recurse without
    end. *)
Definition key_of (r : option loc) : M Key :=
  fun s => match ref_value (heap s) r with
           | Some k => (Ok k, s)
           | None => (Raise RecursionError, s)
           end.

(** [deepcopy] of a [TFModule] object with the memo of the running copy:
    an object already copied is not copied again, so what was shared stays
    shared inside the copy.  The copies are allocated after their nested
    module. *)
Fixpoint copy_chain (fuel : nat) (memo : list (loc * loc)) (h : Heap)
    (l : loc) : option (list (loc * loc) * Heap * loc) :=
  match fuel with
  | O => None
  | S f =>
    match list_find (fun p => Nat.eqb (fst p) l) memo with
    | Some (_, (_, l')) => Some (memo, h, l')
    | None =>
      match h !! l with
      | None => None
      | Some o =>
        match o_nested o with
        | None => Some ((l, length h) :: memo, h ++ [o], length h)
        | Some n =>
          match copy_chain f memo h n with
          | None => None
          | Some (memo1, h1, n') =>
            Some ((l, length h1) :: memo1,
                  h1 ++ [mkTFObject (o_path o) (o_name o) (Some n')
                                    (o_foreach_idx o)],
                  length h1)
          end
        end
      end
    end
  end.

Definition copy_ref (memo : list (loc * loc)) (h : Heap) (r : option loc)
  : option (list (loc * loc) * Heap * option loc) :=
  match r with
  | None => Some (memo, h, None)
  | Some l =>
    match copy_chain (length h) memo h l with
    | Some (m, h', l') => Some (m, h', Some l')
    | None => None
    end
  end.

(** [deepcopy(r)] for [r] a [TFModule] or [None]. *)
Definition deepcopy_TFModule (r : option loc) : M (option loc) :=
  fun s => match copy_ref [] (heap s) r with
           | Some (_, h', r') => (Ok r', with_heap s h')
           | None => (Raise RecursionError, s)
           end.

(** [deepcopy(b)] for a block: one memo for the whole block, [config]
    before [source_module_object]. *)
Definition deepcopy_block (b : TerraformBlock) : M TerraformBlock :=
  fun s =>
    match copy_ref [] (heap s) (resolved_module_entry b) with
    | None => (Raise RecursionError, s)
    | Some (m1, h1, res') =>
      match copy_ref m1 h1 (source_module_object b) with
      | None => (Raise RecursionError, s)
      | Some (_, h2, smo') => (Ok (set_refs b smo' res'), with_heap s h2)
      end
    end.

(** ** The membership index as the handler uses it *)

(** Modelled from the spec: [vertices_by_module_dependency] is created
    outside this file.  Section 4.3 and section 7 of the specification say
    that a block with no membership entry has zero descendants and that
    this is not an error, so subscripting with a key that has no entry
    reads as an entry with no members, and the same for a block type
    within an entry. *)
Definition dict_read (k : Key) : M Members :=
  fun s => (Ok (default [] (dict_get (heap s) (vertices_by_module_dependency s)
                                     k)), s).

(** [k in self.local_graph.vertices_by_module_dependency] *)
Definition dict_contains (k : Key) : M bool :=
  fun s => (Ok (dict_mem (heap s) (vertices_by_module_dependency s) k), s).

(** [self.local_graph.vertices_by_module_dependency[kl] = v] *)
Definition dict_assign (kl : option loc) (v : Members) : M unit :=
  do k <- key_of kl;
  fun s => (Ok tt, with_dict s (dict_set (heap s)
                                  (vertices_by_module_dependency s) kl k v)).

(** [self.local_graph.vertices_by_module_dependency[kl][t].append(i)] *)
Definition dict_append (kl : option loc) (t : BlockType) (i : nat) : M unit :=
  do k <- key_of kl;
  do m <- dict_read k;
  fun s => (Ok tt, with_dict s (dict_set (heap s)
                                  (vertices_by_module_dependency s) kl k
                                  (members_append m t i))).

(** [deepcopy(d)] builds a new dictionary from the items of [d], in order,
    under copies of the keys as they are now: a key equal to an earlier one
    replaces that one's value.  The copy is local to one call of
    [_create_new_module] and only read there, so it is kept by structure. *)
Fixpoint assoc_set (a : list (Key * Members)) (k : Key) (v : Members)
  : list (Key * Members) :=
  match a with
  | [] => [(k, v)]
  | (k', v') :: r =>
    if Key_eqb k' k then (k', v) :: r else (k', v') :: assoc_set r k v
  end.

Fixpoint assoc_get (a : list (Key * Members)) (k : Key) : option Members :=
  match a with
  | [] => None
  | (k', v) :: r => if Key_eqb k' k then Some v else assoc_get r k
  end.

Fixpoint dict_copy (h : Heap) (d : Dict) (acc : list (Key * Members))
  : option (list (Key * Members)) :=
  match d with
  | [] => Some acc
  | e :: r =>
    match ref_value h (e_key e) with
    | None => None
    | Some k => dict_copy h r (assoc_set acc k (e_members e))
    end
  end.

Definition deepcopy_dict : M (list (Key * Members)) :=
  fun s => match dict_copy (heap s) (vertices_by_module_dependency s) [] with
           | Some c => (Ok c, s)
           | None => (Raise RecursionError, s)
           end.

(** ** The parts of [ForeachAbstractHandler] the module handler calls *)

(** Modelled from the spec: [_update_nested_tf_module_foreach_idx] is
    defined in [abstract_handler.py].  Section 4.4 of the specification:
    the module reference is followed outwards through [nested_tf_module],
    and the first module on the way that equals the pre-duplication module
    identity, that is [original_module_key] with its [foreach_idx] unset,
    receives the instance key.  The helper unsets [foreach_idx] on the
    [original_module_key] object it is given before it compares. *)
Fixpoint _update_nested_walk (fuel : nat)
    (original_foreach_or_count_key : PyKey) (original_module_key : loc)
    (tf_moudle : option loc) : M unit :=
  match tf_moudle with
  | None => ret tt
  | Some l =>
    match fuel with
    | O => raise RecursionError
    | S f =>
      do v <- key_of (Some l);
      do w <- key_of (Some original_module_key);
      if Key_eqb v w
      then assign_foreach_idx l (Some original_foreach_or_count_key)
      else do o <- tf_object l;
           _update_nested_walk f original_foreach_or_count_key
                               original_module_key (o_nested o)
    end
  end.

Definition _update_nested_tf_module_foreach_idx
    (original_foreach_or_count_key : PyKey) (original_module_key : loc)
    (tf_moudle : option loc) : M unit :=
  run assign_foreach_idx original_module_key None;
  do s <- get_store;
  _update_nested_walk (length (heap s)) original_foreach_or_count_key
                      original_module_key tf_moudle.

(** Modelled from the spec: [_update_block_name_and_id] is defined in
    [abstract_handler.py].  Section 4.3 of the specification: the clone
    gets a unique name that encodes the instance key.  The instance suffix
    starts with an opening bracket (see [_get_current_tf_module_object]);
    a string key is written between double quotes, an integer key in
    decimal. *)
Definition double_quote : string := String (ascii_of_nat 34) EmptyString.

Definition idx_with_separator (idx : PyKey) : string :=
  match idx with
  | PyStr s => double_quote ++ s ++ double_quote
  | PyInt z => NilZero.string_of_int (Z.to_int z)
  end.

Definition _update_block_name_and_id (block : TerraformBlock) (idx : PyKey)
  : TerraformBlock :=
  set_name block (name block ++ "[" ++ idx_with_separator idx ++ "]").

(** [s.split('[')[0]] *)
Fixpoint split_bracket_0 (s : string) : string :=
  match s with
  | EmptyString => EmptyString
  | String c r =>
    if Ascii.eqb c "["%char then EmptyString
    else String c (split_bracket_0 r)
  end.

(** [range(statement)]: a [TypeError] unless [statement] is an integer. *)
Definition py_range (statement : Statement) : M (list nat) :=
  match statement with
  | SInt n => ret (seq 0 (Z.to_nat n))
  | _ => raise TypeError
  end.

Section ForeachModuleHandler.

(** The collaborators of the handler, defined outside this file. *)

(** [_build_key_to_val_changes] followed by [_update_foreach_attrs]: the
    attribute renderer substitutes the instance key and value in the
    [config] and the [attributes] of the clone. *)
Variable _update_foreach_attrs :
  TerraformBlock -> PyKey -> option PyKey ->
  list (string * Statement) * list (string * Statement) ->
  list (string * Statement) * list (string * Statement).

(** [_build_sub_graph] followed by [_render_sub_graph]: a rendered graph
    of its own, built from the store and the candidate modules. *)
Variable SubGraph : Type.
Variable _build_and_render_sub_graph : Store -> list nat -> SubGraph.

(** The static-resolution oracle, section 4.2 of the specification. *)
Variable _handle_static_statement : nat -> SubGraph -> Statement.
Variable _is_static_statement : nat -> SubGraph -> bool.

Definition _update_resolved_entry_for_tf_definition
    (child : TerraformBlock) (original_foreach_or_count_key : PyKey)
    (original_module_key : loc) : M unit :=
  match resolved_module_entry child with
  | None => ret tt
  | Some l =>
    _update_nested_tf_module_foreach_idx original_foreach_or_count_key
                                         original_module_key (Some l)
  end.

(** [new_vertex.source_module.pop()] then [.add(i)]; the set is kept as
    a list and [pop] takes its first element. *)
Definition source_module_pop_add (b : TerraformBlock) (i : nat)
  : option TerraformBlock :=
  match source_module b with
  | [] => None
  | _ :: r => Some (set_source_module b (if bool_decide (i ∈ r) then r
                                         else r ++ [i]))
  end.

(** The body of [_add_new_vertices_for_module]; [rec] is
    [_create_new_module_with_vertices] called without a new resource. *)
Definition _add_new_vertices_for_module
    (rec : TerraformBlock -> Members -> nat -> M unit)
    (new_module_key : loc) (new_module_value : Members)
    (new_resource_vertex_idx : nat) : M Members :=
  for_fold new_module_value ([] : Members)
    (fun acc item =>
       let '(vertex_type, vertices_idx) := item in
       for_fold vertices_idx acc
         (fun new_vertices_module_value vertex_idx =>
            do module_vertex <- vertex vertex_idx;
            do new_vertex0 <- deepcopy_block module_vertex;
            let new_vertex1 :=
              set_source_module_object new_vertex0 (Some new_module_key) in
            run vertices_append new_vertex1;
            do n <- vertices_len;
            let new_vertex_idx := n - 1 in
            match source_module_pop_add new_vertex1
                                        new_resource_vertex_idx with
            | None => raise KeyError
            | Some new_vertex =>
              run vertices_set new_vertex_idx new_vertex;
              let acc' := members_append new_vertices_module_value
                                         vertex_type new_vertex_idx in
              if BlockType_eqb vertex_type MODULE
              then
                do module_vertex_key <-
                   new_TFModule (path module_vertex) (name module_vertex)
                                (source_module_object module_vertex)
                                (for_each_index module_vertex);
                do k <- key_of (Some module_vertex_key);
                do module_vertex_value <- dict_read k;
                run rec new_vertex module_vertex_value new_vertex_idx;
                ret acc'
              else ret acc'
            end)).

Fixpoint _create_new_module_with_vertices (fuel : nat)
    (main_resource : TerraformBlock) (main_resource_module_value : Members)
    (resource_idx : nat) (new_resource_module_key : option loc)
  : M unit :=
  match fuel with
  | O => out_of_fuel
  | S f =>
    do new_resource_module_key <-
       match new_resource_module_key with
       | Some k => ret k
       | None =>
         do new_resource <- deepcopy_block main_resource;
         new_TFModule (path new_resource) (name new_resource)
                      (source_module_object new_resource)
                      (for_each_index new_resource)
       end;
    do n <- vertices_len;
    let new_resource_vertex_idx := n - 1 in
    do original_vertex <- vertex resource_idx;
    do source_module_key <-
       match source_module_object original_vertex with
       | Some l =>
         do o <- tf_object l;
         do k <- new_TFModule (o_path o) (o_name o) (o_nested o) None;
         ret (Some k)
       | None => ret None
       end;
    run dict_append source_module_key MODULE new_resource_vertex_idx;
    do new_vertices_module_value <-
       _add_new_vertices_for_module
         (fun b v i => _create_new_module_with_vertices f b v i None)
         new_resource_module_key main_resource_module_value
         new_resource_vertex_idx;
    dict_assign (Some new_resource_module_key) new_vertices_module_value
  end.

Definition _create_new_module (fuel : nat) (main_resource : TerraformBlock)
    (new_value : PyKey) (resource_idx : nat) (foreach_idx : nat)
    (new_key : option PyKey) : M unit :=
  do new_resource0 <- deepcopy_block main_resource;
  let new_resource1 :=
    set_config_attributes new_resource0
      (_update_foreach_attrs main_resource new_value new_key
         (config new_resource0, attributes new_resource0)) in
  let idx_to_change := py_or new_key new_value in
  let new_resource2 := set_for_each_index new_resource1 (Some idx_to_change) in
  do main_resource_module_key <-
     new_TFModule (path new_resource2) (name main_resource)
                  (source_module_object new_resource2) None;
  do copy_of_vertices_by_module_dependency <- deepcopy_dict;
  do k <- key_of (Some main_resource_module_key);
  let main_resource_module_value :=
    default [] (assoc_get copy_of_vertices_by_module_dependency k) in
  do new_resource_module_key <-
     new_TFModule (path new_resource2) (name new_resource2)
                  (source_module_object new_resource2) (Some idx_to_change);
  let new_resource := _update_block_name_and_id new_resource2 idx_to_change in
  run _update_resolved_entry_for_tf_definition new_resource idx_to_change
                                               main_resource_module_key;
  if negb (Nat.eqb foreach_idx 0)
  then
    run vertices_append new_resource;
    _create_new_module_with_vertices fuel main_resource
      main_resource_module_value resource_idx (Some new_resource_module_key)
  else
    run vertices_set resource_idx new_resource;
    do key_with_foreach_index <-
       deepcopy_TFModule (Some main_resource_module_key);
    match key_with_foreach_index with
    | Some l =>
      run assign_foreach_idx l (Some idx_to_change);
      dict_assign (Some l) main_resource_module_value
    | None => raise AttributeError
    end.

Definition _create_new_foreach_resource (fuel : nat) (block_idx : nat)
    (foreach_idx : nat) (main_resource : TerraformBlock)
    (new_key : PyKey) (new_value : PyKey) : M unit :=
  _create_new_module fuel main_resource new_value block_idx foreach_idx
                     (Some new_key).

Fixpoint _update_children_foreach_index (fuel : nat)
    (original_foreach_or_count_key : PyKey) (original_module_key : loc)
    (current_module_key : option loc) (should_override_foreach_key : bool)
  : M unit :=
  match fuel with
  | O => out_of_fuel
  | S f =>
    do current_module_key <-
       match current_module_key with
       | None => deepcopy_TFModule (Some original_module_key)
       | Some l => ret (Some l)
       end;
    do k <- key_of current_module_key;
    do present <- dict_contains k;
    if negb present then ret tt
    else
      do values <- dict_read k;
      py_for values (fun item =>
        py_for (snd item) (fun child_index =>
          do child <- vertex child_index;
          run _update_nested_tf_module_foreach_idx
                original_foreach_or_count_key original_module_key
                (source_module_object child);
          run _update_resolved_entry_for_tf_definition child
                original_foreach_or_count_key original_module_key;
          do child_source_module_object_copy <-
             deepcopy_TFModule (source_module_object child);
          run (if should_override_foreach_key
               then match child_source_module_object_copy with
                    | Some l => assign_foreach_idx l None
                    | None => raise AttributeError
                    end
               else ret tt);
          do child_module_key <-
             new_TFModule (path child) (name child)
                          child_source_module_object_copy
                          (for_each_index child);
          _update_children_foreach_index f original_foreach_or_count_key
            original_module_key (Some child_module_key) true))
  end.

Definition _update_module_children (fuel : nat)
    (main_resource : TerraformBlock)
    (original_foreach_or_count_key : PyKey)
    (should_override_foreach_key : bool) : M unit :=
  do original_module_key <-
     new_TFModule (path main_resource) (name main_resource)
                  (source_module_object main_resource) None;
  run (if negb should_override_foreach_key
       then assign_foreach_idx original_module_key
                               (Some original_foreach_or_count_key)
       else ret tt);
  _update_children_foreach_index fuel original_foreach_or_count_key
    original_module_key None should_override_foreach_key.

Definition should_override (i : nat) : bool := Nat.eqb i 0.

Definition _create_new_resources_count (fuel : nat) (statement : Statement)
    (block_idx : nat) : M unit :=
  do main_resource <- vertex block_idx;
  do r <- py_range statement;
  run py_for r (fun i =>
        _create_new_module fuel main_resource (PyInt (Z.of_nat i)) block_idx
                           i None);
  do r' <- py_range statement;
  py_for r' (fun i =>
    _update_module_children fuel main_resource (PyInt (Z.of_nat i))
                            (should_override i)).

(** Modelled from the spec: [_create_new_resources_foreach] of
    [ForeachAbstractHandler], which the module handler calls through
    [super()].  Section 4.3 of the specification: one clone per element
    of a sequence, whose instance key is the positional value itself, and
    one clone per entry of a mapping, whose instance key is the mapping's
    key and whose instance value is the mapping's value.  Section 9: the
    reference has no explicit handling for a statement of another
    kind. *)
Definition super_create_new_resources_foreach (fuel : nat)
    (statement : Statement) (block_idx : nat) : M unit :=
  do main_resource <- vertex block_idx;
  match statement with
  | SList l =>
    py_for (enumerate l) (fun '(i, new_value) =>
      _create_new_foreach_resource fuel block_idx i main_resource
                                   new_value new_value)
  | SDict d =>
    py_for (enumerate d) (fun '(i, (new_key, new_value)) =>
      _create_new_foreach_resource fuel block_idx i main_resource
                                   new_key new_value)
  | _ => ret tt
  end.

Definition _create_new_resources_foreach (fuel : nat)
    (statement : Statement) (block_idx : nat) : M unit :=
  do main_resource <- vertex block_idx;
  run super_create_new_resources_foreach fuel statement block_idx;
  match statement with
  | SList l =>
    py_for (enumerate l) (fun '(i, new_value) =>
      _update_module_children fuel main_resource new_value
                              (should_override i))
  | SDict d =>
    py_for (enumerate d) (fun '(i, (new_key, _)) =>
      _update_module_children fuel main_resource new_key
                              (should_override i))
  | _ => ret tt
  end.

Definition _duplicate_module_with_for_each (fuel : nat) (module_idx : nat)
    (for_each : Statement) : M unit :=
  _create_new_resources_foreach fuel for_each module_idx.

Definition _duplicate_module_with_count (fuel : nat) (module_idx : nat)
    (count : Statement) : M unit :=
  _create_new_resources_count fuel count module_idx.

(** *** The level scheduler *)

Definition _get_current_tf_module_object (m_idx : nat) : M loc :=
  do m <- vertex m_idx;
  let m_name := split_bracket_0 (name m) in
  new_TFModule (path m) m_name (source_module_object m) (for_each_index m).

(** [[d[curr][BlockType.MODULE] for curr in current_level]] *)
Definition modules_of_level (current_level : list (option loc))
  : M (list (list nat)) :=
  for_fold current_level []
    (fun acc curr =>
       do k <- key_of curr;
       do m <- dict_read k;
       ret (acc ++ [members_get m MODULE])).

(** [current_level] is a list the caller owns and this method empties
    and fills again; it is returned together with the result. *)
Definition _get_modules_to_render (current_level : list (option loc))
  : M (list nat * list (option loc)) :=
  do all <- modules_of_level current_level;
  match all with
  | [] => raise IndexError
  | rendered_modules :: _ =>
    do current_level' <-
       for_fold rendered_modules []
         (fun acc m_idx =>
            do l <- _get_current_tf_module_object m_idx;
            ret (acc ++ [Some l]));
    do modules_to_render <- modules_of_level current_level';
    ret (concat modules_to_render, current_level')
  end.

(** The body of the loop over [modules_to_render]. *)
Definition render_module (fuel : nat) (sub_graph : SubGraph)
    (module_idx : nat) : M unit :=
  do module_block <- vertex module_idx;
  let for_each := attributes_get (attributes module_block) FOREACH_STRING in
  let count := attributes_get (attributes module_block) COUNT_STRING in
  if stmt_truthy for_each then
    let for_each := _handle_static_statement module_idx sub_graph in
    if negb (_is_static_statement module_idx sub_graph) then ret tt
    else _duplicate_module_with_for_each fuel module_idx for_each
  else if stmt_truthy count then
    let count := _handle_static_statement module_idx sub_graph in
    if negb (_is_static_statement module_idx sub_graph) then ret tt
    else _duplicate_module_with_count fuel module_idx count
  else ret tt.

Definition _render_foreach_modules_by_levels (fuel : nat)
    (modules_blocks : list nat) (modules_to_render : list nat)
    (current_level : list (option loc))
  : M (list nat * list (option loc)) :=
  do s <- get_store;
  let sub_graph := _build_and_render_sub_graph s modules_blocks in
  run py_for modules_to_render (render_module fuel sub_graph);
  _get_modules_to_render current_level.

(** [while modules_to_render: ...] *)
Fixpoint handle_loop (fuel : nat) (modules_blocks : list nat)
    (modules_to_render : list nat) (current_level : list (option loc))
  : M unit :=
  match modules_to_render with
  | [] => ret tt
  | _ :: _ =>
    match fuel with
    | O => out_of_fuel
    | S f =>
      do next <- _render_foreach_modules_by_levels f modules_blocks
                   modules_to_render current_level;
      handle_loop f modules_blocks (fst next) (snd next)
    end
  end.

Definition handle (fuel : nat) (modules_blocks : list nat) : M unit :=
  match modules_blocks with
  | [] => ret tt
  | _ :: _ =>
    let current_level := [None] in
    do s <- get_store;
    match dict_get (heap s) (vertices_by_module_dependency s) None with
    | None => raise TypeError
    | Some m =>
      let main_module_modules := members_get m MODULE in
      handle_loop fuel modules_blocks main_module_modules current_level
    end
  end.

End ForeachModuleHandler.

(** ** The identity propagation as the specification words it *)

(** Section 4.4 of the specification describes the walk "recursively
    across nested-module boundaries" with one rule for the override
    instance.  This is [_update_children_foreach_index] with that reading
    made explicit: the recursive call hands [should_override_foreach_key]
    down, where the code leaves it to its default. *)
Fixpoint walk_with_flag_passed_down (fuel : nat)
    (original_foreach_or_count_key : PyKey) (original_module_key : loc)
    (current_module_key : option loc) (should_override_foreach_key : bool)
  : M unit :=
  match fuel with
  | O => out_of_fuel
  | S f =>
    do current_module_key <-
       match current_module_key with
       | None => deepcopy_TFModule (Some original_module_key)
       | Some l => ret (Some l)
       end;
    do k <- key_of current_module_key;
    do present <- dict_contains k;
    if negb present then ret tt
    else
      do values <- dict_read k;
      py_for values (fun item =>
        py_for (snd item) (fun child_index =>
          do child <- vertex child_index;
          run _update_nested_tf_module_foreach_idx
                original_foreach_or_count_key original_module_key
                (source_module_object child);
          run _update_resolved_entry_for_tf_definition child
                original_foreach_or_count_key original_module_key;
          do child_source_module_object_copy <-
             deepcopy_TFModule (source_module_object child);
          run (if should_override_foreach_key
               then match child_source_module_object_copy with
                    | Some l => assign_foreach_idx l None
                    | None => raise AttributeError
                    end
               else ret tt);
          do child_module_key <-
             new_TFModule (path child) (name child)
                          child_source_module_object_copy
                          (for_each_index child);
          walk_with_flag_passed_down f original_foreach_or_count_key
            original_module_key (Some child_module_key)
            should_override_foreach_key))
  end.

(** [_update_module_children] over that walk. *)
Definition update_module_children_flag_passed_down (fuel : nat)
    (main_resource : TerraformBlock)
    (original_foreach_or_count_key : PyKey)
    (should_override_foreach_key : bool) : M unit :=
  do original_module_key <-
     new_TFModule (path main_resource) (name main_resource)
                  (source_module_object main_resource) None;
  run (if negb should_override_foreach_key
       then assign_foreach_idx original_module_key
                               (Some original_foreach_or_count_key)
       else ret tt);
  walk_with_flag_passed_down fuel original_foreach_or_count_key
    original_module_key None should_override_foreach_key.

(** ** Example graphs and collaborators *)

Module Examples.

(** A renderer that leaves [config] and [attributes] as they are. *)
Definition render_nothing (_ : TerraformBlock) (_ : PyKey)
    (_ : option PyKey)
    (ca : list (string * Statement) * list (string * Statement)) := ca.

(** The statement of a module as its attributes give it: [for_each] when
    it is truthy, else [count]. *)
Definition statement_of (s : Store) (i : nat) : Statement :=
  match vertices s !! i with
  | Some b =>
    if stmt_truthy (attributes_get (attributes b) FOREACH_STRING)
    then attributes_get (attributes b) FOREACH_STRING
    else attributes_get (attributes b) COUNT_STRING
  | None => SNone
  end.

(** A sub-graph that is the store itself, and an oracle for which a
    statement is static unless it is still a string. *)
Definition sub_graph_of (s : Store) (_ : list nat) : Store := s.
Definition resolve (i : nat) (s : Store) : Statement := statement_of s i.
Definition is_static (i : nat) (s : Store) : bool :=
  match statement_of s i with SStr _ => false | _ => true end.

Definition module_block (p n : string) (attrs : list (string * Statement))
    (smo : option loc) (sm : list nat) : TerraformBlock :=
  mkBlock MODULE p n [] None attrs smo sm None.

Definition resource_block (p n : string) (smo : option loc) (sm : list nat)
  : TerraformBlock :=
  mkBlock RESOURCE p n [] None [] smo sm None.

(** One module [m] at the root with [count = 3] and nothing inside. *)
Definition count3 : Store :=
  mkStore [module_block "main.tf" "m" [("count", SInt 3)] None []]
          [mkEntry None None [(MODULE, [0])]]
          [].

(** One module at the root whose [for_each] is a mapping with the empty
    string as its only key, and nothing inside. *)
Definition empty_key : Store :=
  mkStore [module_block "main.tf" "m"
                        [("for_each", SDict [(PyStr "", PyStr "x")])] None []]
          [mkEntry None None [(MODULE, [0])]]
          [].

(** One module at the root without [for_each] or [count], with one
    resource inside. *)
Definition plain : Store :=
  mkStore [module_block "main.tf" "m" [] None [];
           resource_block "m/main.tf" "aws_s3_bucket.b" (Some 0) [0]]
          [mkEntry None None [(MODULE, [0])];
           mkEntry (Some 0) (Some (TFM "main.tf" "m" None None))
                   [(RESOURCE, [1])]]
          [mkTFObject "main.tf" "m" None None].

(** Two modules at the root: [a] with [count = 2] and a module [c]
    inside, and [b], whose [for_each] refers to the second instance of
    [a].  The oracle [late_is_static] finds the statement of [b] static
    once the graph holds more than three vertices, that is once [a] has
    been expanded. *)
Definition late : Store :=
  mkStore [module_block "main.tf" "a" [("count", SInt 2)] None [];
           module_block "main.tf" "b"
                        [("for_each", SStr "module.a[1].names")] None [];
           module_block "a/main.tf" "c" [] (Some 0) [0]]
          [mkEntry None None [(MODULE, [0; 1])];
           mkEntry (Some 0) (Some (TFM "main.tf" "a" None None))
                   [(MODULE, [2])]]
          [mkTFObject "main.tf" "a" None None].

Definition late_is_static (i : nat) (sg : Store) : bool :=
  if Nat.eqb i 1 then Nat.ltb 3 (length (vertices sg)) else is_static i sg.

Definition late_resolve (i : nat) (sg : Store) : Statement :=
  if Nat.eqb i 1 then SList [PyStr "a"; PyStr "b"] else resolve i sg.

(** Module [a] at the root with a for_each over two values; inside it
    module [b] with a for_each of its own, and inside [b] one resource.
    The key objects of the membership entries are the
    [source_module_object] of the blocks inside. *)
Definition nested : Store :=
  mkStore [module_block "main.tf" "a"
                        [("for_each", SList [PyStr "a1"; PyStr "a2"])] None [];
           module_block "a/main.tf" "b"
                        [("for_each", SList [PyStr "x"; PyStr "y"])]
                        (Some 0) [0];
           resource_block "a/b/main.tf" "aws_s3_bucket.r" (Some 1) [1]]
          [mkEntry None None [(MODULE, [0])];
           mkEntry (Some 0) (Some (TFM "main.tf" "a" None None))
                   [(MODULE, [1])];
           mkEntry (Some 1)
                   (Some (TFM "a/main.tf" "b"
                              (Some (TFM "main.tf" "a" None None)) None))
                   [(RESOURCE, [2])]]
          [mkTFObject "main.tf" "a" None None;
           mkTFObject "a/main.tf" "b" (Some 0) None].

(** Module [m] at the root and inside it module [c], which is already
    the instance ["k"] of a multiplied module. *)
Definition instance_inside : Store :=
  mkStore [module_block "main.tf" "m" [] None [];
           mkBlock MODULE "m/main.tf" "c" [] None [] (Some 0) [0]
                   (Some (PyStr "k"))]
          [mkEntry None None [(MODULE, [0])];
           mkEntry (Some 0) (Some (TFM "main.tf" "m" None None))
                   [(MODULE, [1])]]
          [mkTFObject "main.tf" "m" None None].

(** The instance 1 of module [a], with its copied descendants: module
    [c], instance ["z"] of a multiplied module, inside it module [g], and
    inside [g] a resource whose resolved module entry still names [a]
    before its duplication. *)
Definition deep : Store :=
  mkStore [module_block "main.tf" "a" [] None [];
           mkBlock MODULE "a/main.tf" "c" [] None [] (Some 0) [0]
                   (Some (PyStr "z"));
           mkBlock MODULE "a/c/main.tf" "g" [] None [] (Some 1) [1] None;
           mkBlock RESOURCE "a/c/g/main.tf" "aws_s3_bucket.x" [] (Some 3) []
                   (Some 2) [2] None]
          [mkEntry None None [(MODULE, [0])];
           mkEntry (Some 0)
                   (Some (TFM "main.tf" "a" None (Some (PyInt 1))))
                   [(MODULE, [1])];
           mkEntry (Some 1)
                   (Some (TFM "a/main.tf" "c"
                              (Some (TFM "main.tf" "a" None (Some (PyInt 1))))
                              (Some (PyStr "z"))))
                   [(MODULE, [2])];
           mkEntry (Some 2)
                   (Some (TFM "a/c/main.tf" "g"
                              (Some (TFM "a/main.tf" "c"
                                         (Some (TFM "main.tf" "a" None
                                                    (Some (PyInt 1))))
                                         (Some (PyStr "z"))))
                              None))
                   [(RESOURCE, [3])]]
          [mkTFObject "main.tf" "a" None (Some (PyInt 1));
           mkTFObject "a/main.tf" "c" (Some 0) (Some (PyStr "z"));
           mkTFObject "a/c/main.tf" "g" (Some 1) None;
           mkTFObject "main.tf" "a" None None].

(** [count3] after the expansion of its module. *)
Definition count3_expanded : Store :=
  Eval vm_compute in
    snd (_create_new_resources_count render_nothing 5 (SInt 3) 0 count3).

End Examples.

(** * Properties *)

(** ** Reasoning about computations *)

Lemma bind_ok {A B} (m : M A) (f : A -> M B) s a s' :
  m s = (Ok a, s') -> bind m f s = f a s'.
Proof. unfold bind. now intros ->. Qed.

Lemma bind_raise {A B} (m : M A) (f : A -> M B) s e s' :
  m s = (Raise e, s') -> bind m f s = (Raise e, s').
Proof. unfold bind. now intros ->. Qed.

Lemma bind_out_of_fuel {A B} (m : M A) (f : A -> M B) s s' :
  m s = (OutOfFuel, s') -> bind m f s = (OutOfFuel, s').
Proof. unfold bind. now intros ->. Qed.

(** [keeps I m Q]: from a store in [I], [m] ends in a store in [I],
    however it ends, and a result it returns satisfies [Q]. *)
Definition keeps {A} (I : Store -> Prop) (m : M A) (Q : A -> Prop) : Prop :=
  forall s, I s -> I (snd (m s)) /\ forall a, fst (m s) = Ok a -> Q a.

Section Keeps.
Variable I : Store -> Prop.

Lemma keeps_ret {A} (a : A) (Q : A -> Prop) : Q a -> keeps I (ret a) Q.
Proof. intros HQ s Hs. split; [exact Hs|]. simpl. intros ? [= <-]. exact HQ. Qed.

Lemma keeps_raise {A} e (Q : A -> Prop) : keeps I (raise e) Q.
Proof. intros s Hs. split; [exact Hs|]. simpl. discriminate. Qed.

Lemma keeps_out_of_fuel {A} (Q : A -> Prop) : keeps I out_of_fuel Q.
Proof. intros s Hs. split; [exact Hs|]. simpl. discriminate. Qed.

Lemma keeps_bind {A B} (m : M A) (f : A -> M B) Q Q' :
  keeps I m Q -> (forall a, Q a -> keeps I (f a) Q') ->
  keeps I (bind m f) Q'.
Proof.
  intros Hm Hf s Hs. destruct (Hm s Hs) as [H1 H2].
  unfold bind. destruct (m s) as [[a|e|] s1]; simpl in *.
  - apply Hf; auto.
  - split; [exact H1|discriminate].
  - split; [exact H1|discriminate].
Qed.

Lemma keeps_weaken {A} (m : M A) (Q Q' : A -> Prop) :
  keeps I m Q -> (forall a, Q a -> Q' a) -> keeps I m Q'.
Proof. intros Hm HQ s Hs. destruct (Hm s Hs). split; auto. Qed.

Lemma keeps_for {A} (l : list A) (body : A -> M unit) :
  (forall x, In x l -> keeps I (body x) (fun _ => True)) ->
  keeps I (py_for l body) (fun _ => True).
Proof.
  induction l as [|x r IH]; intros Hb; simpl.
  - now apply keeps_ret.
  - eapply keeps_bind; [apply Hb; now left|].
    intros _ _. apply IH. intros y Hy. apply Hb. now right.
Qed.

Lemma keeps_fold {A B} (l : list A) (body : B -> A -> M B) (P : B -> Prop) :
  (forall acc x, In x l -> P acc -> keeps I (body acc x) P) ->
  forall acc, P acc -> keeps I (for_fold l acc body) P.
Proof.
  induction l as [|x r IH]; intros Hb acc Hacc; simpl.
  - now apply keeps_ret.
  - eapply keeps_bind; [apply Hb; [now left|exact Hacc]|].
    intros a Ha. apply IH; [|exact Ha].
    intros acc' y Hy. apply Hb. now right.
Qed.

Lemma keeps_pure {A} (g : Store -> Res A) (Q : A -> Prop) :
  (forall s a, I s -> g s = Ok a -> Q a) ->
  keeps I (fun s => (g s, s)) Q.
Proof. intros H s Hs. split; [exact Hs|]. simpl. intros a Ha. eauto. Qed.
End Keeps.

(** ** Computations that leave the graph alone *)

(** The vertex list and the membership index are [v0] and [d0]; the heap
    of [TFModule] objects may have grown. *)
Definition graph_is (v0 : list TerraformBlock) (d0 : Dict) (s : Store) : Prop :=
  vertices s = v0 /\ vertices_by_module_dependency s = d0.

Section GraphIs.
Variable v0 : list TerraformBlock.
Variable d0 : Dict.
Local Abbreviation I := (graph_is v0 d0).

Lemma keeps_vertex i :
  keeps I (vertex i) (fun b => v0 !! i = Some b).
Proof.
  intros s [Hv Hd]. unfold vertex. rewrite Hv.
  destruct (v0 !! i) as [b|] eqn:E; simpl; (split; [now split|]).
  - now intros ? [= <-].
  - discriminate.
Qed.

Lemma keeps_new_TFModule p n nested idx :
  keeps I (new_TFModule p n nested idx) (fun _ => True).
Proof. intros s [Hv Hd]. simpl. split; [now split|auto]. Qed.

Lemma keeps_key_of r : keeps I (key_of r) (fun _ => True).
Proof.
  intros s Hs. unfold key_of. destruct (ref_value (heap s) r); simpl; auto.
Qed.

Lemma keeps_dict_read k : keeps I (dict_read k) (fun _ => True).
Proof. intros s Hs. simpl. auto. Qed.

Lemma keeps_get_store : keeps I get_store I.
Proof. intros s Hs. simpl. split; [auto|]. now intros ? [= <-]. Qed.

Lemma keeps_modules_of_level cl :
  keeps I (modules_of_level cl) (fun _ => True).
Proof.
  unfold modules_of_level.
  apply keeps_fold with (P := fun _ => True); [|exact Logic.I].
  intros acc x _ _.
  eapply keeps_bind; [apply keeps_key_of|]. intros k _.
  eapply keeps_bind; [apply keeps_dict_read|]. intros m _.
  now apply keeps_ret.
Qed.

Lemma keeps_get_current_tf_module_object i :
  keeps I (_get_current_tf_module_object i) (fun _ => True).
Proof.
  unfold _get_current_tf_module_object.
  eapply keeps_bind; [apply keeps_vertex|]. intros b _.
  apply keeps_new_TFModule.
Qed.

Lemma keeps_get_modules_to_render cl :
  keeps I (_get_modules_to_render cl) (fun _ => True).
Proof.
  unfold _get_modules_to_render.
  eapply keeps_bind; [apply keeps_modules_of_level|]. intros all _.
  destruct all as [|rendered_modules ?]; [apply keeps_raise|].
  eapply keeps_bind.
  - apply keeps_fold with (P := fun _ => True); [|exact Logic.I].
    intros acc x _ _.
    eapply keeps_bind; [apply keeps_get_current_tf_module_object|].
    intros l _. now apply keeps_ret.
  - intros cl' _.
    eapply keeps_bind; [apply keeps_modules_of_level|]. intros m _.
    now apply keeps_ret.
Qed.
End GraphIs.

Definition no_iteration (b : TerraformBlock) : Prop :=
  stmt_truthy (attributes_get (attributes b) FOREACH_STRING) = false /\
  stmt_truthy (attributes_get (attributes b) COUNT_STRING) = false.

Section Scheduler.
Variable _update_foreach_attrs :
  TerraformBlock -> PyKey -> option PyKey ->
  list (string * Statement) * list (string * Statement) ->
  list (string * Statement) * list (string * Statement).
Variable SubGraph : Type.
Variable _build_and_render_sub_graph : Store -> list nat -> SubGraph.
Variable _handle_static_statement : nat -> SubGraph -> Statement.
Variable _is_static_statement : nat -> SubGraph -> bool.

Local Abbreviation render_module' :=
  (render_module _update_foreach_attrs SubGraph _handle_static_statement
                 _is_static_statement).
Local Abbreviation handle_loop' :=
  (handle_loop _update_foreach_attrs SubGraph _build_and_render_sub_graph
               _handle_static_statement _is_static_statement).
Local Abbreviation handle' :=
  (handle _update_foreach_attrs SubGraph _build_and_render_sub_graph
          _handle_static_statement _is_static_statement).

Variable v0 : list TerraformBlock.
Variable d0 : Dict.

(** When no visit of a module changes the graph, the whole loop does
    not. *)
Lemma handle_loop_keeps :
  (forall fuel sg i,
      keeps (graph_is v0 d0) (render_module' fuel sg i) (fun _ => True)) ->
  forall fuel mb mtr cl,
    keeps (graph_is v0 d0) (handle_loop' fuel mb mtr cl) (fun _ => True).
Proof.
  intros Hrm fuel. induction fuel as [|f IH]; intros mb mtr cl.
  - destruct mtr; simpl; [now apply keeps_ret|apply keeps_out_of_fuel].
  - destruct mtr as [|x mtr]; simpl; [now apply keeps_ret|].
    eapply keeps_bind with (Q := fun _ => True).
    + unfold _render_foreach_modules_by_levels.
      eapply keeps_bind; [apply keeps_get_store|]. intros s0 _.
      eapply keeps_bind with (Q := fun _ => True).
      * apply keeps_for. intros y _. apply Hrm.
      * intros _ _. apply keeps_get_modules_to_render.
    + intros next _. apply IH.
Qed.

Lemma handle_keeps :
  (forall fuel sg i,
      keeps (graph_is v0 d0) (render_module' fuel sg i) (fun _ => True)) ->
  forall fuel mb,
    keeps (graph_is v0 d0) (handle' fuel mb) (fun _ => True).
Proof.
  intros Hrm fuel mb. unfold handle. destruct mb as [|x mb].
  - now apply keeps_ret.
  - eapply keeps_bind; [apply keeps_get_store|]. intros s0 _.
    destruct (dict_get _ _ _); [|apply keeps_raise].
    now apply handle_loop_keeps.
Qed.

(** A module without a truthy [for_each] or [count] attribute is passed
    over. *)
Lemma render_module_no_iteration fuel sg i :
  Forall no_iteration v0 ->
  keeps (graph_is v0 d0) (render_module' fuel sg i) (fun _ => True).
Proof.
  intros Hv. unfold render_module.
  eapply keeps_bind; [apply keeps_vertex|]. intros b Hb.
  apply list_elem_of_lookup_2, list_elem_of_In in Hb.
  rewrite List.Forall_forall in Hv. destruct (Hv _ Hb) as [-> ->].
  now apply keeps_ret.
Qed.

(** A module whose statement is not static is passed over. *)
Lemma render_module_not_static fuel sg i :
  _is_static_statement i sg = false ->
  keeps (graph_is v0 d0) (render_module' fuel sg i) (fun _ => True).
Proof.
  intros Hs. unfold render_module.
  eapply keeps_bind; [apply keeps_vertex|]. intros b Hb.
  rewrite Hs. simpl.
  destruct (stmt_truthy _); [now apply keeps_ret|].
  destruct (stmt_truthy _); now apply keeps_ret.
Qed.
End Scheduler.



(** ** Instance keys *)

(** What [new_key or new_value] yields: the key when it is truthy, the
    value when there is no key, and the value too when the key is the
    empty string or zero. *)
Lemma py_or_truthy k v : key_truthy (Some k) = true -> py_or (Some k) v = k.
Proof. unfold py_or. now intros ->. Qed.

Lemma py_or_none v : py_or None v = v.
Proof. reflexivity. Qed.

Lemma py_or_falsy k v : key_truthy (Some k) = false -> py_or (Some k) v = v.
Proof. unfold py_or. now intros ->. Qed.

(** C2: the for_each expansion of the module of [Examples.empty_key],
    whose statement is the mapping with the one entry [("", "x")], returns
    normally and leaves a single instance whose [for_each_index] is the
    entry's value ["x"] and not its key, the empty string. *)
Theorem empty_key_takes_the_value :
  let r := _create_new_resources_foreach Examples.render_nothing 5
             (SDict [(PyStr "", PyStr "x")]) 0 Examples.empty_key in
  fst r = Ok tt /\
  map for_each_index (vertices (snd r)) = [Some (PyStr "x")] /\
  map for_each_index (vertices (snd r)) <> [Some (PyStr "")].
Proof. vm_compute. repeat split; congruence. Qed.

(** ** Malformed statements *)

Definition is_collection (statement : Statement) : bool :=
  match statement with SList _ | SDict _ => true | _ => false end.

Definition is_integer (statement : Statement) : bool :=
  match statement with SInt _ => true | _ => false end.

(** C6, as the code has it: a for_each statement that is neither a
    sequence nor a mapping expands nothing and raises nothing, the store
    is returned as it was; a count statement that is not an integer ends
    in the [TypeError] of [range] before any clone is made. *)
Theorem malformed_statement_outcome
    (render : TerraformBlock -> PyKey -> option PyKey ->
              list (string * Statement) * list (string * Statement) ->
              list (string * Statement) * list (string * Statement))
    (fuel : nat) (statement : Statement) (block_idx : nat) (s : Store)
    (b : TerraformBlock) :
  vertices s !! block_idx = Some b ->
  (is_collection statement = false ->
   _create_new_resources_foreach render fuel statement block_idx s
   = (Ok tt, s)) /\
  (is_integer statement = false ->
   _create_new_resources_count render fuel statement block_idx s
   = (Raise TypeError, s)).
Proof.
  intros Hb. split; intros Hk.
  - unfold _create_new_resources_foreach, super_create_new_resources_foreach.
    rewrite (bind_ok _ _ s b s) by (unfold vertex; now rewrite Hb).
    rewrite (bind_ok _ _ s tt s).
    + destruct statement; try discriminate; reflexivity.
    + rewrite (bind_ok _ _ s b s) by (unfold vertex; now rewrite Hb).
      destruct statement; try discriminate; reflexivity.
  - unfold _create_new_resources_count.
    rewrite (bind_ok _ _ s b s) by (unfold vertex; now rewrite Hb).
    destruct statement; try discriminate; reflexivity.
Qed.

Lemma malformed_statement_outcome_witness :
  _create_new_resources_foreach Examples.render_nothing 5 (SStr "a, b") 0
                                Examples.plain
  = (Ok tt, Examples.plain) /\
  _create_new_resources_count Examples.render_nothing 5 (SStr "two") 0
                              Examples.plain
  = (Raise TypeError, Examples.plain).
Proof.
  split.
  - apply (malformed_statement_outcome Examples.render_nothing 5 (SStr "a, b")
             0 Examples.plain
             (Examples.module_block "main.tf" "m" [] None []));
      reflexivity.
  - apply (malformed_statement_outcome Examples.render_nothing 5 (SStr "two")
             0 Examples.plain
             (Examples.module_block "main.tf" "m" [] None []));
      reflexivity.
Defined.

(** C6 does not hold as stated: the count expansion of block 0 of
    [Examples.plain] with the string ["two"] for a count does not end in
    [InvalidStatementKind] for that block and value, and the for_each
    expansion with a string for a statement does not fail at all. *)
Lemma malformed_statement_not_rejected :
  fst (_create_new_resources_count Examples.render_nothing 5 (SStr "two") 0
                                   Examples.plain)
  <> Raise (InvalidStatementKind 0 (SStr "two")) /\
  fst (_create_new_resources_foreach Examples.render_nothing 5 (SStr "a, b") 0
                                     Examples.plain)
  = Ok tt.
Proof. vm_compute. split; congruence. Qed.

(** ** The key under which the scheduler looks up the next level *)

Lemma bind_inv_ok {A B} (m : M A) (f : A -> M B) s b s' :
  bind m f s = (Ok b, s') ->
  exists a s1, m s = (Ok a, s1) /\ f a s1 = (Ok b, s').
Proof.
  unfold bind. destruct (m s) as [[a|e|] s1]; intros H; try discriminate.
  now exists a, s1.
Qed.

Lemma split_bracket_0_prefix (pre rest : string) :
  ~ In "["%char (list_ascii_of_string pre) ->
  split_bracket_0 (pre ++ "[" ++ rest) = pre.
Proof.
  induction pre as [|c pre IH]; simpl; intros Hn.
  - reflexivity.
  - destruct (Ascii.eqb c "[") eqn:E.
    + apply Ascii.eqb_eq in E. subst. exfalso. apply Hn. now left.
    + f_equal. apply IH. intros Hin. apply Hn. now right.
Qed.

Lemma get_current_tf_module_object_spec s i m :
  vertices s !! i = Some m ->
  _get_current_tf_module_object i s
  = (Ok (length (heap s)),
     with_heap s (heap s ++ [mkTFObject (path m) (split_bracket_0 (name m))
                                        (source_module_object m)
                                        (for_each_index m)])).
Proof.
  intros Hm. unfold _get_current_tf_module_object.
  rewrite (bind_ok _ _ s m s) by (unfold vertex; now rewrite Hm).
  reflexivity.
Qed.

(** The list of [MODULE] members read for one level key. *)
Definition level_members (s : Store) (c : option loc) (ms : list nat) : Prop :=
  exists k, ref_value (heap s) c = Some k /\
            ms = members_get
                   (default [] (dict_get (heap s)
                                         (vertices_by_module_dependency s) k))
                   MODULE.

Lemma modules_of_level_fold cl : forall acc s all s',
  for_fold cl acc
    (fun acc curr =>
       do k <- key_of curr;
       do m <- dict_read k;
       ret (acc ++ [members_get m MODULE])) s = (Ok all, s') ->
  s' = s /\ exists l, all = acc ++ l /\ Forall2 (level_members s) cl l.
Proof.
  induction cl as [|c cl IH]; simpl; intros acc s all s' H.
  - inversion H; subst. split; [reflexivity|]. exists [].
    split; [now rewrite app_nil_r|constructor].
  - apply bind_inv_ok in H as (acc1 & s1 & H1 & H2).
    apply bind_inv_ok in H1 as (k & s2 & Hk & H1).
    unfold key_of in Hk. destruct (ref_value (heap s) c) as [k'|] eqn:Ek;
      inversion Hk; subst; clear Hk.
    simpl in H1. inversion H1; subst; clear H1.
    apply IH in H2 as (-> & l & -> & HF).
    split; [reflexivity|].
    eexists (_ :: l). split; [now rewrite <- app_assoc|].
    constructor; [|exact HF]. now exists k.
Qed.

Lemma modules_of_level_spec cl s all s' :
  modules_of_level cl s = (Ok all, s') ->
  s' = s /\ Forall2 (level_members s) cl all.
Proof.
  intros H. apply modules_of_level_fold in H as (-> & l & -> & HF). now split.
Qed.

(** The key object made for a rendered module: its name is the module's
    name up to the first opening bracket. *)
Definition level_key_of (v : list TerraformBlock) (h : Heap) (m_idx : nat)
    (c : option loc) : Prop :=
  exists m l, c = Some l /\ v !! m_idx = Some m /\
    h !! l = Some (mkTFObject (path m) (split_bracket_0 (name m))
                              (source_module_object m) (for_each_index m)).

Lemma current_level_fold rendered : forall acc s cl' s',
  for_fold rendered acc
    (fun acc m_idx =>
       do l <- _get_current_tf_module_object m_idx;
       ret (acc ++ [Some l])) s = (Ok cl', s') ->
  vertices s' = vertices s /\
  vertices_by_module_dependency s' = vertices_by_module_dependency s /\
  heap s `prefix_of` heap s' /\
  exists l, cl' = acc ++ l /\
            Forall2 (level_key_of (vertices s) (heap s')) rendered l.
Proof.
  induction rendered as [|i r IH]; simpl; intros acc s cl' s' H.
  - inversion H; subst. repeat split; [reflexivity|].
    exists []. split; [now rewrite app_nil_r|constructor].
  - apply bind_inv_ok in H as (acc1 & s1 & H1 & H2).
    apply bind_inv_ok in H1 as (l & s2 & Hl & H1).
    simpl in H1. inversion H1; subst; clear H1.
    destruct (vertices s !! i) as [m|] eqn:Em.
    2:{ unfold _get_current_tf_module_object, bind, vertex in Hl.
        rewrite Em in Hl. discriminate. }
    rewrite (get_current_tf_module_object_spec _ _ _ Em) in Hl.
    inversion Hl; subst; clear Hl.
    apply IH in H2 as (Hv & Hd & Hp & l & -> & HF). simpl in *.
    repeat split; try assumption.
    + etrans; [|exact Hp]. now apply prefix_app_r.
    + eexists (_ :: l). split; [now rewrite <- app_assoc|].
      constructor; [|exact HF].
      exists m, (length (heap s)). repeat split; [exact Em|].
      destruct Hp as [t ->]. rewrite <- app_assoc.
      now apply list_lookup_middle.
Qed.

(** C10: when [_get_modules_to_render] returns, the new level holds, for
    each module rendered in the level just processed, a key object with the
    module's path, its name cut at the first opening bracket, its
    [source_module_object] and its current [for_each_index]; the modules to
    render next are the [MODULE] members of the membership entries read
    under these keys; and a name of the form [pre[rest], with no opening
    bracket in [pre], is cut to [pre]. *)
Theorem next_level_keys_strip_instance_suffix
    (current_level : list (option loc)) (s : Store)
    (modules_to_render : list nat) (current_level' : list (option loc))
    (s' : Store) :
  _get_modules_to_render current_level s
  = (Ok (modules_to_render, current_level'), s') ->
  (exists c0 rest rendered all,
      current_level = c0 :: rest /\
      level_members s c0 rendered /\
      Forall2 (level_key_of (vertices s) (heap s')) rendered current_level' /\
      Forall2 (level_members s') current_level' all /\
      modules_to_render = concat all) /\
  (forall pre rest,
      ~ In "["%char (list_ascii_of_string pre) ->
      split_bracket_0 (pre ++ "[" ++ rest) = pre).
Proof.
  intros H. split; [|apply split_bracket_0_prefix].
  unfold _get_modules_to_render in H.
  apply bind_inv_ok in H as (all0 & s1 & H0 & H).
  apply modules_of_level_spec in H0 as (-> & HF0).
  destruct all0 as [|rendered all0]; [discriminate|].
  apply bind_inv_ok in H as (cl1 & s2 & H1 & H).
  apply current_level_fold in H1 as (Hv & Hd & Hp & l & -> & HF1).
  apply bind_inv_ok in H as (all & s3 & H2 & H).
  apply modules_of_level_spec in H2 as (-> & HF2).
  simpl in H. inversion H; subst; clear H.
  inversion HF0 as [|c0 ms rest all0' Hc0 Hrest]; subst.
  exists c0, rest, rendered, all. repeat split; assumption.
Qed.

Lemma next_level_keys_strip_instance_suffix_witness :
  exists modules_to_render current_level' s',
    _get_modules_to_render [None] Examples.count3_expanded
    = (Ok (modules_to_render, current_level'), s') /\
    exists c0 rest rendered all,
      [None] = c0 :: rest /\
      level_members Examples.count3_expanded c0 rendered /\
      Forall2 (level_key_of (vertices Examples.count3_expanded) (heap s'))
              rendered current_level' /\
      Forall2 (level_members s') current_level' all /\
      modules_to_render = concat all.
Proof.
  eexists _, _, _. split; [vm_compute; reflexivity|].
  apply (next_level_keys_strip_instance_suffix [None]
           Examples.count3_expanded).
  vm_compute. reflexivity.
Defined.

(** ** Scenario: a module with [count = 3] and nothing inside *)

Definition is_module (b : TerraformBlock) : bool :=
  BlockType_eqb (block_type b) MODULE.

(** No slot of the dictionary is keyed by [k]: neither the hash a slot was
    stored under nor its key object as it is now has the structure [k], and
    a lookup of [k] finds nothing. *)
Definition no_entry_keyed (s : Store) (k : Key) : Prop :=
  dict_mem (heap s) (vertices_by_module_dependency s) k = false /\
  forallb (fun e =>
             negb (Key_eqb (e_hash e) k) &&
             match ref_value (heap s) (e_key e) with
             | Some k' => negb (Key_eqb k' k)
             | None => true
             end) (vertices_by_module_dependency s) = true.


(** ** What the scheduler does with a module it visits *)




(** ** Triples *)

(** [hoare P m Q E]: from a store in [P], [m] either returns [a] in a store
    in [Q a], or is abandoned in a store in [E]. *)
Definition hoare {A} (P : Store -> Prop) (m : M A)
    (Q : A -> Store -> Prop) (E : Store -> Prop) : Prop :=
  forall s, P s ->
    match m s with
    | (Ok a, s') => Q a s'
    | (_, s') => E s'
    end.

Lemma hoare_ret {A} (a : A) (P : Store -> Prop) Q E :
  (forall s, P s -> Q a s) -> hoare P (ret a) Q E.
Proof. intros H s Hs. simpl. auto. Qed.

Lemma hoare_raise {A} e (P : Store -> Prop) (Q : A -> Store -> Prop)
    (E : Store -> Prop) :
  (forall s, P s -> E s) -> hoare P (raise e) Q E.
Proof. intros H s Hs. simpl. auto. Qed.

Lemma hoare_out_of_fuel {A} (P : Store -> Prop) (Q : A -> Store -> Prop)
    (E : Store -> Prop) :
  (forall s, P s -> E s) -> hoare P out_of_fuel Q E.
Proof. intros H s Hs. simpl. auto. Qed.

Lemma hoare_bind {A B} (m : M A) (f : A -> M B) P Q R E :
  hoare P m Q E -> (forall a, hoare (Q a) (f a) R E) ->
  hoare P (bind m f) R E.
Proof.
  intros Hm Hf s Hs. specialize (Hm s Hs). unfold bind.
  destruct (m s) as [[a|e|] s1]; auto. now apply Hf.
Qed.

Lemma hoare_conseq {A} (m : M A) (P P' : Store -> Prop)
    (Q Q' : A -> Store -> Prop) (E E' : Store -> Prop) :
  hoare P m Q E -> (forall s, P' s -> P s) ->
  (forall a s, Q a s -> Q' a s) -> (forall s, E s -> E' s) ->
  hoare P' m Q' E'.
Proof.
  intros H HP HQ HE s Hs. specialize (H s (HP s Hs)).
  destruct (m s) as [[a|e|] s1]; auto.
Qed.

Lemma hoare_for {A} (l : list A) (body : A -> M unit) (J E : Store -> Prop) :
  (forall x, In x l -> hoare J (body x) (fun _ => J) E) ->
  hoare J (py_for l body) (fun _ => J) E.
Proof.
  induction l as [|x r IH]; intros Hb; simpl.
  - now apply hoare_ret.
  - eapply hoare_bind; [apply Hb; now left|].
    intros []. apply IH. intros y Hy. apply Hb. now right.
Qed.

Lemma hoare_fold {A B} (l : list A) (body : B -> A -> M B)
    (J : B -> Store -> Prop) (E : Store -> Prop) :
  (forall acc x, In x l -> hoare (J acc) (body acc x) J E) ->
  forall acc, hoare (J acc) (for_fold l acc body) J E.
Proof.
  induction l as [|x r IH]; intros Hb acc; simpl.
  - now apply hoare_ret.
  - eapply hoare_bind; [apply Hb; now left|].
    intros a. apply IH. intros acc' y Hy. apply Hb. now right.
Qed.

Lemma keeps_hoare {A} (I : Store -> Prop) (m : M A) (Q : A -> Prop) :
  keeps I m Q <-> hoare I m (fun a s => I s /\ Q a) I.
Proof.
  split.
  - intros H s Hs. destruct (H s Hs) as [H1 H2].
    destruct (m s) as [[a|e|] s1]; simpl in *; auto.
  - intros H s Hs. specialize (H s Hs).
    destruct (m s) as [[a|e|] s1]; simpl in *;
      (split; [tauto|]); try discriminate.
    intros a' Ha. inversion Ha; subst. tauto.
Qed.

(** ** Invariants that do not look at the heap *)

Section HeapBlind.
Variable I : Store -> Prop.
Hypothesis I_heap : forall s h, I s -> I (with_heap s h).

Lemma blind_new_TFModule p n nested idx :
  keeps I (new_TFModule p n nested idx) (fun _ => True).
Proof. intros s Hs. simpl. split; [now apply I_heap|auto]. Qed.

Lemma blind_tf_object l : keeps I (tf_object l) (fun _ => True).
Proof. intros s Hs. unfold tf_object. destruct (heap s !! l); simpl; auto. Qed.

Lemma blind_assign_foreach_idx l idx :
  keeps I (assign_foreach_idx l idx) (fun _ => True).
Proof.
  intros s Hs. unfold assign_foreach_idx.
  destruct (heap s !! l); simpl; [split; [now apply I_heap|auto]|auto].
Qed.

Lemma blind_key_of r : keeps I (key_of r) (fun _ => True).
Proof.
  intros s Hs. unfold key_of. destruct (ref_value (heap s) r); simpl; auto.
Qed.

Lemma blind_deepcopy_TFModule r :
  keeps I (deepcopy_TFModule r) (fun _ => True).
Proof.
  intros s Hs. unfold deepcopy_TFModule.
  destruct (copy_ref _ _ _) as [[[? ?] ?]|]; simpl;
    [split; [now apply I_heap|auto]|auto].
Qed.

Lemma blind_deepcopy_block b :
  keeps I (deepcopy_block b)
        (fun b' => exists smo res, b' = set_refs b smo res).
Proof.
  intros s Hs. unfold deepcopy_block.
  destruct (copy_ref _ _ (resolved_module_entry b)) as [[[? ?] ?]|];
    simpl; [|split; [auto|discriminate]].
  destruct (copy_ref _ _ (source_module_object b)) as [[[? ?] ?]|];
    simpl; [|split; [auto|discriminate]].
  split; [now apply I_heap|]. intros ? [= <-]. eauto.
Qed.

Lemma blind_dict_read k : keeps I (dict_read k) (fun _ => True).
Proof. intros s Hs. simpl. auto. Qed.

Lemma blind_dict_contains k : keeps I (dict_contains k) (fun _ => True).
Proof. intros s Hs. simpl. auto. Qed.

Lemma blind_deepcopy_dict : keeps I deepcopy_dict (fun _ => True).
Proof.
  intros s Hs. unfold deepcopy_dict. destruct (dict_copy _ _ _); simpl; auto.
Qed.

Lemma blind_vertex i : keeps I (vertex i) (fun _ => True).
Proof. intros s Hs. unfold vertex. destruct (vertices s !! i); simpl; auto. Qed.

Lemma blind_vertices_len : keeps I vertices_len (fun _ => True).
Proof. intros s Hs. simpl. auto. Qed.

Lemma blind_get_store : keeps I get_store (fun _ => True).
Proof. intros s Hs. simpl. auto. Qed.
Lemma blind_update_nested_walk fuel key orig : forall tf,
  keeps I (_update_nested_walk fuel key orig tf) (fun _ => True).
Proof.
  induction fuel as [|f IH]; intros [l|]; simpl;
    try (now apply keeps_ret); try apply keeps_raise.
  eapply keeps_bind; [apply blind_key_of|]. intros v _.
  eapply keeps_bind; [apply blind_key_of|]. intros w _.
  destruct (Key_eqb v w); [apply blind_assign_foreach_idx|].
  eapply keeps_bind; [apply blind_tf_object|]. intros o _. apply IH.
Qed.

Lemma blind_update_nested_tf_module_foreach_idx key orig tf :
  keeps I (_update_nested_tf_module_foreach_idx key orig tf) (fun _ => True).
Proof.
  unfold _update_nested_tf_module_foreach_idx.
  eapply keeps_bind; [apply blind_assign_foreach_idx|]. intros _ _.
  eapply keeps_bind; [apply blind_get_store|]. intros s _.
  apply blind_update_nested_walk.
Qed.

Lemma blind_update_resolved_entry_for_tf_definition child key orig :
  keeps I (_update_resolved_entry_for_tf_definition child key orig)
        (fun _ => True).
Proof.
  unfold _update_resolved_entry_for_tf_definition.
  destruct (resolved_module_entry child);
    [apply blind_update_nested_tf_module_foreach_idx|now apply keeps_ret].
Qed.

Lemma blind_update_children_foreach_index fuel key orig :
  forall current flag,
    keeps I (_update_children_foreach_index fuel key orig current flag)
          (fun _ => True).
Proof.
  induction fuel as [|f IH]; intros current flag; simpl;
    [apply keeps_out_of_fuel|].
  eapply keeps_bind with (Q := fun _ => True).
  { destruct current; [now apply keeps_ret|apply blind_deepcopy_TFModule]. }
  intros cur _.
  eapply keeps_bind; [apply blind_key_of|]. intros k _.
  eapply keeps_bind; [apply blind_dict_contains|]. intros present _.
  destruct present; simpl; [|now apply keeps_ret].
  eapply keeps_bind; [apply blind_dict_read|]. intros values _.
  apply keeps_for. intros item _. apply keeps_for. intros child_index _.
  eapply keeps_bind; [apply blind_vertex|]. intros child _.
  eapply keeps_bind;
    [apply blind_update_nested_tf_module_foreach_idx|]. intros _ _.
  eapply keeps_bind;
    [apply blind_update_resolved_entry_for_tf_definition|]. intros _ _.
  eapply keeps_bind; [apply blind_deepcopy_TFModule|]. intros copy _.
  eapply keeps_bind with (Q := fun _ => True).
  { destruct flag; [|now apply keeps_ret].
    destruct copy; [apply blind_assign_foreach_idx|apply keeps_raise]. }
  intros _ _.
  eapply keeps_bind; [apply blind_new_TFModule|]. intros ck _. apply IH.
Qed.

Lemma blind_update_module_children fuel main_resource key flag :
  keeps I (_update_module_children fuel main_resource key flag)
        (fun _ => True).
Proof.
  unfold _update_module_children.
  eapply keeps_bind; [apply blind_new_TFModule|]. intros orig _.
  eapply keeps_bind with (Q := fun _ => True).
  { destruct (negb flag); [apply blind_assign_foreach_idx|now apply keeps_ret]. }
  intros _ _. apply blind_update_children_foreach_index.
Qed.

Lemma blind_modules_of_level cl :
  keeps I (modules_of_level cl) (fun _ => True).
Proof.
  unfold modules_of_level.
  apply keeps_fold with (P := fun _ => True); [|exact Logic.I].
  intros acc x _ _.
  eapply keeps_bind; [apply blind_key_of|]. intros k _.
  eapply keeps_bind; [apply blind_dict_read|]. intros m _.
  now apply keeps_ret.
Qed.

Lemma blind_get_modules_to_render cl :
  keeps I (_get_modules_to_render cl) (fun _ => True).
Proof.
  unfold _get_modules_to_render.
  eapply keeps_bind; [apply blind_modules_of_level|]. intros all _.
  destruct all as [|rendered_modules ?]; [apply keeps_raise|].
  eapply keeps_bind.
  - apply keeps_fold with (P := fun _ => True); [|exact Logic.I].
    intros acc x _ _.
    eapply keeps_bind with (Q := fun _ => True).
    + unfold _get_current_tf_module_object.
      eapply keeps_bind; [apply blind_vertex|]. intros b _.
      apply blind_new_TFModule.
    + intros l _. now apply keeps_ret.
  - intros cl' _.
    eapply keeps_bind; [apply blind_modules_of_level|]. intros m _.
    now apply keeps_ret.
Qed.
End HeapBlind.

(** ** Which vertices an expansion may touch *)

(** [b] is [b0] up to the references a copy replaces. *)
Definition same_block (b b0 : TerraformBlock) : Prop :=
  block_type b = block_type b0 /\ path b = path b0 /\ name b = name b0 /\
  config b = config b0 /\ attributes b = attributes b0 /\
  for_each_index b = for_each_index b0.

(** [b] is an instance, or an instance of an instance, of [b0]. *)
Definition descends (b b0 : TerraformBlock) : Prop :=
  block_type b = block_type b0 /\ path b = path b0 /\
  exists suffix, name b = (name b0 ++ suffix)%string.

(** [b] comes from one of the blocks of [v0] at the indices [S]. *)
Definition from_level (S : list nat) (v0 : list TerraformBlock)
    (b : TerraformBlock) : Prop :=
  exists i b0, In i S /\ v0 !! i = Some b0 /\ descends b b0.

(** [b] comes from a block of the level, or is a copy of one of the other
    blocks of [v0], with the name, the attributes and the [for_each_index]
    of that block. *)
Definition from_level_or_copy (S : list nat) (v0 : list TerraformBlock)
    (b : TerraformBlock) : Prop :=
  from_level S v0 b \/
  exists i b0, ~ In i S /\ v0 !! i = Some b0 /\ same_block b b0.

Definition ok_at (S : list nat) (v0 : list TerraformBlock) (j : nat)
    (b : TerraformBlock) : Prop :=
  (j < length v0 -> ~ In j S -> v0 !! j = Some b) /\
  (j < length v0 -> In j S -> from_level S v0 b) /\
  (length v0 <= j -> from_level_or_copy S v0 b).

(** [vframe S v0 s]: the vertex list of [s] is [v0] with instances of the
    blocks of the level [S] in their slots, followed by appended blocks
    that are instances of blocks of the level or copies of other blocks. *)
Definition vframe (S : list nat) (v0 : list TerraformBlock) (s : Store)
  : Prop :=
  length v0 <= length (vertices s) /\
  forall j b, vertices s !! j = Some b -> ok_at S v0 j b.

Lemma string_app_nil_r (x : string) : (x ++ "")%string = x.
Proof. induction x; simpl; congruence. Qed.

Lemma string_app_assoc (x y z : string) :
  ((x ++ y) ++ z)%string = (x ++ y ++ z)%string.
Proof. induction x; simpl; congruence. Qed.

Lemma same_block_refl b : same_block b b.
Proof. now repeat split. Qed.

Lemma descends_refl b : descends b b.
Proof. repeat split. exists "". symmetry. apply string_app_nil_r. Qed.

Lemma same_block_trans a b c : same_block a b -> same_block b c -> same_block a c.
Proof.
  intros (?&?&?&?&?&?) (?&?&?&?&?&?). repeat split; congruence.
Qed.

Lemma descends_same_block a b c : same_block a b -> descends b c -> descends a c.
Proof.
  intros (?&?&Hn&?) (?&?&x&Hx). repeat split; try congruence.
  exists x. congruence.
Qed.

Lemma descends_trans a b c : descends a b -> descends b c -> descends a c.
Proof.
  intros (?&?&x&Hx) (?&?&y&Hy). repeat split; try congruence.
  exists (y ++ x)%string. rewrite Hx, Hy. apply string_app_assoc.
Qed.

Section Frame.
Variable _update_foreach_attrs :
  TerraformBlock -> PyKey -> option PyKey ->
  list (string * Statement) * list (string * Statement) ->
  list (string * Statement) * list (string * Statement).
Variable S : list nat.
Variable v0 : list TerraformBlock.
Local Abbreviation I := (vframe S v0).
Local Abbreviation P := (from_level_or_copy S v0).

Lemma vframe_heap s h : I s -> I (with_heap s h).
Proof. now intros H. Qed.

Lemma vframe_dict s d : I s -> I (with_dict s d).
Proof. now intros H. Qed.

Lemma ok_at_P j b : ok_at S v0 j b -> P b.
Proof.
  intros (H1 & H2 & H3).
  destruct (Nat.lt_ge_cases j (length v0)) as [Hlt|Hge]; [|exact (H3 Hge)].
  destruct (in_dec Nat.eq_dec j S) as [Hin|Hn].
  - left. exact (H2 Hlt Hin).
  - right. exists j, b. split; [exact Hn|]. split; [exact (H1 Hlt Hn)|].
    apply same_block_refl.
Qed.

Lemma P_same_block b b' : same_block b' b -> P b -> P b'.
Proof.
  intros Hs [(i & b0 & Hi & Hv & Hd)|(i & b0 & Hi & Hv & Hd)].
  - left. exists i, b0. split; [exact Hi|]. split; [exact Hv|].
    eapply descends_same_block; eauto.
  - right. exists i, b0. split; [exact Hi|]. split; [exact Hv|].
    eapply same_block_trans; eauto.
Qed.

Lemma vframe_append s b : P b -> I s -> I (with_vertices s (vertices s ++ [b])).
Proof.
  intros Hb [Hl Hj]. split; simpl.
  - rewrite length_app. simpl. lia.
  - intros j b' Hlk.
    apply lookup_app_Some in Hlk as [Hlk|[Hge Hlk]]; [now apply Hj|].
    destruct (j - length (vertices s)) eqn:E; simpl in Hlk; [|discriminate].
    inversion Hlk; subst. repeat split; auto; intros; lia.
Qed.

Lemma vframe_set s i b :
  I s -> (In i S /\ (i < length v0 -> from_level S v0 b) /\ P b)
         \/ (length v0 <= i /\ P b) ->
  I (with_vertices s (<[i := b]> (vertices s))).
Proof.
  intros [Hl Hj] Hi. split; simpl.
  - now rewrite length_insert.
  - intros j b' Hlk. destruct (decide (j = i)) as [->|Hne].
    + rewrite list_lookup_insert_eq in Hlk
        by (apply lookup_lt_Some in Hlk; now rewrite length_insert in Hlk).
      inversion Hlk; subst.
      destruct Hi as [(Hin & Hf & HP)|(Hge & HP)]; repeat split; auto;
        intros; try contradiction; try lia.
    + rewrite list_lookup_insert_ne in Hlk by auto. now apply Hj.
Qed.

Lemma frame_vertex i : keeps I (vertex i) (ok_at S v0 i).
Proof.
  intros s Hs. unfold vertex.
  destruct (vertices s !! i) as [b|] eqn:E; simpl; (split; [exact Hs|]).
  - intros ? [= <-]. destruct Hs as [_ Hj]. now apply Hj.
  - discriminate.
Qed.

Lemma frame_vertices_append b :
  P b -> keeps I (vertices_append b) (fun _ => True).
Proof. intros Hb s Hs. simpl. split; [now apply vframe_append|auto]. Qed.

Lemma frame_vertices_set i b :
  (In i S /\ (i < length v0 -> from_level S v0 b) /\ P b)
  \/ (length v0 <= i /\ P b) ->
  keeps I (vertices_set i b) (fun _ => True).
Proof.
  intros Hi s Hs. unfold vertices_set.
  destruct (decide _); simpl; [split; [now apply vframe_set|auto]|auto].
Qed.

Lemma frame_dict_assign kl v : keeps I (dict_assign kl v) (fun _ => True).
Proof.
  unfold dict_assign.
  eapply keeps_bind; [apply blind_key_of|]. intros k _.
  intros s Hs. simpl. split; [now apply vframe_dict|auto].
Qed.

Lemma frame_dict_append kl t i : keeps I (dict_append kl t i) (fun _ => True).
Proof.
  unfold dict_append.
  eapply keeps_bind; [apply blind_key_of|]. intros k _.
  eapply keeps_bind; [apply blind_dict_read|]. intros m _.
  intros s Hs. simpl. split; [now apply vframe_dict|auto].
Qed.

Lemma frame_deepcopy_block b :
  keeps I (deepcopy_block b) (fun b' => same_block b' b).
Proof.
  eapply keeps_weaken; [apply blind_deepcopy_block, vframe_heap|].
  intros b' (smo & res & ->). now repeat split.
Qed.

Lemma source_module_pop_add_same b i b' :
  source_module_pop_add b i = Some b' -> same_block b' b.
Proof.
  unfold source_module_pop_add. destruct (source_module b); [discriminate|].
  intros [= <-]. now repeat split.
Qed.

(** A block is appended and then completed in place: the index written
    is the one just appended. *)
Lemma frame_append_set_last {B} (nv1 : TerraformBlock)
    (popped : option TerraformBlock)
    (rest : nat -> TerraformBlock -> M B) (Q : B -> Prop) :
  P nv1 -> (forall nv, popped = Some nv -> P nv) ->
  (forall n nv, keeps I (rest n nv) Q) ->
  keeps I (run vertices_append nv1;
           do n <- vertices_len;
           match popped with
           | None => raise KeyError
           | Some nv => run vertices_set (n - 1) nv; rest (n - 1) nv
           end) Q.
Proof.
  intros Hnv1 Hpop Hrest s Hs. unfold bind at 1. simpl. unfold bind at 1. simpl.
  pose proof (vframe_append s nv1 Hnv1 Hs) as H1.
  destruct popped as [nv|]; [|split; [exact H1|discriminate]].
  refine (keeps_bind I _ _ (fun _ => True) Q _ _ _ H1).
  - apply frame_vertices_set. right. destruct Hs as [Hl _].
    rewrite length_app. simpl. split; [lia|auto].
  - intros _ _. apply Hrest.
Qed.

Lemma frame_add_new_vertices_for_module
    (rec : TerraformBlock -> Members -> nat -> M unit) key value idx :
  (forall b v i, keeps I (rec b v i) (fun _ => True)) ->
  keeps I (_add_new_vertices_for_module rec key value idx) (fun _ => True).
Proof.
  intros Hrec. unfold _add_new_vertices_for_module.
  apply keeps_fold with (P := fun _ => True); [|exact Logic.I].
  intros acc [vertex_type vertices_idx] _ _.
  apply keeps_fold with (P := fun _ => True); [|exact Logic.I].
  intros acc' vertex_idx _ _.
  eapply keeps_bind; [apply frame_vertex|]. intros module_vertex Hmv.
  apply ok_at_P in Hmv.
  eapply keeps_bind; [apply frame_deepcopy_block|].
  intros new_vertex0 Hnv0.
  assert (Hnv1 : P (set_source_module_object new_vertex0 (Some key)))
    by (apply (P_same_block module_vertex); [exact Hnv0|exact Hmv]).
  apply (frame_append_set_last _ _
           (fun i nv =>
              if BlockType_eqb vertex_type MODULE
              then do module_vertex_key <-
                      new_TFModule (path module_vertex) (name module_vertex)
                        (source_module_object module_vertex)
                        (for_each_index module_vertex);
                   do k <- key_of (Some module_vertex_key);
                   do module_vertex_value <- dict_read k;
                   run rec nv module_vertex_value i;
                   ret (members_append acc' vertex_type i)
              else ret (members_append acc' vertex_type i))).
  - exact Hnv1.
  - intros nv Hpop. apply source_module_pop_add_same in Hpop.
    now apply (P_same_block _ _ Hpop).
  - intros n nv. destruct (BlockType_eqb vertex_type MODULE);
      [|now apply keeps_ret].
    eapply keeps_bind; [apply blind_new_TFModule, vframe_heap|]. intros mk _.
    eapply keeps_bind; [apply blind_key_of|]. intros k _.
    eapply keeps_bind; [apply blind_dict_read|]. intros mv _.
    eapply keeps_bind; [apply Hrec|]. intros _ _. now apply keeps_ret.
Qed.

Lemma frame_create_new_module_with_vertices fuel :
  forall main_resource value resource_idx key,
    keeps I (_create_new_module_with_vertices fuel main_resource value
                                              resource_idx key)
          (fun _ => True).
Proof.
  induction fuel as [|f IH]; intros main_resource value resource_idx key;
    simpl; [apply keeps_out_of_fuel|].
  eapply keeps_bind with (Q := fun _ => True).
  { destruct key; [now apply keeps_ret|].
    eapply keeps_bind; [apply blind_deepcopy_block, vframe_heap|].
    intros nr _. apply blind_new_TFModule, vframe_heap. }
  intros k _.
  eapply keeps_bind; [apply blind_vertices_len|]. intros n _.
  eapply keeps_bind; [apply blind_vertex|]. intros ov _.
  eapply keeps_bind with (Q := fun _ => True).
  { destruct (source_module_object ov); [|now apply keeps_ret].
    eapply keeps_bind; [apply blind_tf_object|]. intros o _.
    eapply keeps_bind; [apply blind_new_TFModule, vframe_heap|].
    intros k' _. now apply keeps_ret. }
  intros smk _.
  eapply keeps_bind; [apply frame_dict_append|]. intros _ _.
  eapply keeps_bind.
  - apply frame_add_new_vertices_for_module. intros b v i. apply IH.
  - intros nv _. apply frame_dict_assign.
Qed.

(** The clone [_create_new_module] makes of [main_resource]. *)
Lemma clone_descends main_resource b0 ca idx :
  same_block b0 main_resource ->
  descends (_update_block_name_and_id
              (set_for_each_index (set_config_attributes b0 ca) (Some idx))
              idx) main_resource.
Proof.
  intros (Ht & Hp & Hn & _). repeat split; simpl; try assumption.
  rewrite Hn. eexists. reflexivity.
Qed.

Lemma frame_create_new_module fuel main_resource new_value resource_idx
    foreach_idx new_key :
  In resource_idx S -> from_level S v0 main_resource ->
  keeps I (_create_new_module _update_foreach_attrs fuel main_resource
                              new_value resource_idx foreach_idx new_key)
        (fun _ => True).
Proof.
  intros Hin Hmain. unfold _create_new_module.
  eapply keeps_bind; [apply frame_deepcopy_block|]. intros nr0 Hnr0.
  pose proof (clone_descends main_resource nr0
                (_update_foreach_attrs main_resource new_value new_key
                   (config nr0, attributes nr0))
                (py_or new_key new_value) Hnr0) as Hd.
  assert (Hfl : from_level S v0
                  (_update_block_name_and_id
                     (set_for_each_index
                        (set_config_attributes nr0
                           (_update_foreach_attrs main_resource new_value
                              new_key (config nr0, attributes nr0)))
                        (Some (py_or new_key new_value)))
                     (py_or new_key new_value))).
  { destruct Hmain as (i & b0 & Hi & Hv & Hdm). exists i, b0.
    split; [exact Hi|]. split; [exact Hv|]. eapply descends_trans; eauto. }
  eapply keeps_bind; [apply blind_new_TFModule, vframe_heap|]. intros mk _.
  eapply keeps_bind; [apply blind_deepcopy_dict|]. intros cp _.
  eapply keeps_bind; [apply blind_key_of|]. intros k _.
  eapply keeps_bind; [apply blind_new_TFModule, vframe_heap|]. intros nk _.
  eapply keeps_bind;
    [apply blind_update_resolved_entry_for_tf_definition, vframe_heap|].
  intros _ _.
  destruct (negb _).
  - eapply keeps_bind; [apply frame_vertices_append; now left|]. intros _ _.
    apply frame_create_new_module_with_vertices.
  - eapply keeps_bind.
    { apply frame_vertices_set. left. split; [exact Hin|].
      split; [intros _; exact Hfl|now left]. }
    intros _ _.
    eapply keeps_bind; [apply blind_deepcopy_TFModule, vframe_heap|].
    intros [l|] _; [|apply keeps_raise].
    eapply keeps_bind; [apply blind_assign_foreach_idx, vframe_heap|].
    intros _ _. apply frame_dict_assign.
Qed.

Hypothesis S_valid : forall i, In i S -> i < length v0.

Lemma frame_level_vertex i :
  In i S -> keeps I (vertex i) (from_level S v0).
Proof.
  intros Hin. eapply keeps_weaken; [apply frame_vertex|].
  intros b (_ & H2 & _). apply H2; auto.
Qed.

Lemma frame_create_new_resources_count fuel statement block_idx :
  In block_idx S ->
  keeps I (_create_new_resources_count _update_foreach_attrs fuel statement
                                       block_idx) (fun _ => True).
Proof.
  intros Hin. unfold _create_new_resources_count.
  eapply keeps_bind; [now apply frame_level_vertex|]. intros main_resource Hm.
  eapply keeps_bind with (Q := fun _ => True).
  { destruct statement; try apply keeps_raise. now apply keeps_ret. }
  intros r _.
  eapply keeps_bind with (Q := fun _ => True).
  { apply keeps_for. intros i _. now apply frame_create_new_module. }
  intros _ _.
  eapply keeps_bind with (Q := fun _ => True).
  { destruct statement; try apply keeps_raise. now apply keeps_ret. }
  intros r' _. apply keeps_for. intros i _.
  apply blind_update_module_children, vframe_heap.
Qed.

Lemma frame_create_new_resources_foreach fuel statement block_idx :
  In block_idx S ->
  keeps I (_create_new_resources_foreach _update_foreach_attrs fuel statement
                                         block_idx) (fun _ => True).
Proof.
  intros Hin. unfold _create_new_resources_foreach.
  eapply keeps_bind; [apply blind_vertex|]. intros main_resource _.
  eapply keeps_bind with (Q := fun _ => True).
  { unfold super_create_new_resources_foreach.
    eapply keeps_bind; [now apply frame_level_vertex|]. intros mr Hmr.
    destruct statement; try (now apply keeps_ret).
    - apply keeps_for. intros [i v] _.
      now apply frame_create_new_module.
    - apply keeps_for. intros [i [k v]] _.
      now apply frame_create_new_module. }
  intros _ _.
  destruct statement; try (now apply keeps_ret).
  - apply keeps_for. intros [i v] _.
    apply blind_update_module_children, vframe_heap.
  - apply keeps_for. intros [i [k v]] _.
    apply blind_update_module_children, vframe_heap.
Qed.

Variable SubGraph : Type.
Variable _build_and_render_sub_graph : Store -> list nat -> SubGraph.
Variable _handle_static_statement : nat -> SubGraph -> Statement.
Variable _is_static_statement : nat -> SubGraph -> bool.

Lemma frame_render_module fuel sub_graph module_idx :
  In module_idx S ->
  keeps I (render_module _update_foreach_attrs SubGraph
                         _handle_static_statement _is_static_statement
                         fuel sub_graph module_idx) (fun _ => True).
Proof.
  intros Hin. unfold render_module.
  eapply keeps_bind; [apply blind_vertex|]. intros b _.
  destruct (stmt_truthy _).
  - destruct (negb _); [now apply keeps_ret|].
    now apply frame_create_new_resources_foreach.
  - destruct (stmt_truthy _); [|now apply keeps_ret].
    destruct (negb _); [now apply keeps_ret|].
    now apply frame_create_new_resources_count.
Qed.

Lemma frame_render_foreach_modules_by_levels fuel modules_blocks
    modules_to_render current_level :
  (forall i, In i modules_to_render -> In i S) ->
  keeps I (_render_foreach_modules_by_levels _update_foreach_attrs SubGraph
             _build_and_render_sub_graph _handle_static_statement
             _is_static_statement fuel modules_blocks modules_to_render
             current_level) (fun _ => True).
Proof.
  intros Hsub. unfold _render_foreach_modules_by_levels.
  eapply keeps_bind; [apply blind_get_store|]. intros s0 _.
  eapply keeps_bind with (Q := fun _ => True).
  { apply keeps_for. intros i Hi. apply frame_render_module. auto. }
  intros _ _. apply blind_get_modules_to_render, vframe_heap.
Qed.
End Frame.

Lemma vframe_refl S s : vframe S (vertices s) s.
Proof.
  split; [lia|]. intros j b Hb. repeat split.
  - auto.
  - intros _ Hin. exists j, b. split; [exact Hin|]. split; [exact Hb|].
    apply descends_refl.
  - intros Hge. apply lookup_lt_Some in Hb. lia.
Qed.

(** ** A round consults the oracle for its own level only *)

Lemma py_for_ext {A} (l : list A) (f g : A -> M unit) :
  (forall x s, In x l -> f x s = g x s) ->
  forall s, py_for l f s = py_for l g s.
Proof.
  induction l as [|x r IH]; intros H s; simpl; [reflexivity|].
  unfold bind. rewrite (H x s) by now left.
  destruct (g x s) as [[[]|e|] s1]; try reflexivity.
  apply IH. intros y s' Hy. apply H. now right.
Qed.



(** ** The heap of [TFModule] objects *)

(** Objects are allocated after the module they nest: no nesting is
    circular and no reference of an object dangles. *)
Definition heap_wf (h : Heap) : Prop :=
  forall l o n, h !! l = Some o -> o_nested o = Some n -> n < l.

Definition ref_valid (h : Heap) (r : option loc) : Prop :=
  forall l, r = Some l -> l < length h.

Lemma tf_read_mono h : forall fuel fuel' l v,
  tf_read fuel h l = Some v -> fuel <= fuel' -> tf_read fuel' h l = Some v.
Proof.
  induction fuel as [|f IH]; intros fuel' l v H Hle; [discriminate|].
  destruct fuel' as [|f']; [lia|]. simpl in *.
  destruct (h !! l) as [o|]; [|discriminate].
  destruct (o_nested o) as [n|]; [|exact H].
  destruct (tf_read f h n) as [w|] eqn:E; [|discriminate].
  rewrite (IH f' n w E) by lia. exact H.
Qed.

Lemma tf_read_total h : heap_wf h -> forall fuel l,
  l < fuel -> l < length h -> is_Some (tf_read fuel h l).
Proof.
  intros Hwf. induction fuel as [|f IH]; intros l Hf Hl; [lia|]. simpl.
  destruct (lookup_lt_is_Some_2 h l Hl) as [o Ho]. rewrite Ho.
  destruct (o_nested o) as [n|] eqn:En; [|eauto].
  pose proof (Hwf l o n Ho En) as Hn.
  destruct (IH n) as [v Hv]; [lia|lia|]. rewrite Hv. eauto.
Qed.

Lemma tf_value_total h l :
  heap_wf h -> l < length h -> is_Some (tf_value h l).
Proof. intros Hwf Hl. now apply tf_read_total. Qed.

Lemma ref_value_total h r :
  heap_wf h -> ref_valid h r -> is_Some (ref_value h r).
Proof.
  intros Hwf Hr. destruct r as [l|]; simpl; [|eauto].
  destruct (tf_value_total h l Hwf (Hr l eq_refl)) as [v ->]. eauto.
Qed.

(** Two heaps that agree below [b] give the same structure to the objects
    below [b]. *)
Lemma tf_read_agree h h' b : heap_wf h ->
  (forall l, l < b -> h' !! l = h !! l) ->
  forall fuel l, l < b -> tf_read fuel h' l = tf_read fuel h l.
Proof.
  intros Hwf Hag. induction fuel as [|f IH]; intros l Hl; [reflexivity|].
  simpl. rewrite (Hag l Hl).
  destruct (h !! l) as [o|] eqn:Ho; [|reflexivity].
  destruct (o_nested o) as [n|] eqn:En; [|reflexivity].
  rewrite IH; [reflexivity|]. pose proof (Hwf l o n Ho En). lia.
Qed.

Lemma tf_value_agree h h' b l : heap_wf h ->
  (forall l, l < b -> h' !! l = h !! l) ->
  l < b -> l < length h -> length h <= length h' ->
  tf_value h' l = tf_value h l.
Proof.
  intros Hwf Hag Hl Hlen Hle. unfold tf_value.
  rewrite (tf_read_agree h h' b Hwf Hag _ l Hl).
  destruct (tf_value_total h l Hwf Hlen) as [v Hv]. unfold tf_value in Hv.
  rewrite Hv. now apply (tf_read_mono h (length h)).
Qed.

(** Allocation does not change the structure of the objects there are. *)
Lemma tf_value_app h t l :
  heap_wf h -> l < length h -> tf_value (h ++ t) l = tf_value h l.
Proof.
  intros Hwf Hl. apply (tf_value_agree h (h ++ t) (length h)); auto.
  - intros l' Hl'. now apply lookup_app_l.
  - rewrite length_app. lia.
Qed.

Lemma ref_value_app h t r :
  heap_wf h -> ref_valid h r -> ref_value (h ++ t) r = ref_value h r.
Proof.
  intros Hwf Hr. destruct r as [l|]; simpl; [|reflexivity].
  now rewrite tf_value_app by auto.
Qed.

(** An assignment to a field of the object at [l] does not change the
    structure of the objects allocated before it. *)
Lemma tf_value_insert_above h l o l0 :
  heap_wf h -> l0 < l -> l0 < length h ->
  tf_value (<[l := o]> h) l0 = tf_value h l0.
Proof.
  intros Hwf Hlt Hl0. apply (tf_value_agree h _ l); auto.
  - intros l' Hl'. apply list_lookup_insert_ne. lia.
  - now rewrite length_insert.
Qed.

Lemma heap_wf_app h o :
  heap_wf h -> (forall n, o_nested o = Some n -> n < length h) ->
  heap_wf (h ++ [o]).
Proof.
  intros Hwf Ho l o' n Hl Hn.
  apply lookup_app_Some in Hl as [Hl|[Hge Hl]]; [eauto|].
  destruct (l - length h) eqn:E; simpl in Hl; [|discriminate].
  inversion Hl; subst. specialize (Ho n Hn). lia.
Qed.

Lemma heap_wf_insert h l o o' :
  heap_wf h -> h !! l = Some o -> o_nested o' = o_nested o ->
  heap_wf (<[l := o']> h).
Proof.
  intros Hwf Hl Hn l1 o1 n H1 Hn1.
  destruct (decide (l1 = l)) as [->|Hne].
  - rewrite list_lookup_insert_eq in H1 by (now apply lookup_lt_Some in Hl).
    inversion H1; subst. rewrite Hn in Hn1. eauto.
  - rewrite list_lookup_insert_ne in H1 by auto. eauto.
Qed.

Lemma ref_valid_mono h h' r :
  ref_valid h r -> length h <= length h' -> ref_valid h' r.
Proof. intros H Hle l Hl. specialize (H l Hl). lia. Qed.

(** The structure of an object, one level at a time. *)
Lemma tf_value_unfold h l o :
  heap_wf h -> h !! l = Some o ->
  tf_value h l =
  match o_nested o with
  | None => Some (TFM (o_path o) (o_name o) None (o_foreach_idx o))
  | Some n =>
    match tf_value h n with
    | Some v => Some (TFM (o_path o) (o_name o) (Some v) (o_foreach_idx o))
    | None => None
    end
  end.
Proof.
  intros Hwf Ho. pose proof (lookup_lt_Some _ _ _ Ho) as Hl.
  unfold tf_value at 1. destruct (length h) as [|k] eqn:Ek; [lia|].
  cbn [tf_read]. rewrite Ho.
  destruct (o_nested o) as [n|] eqn:En; [|reflexivity].
  pose proof (Hwf l o n Ho En) as Hn.
  destruct (tf_read_total h Hwf k n) as [v Hv]; [lia|lia|].
  rewrite Hv.
  assert (Hvn : tf_value h n = Some v)
    by (unfold tf_value; apply (tf_read_mono h k); [exact Hv|lia]).
  now rewrite Hvn.
Qed.

Definition memo_ok (memo : list (loc * loc)) (h : Heap) : Prop :=
  forall a a', In (a, a') memo ->
    a < length h /\ a' < length h /\ tf_value h a' = tf_value h a.

Lemma memo_ok_app memo h t :
  heap_wf h -> memo_ok memo h -> memo_ok memo (h ++ t).
Proof.
  intros Hwf Hm a a' Hin. destruct (Hm a a' Hin) as (Ha & Ha' & Hv).
  rewrite length_app. repeat split; try lia.
  now rewrite !tf_value_app by auto.
Qed.

Lemma copy_chain_prefix : forall fuel memo h l memo' h' l',
  copy_chain fuel memo h l = Some (memo', h', l') -> h `prefix_of` h'.
Proof.
  induction fuel as [|f IH]; intros memo h l memo' h' l' H; [discriminate|].
  simpl in H.
  destruct (list_find _ memo) as [[? [? ?]]|].
  { inversion H; subst. reflexivity. }
  destruct (h !! l) as [o|]; [|discriminate].
  destruct (o_nested o) as [n|].
  - destruct (copy_chain f memo h n) as [[[m1 h1] n']|] eqn:E; [|discriminate].
    inversion H; subst. apply IH in E. etrans; [exact E|].
    now apply prefix_app_r.
  - inversion H; subst. now apply prefix_app_r.
Qed.

(** On a well-formed heap the copy succeeds, and the copy has the structure
    of the original. *)
Lemma copy_chain_ok : forall fuel memo h l,
  heap_wf h -> memo_ok memo h -> l < length h -> l < fuel ->
  exists memo' h' l',
    copy_chain fuel memo h l = Some (memo', h', l') /\
    h `prefix_of` h' /\ heap_wf h' /\ memo_ok memo' h' /\
    l' < length h' /\ tf_value h' l' = tf_value h l.
Proof.
  induction fuel as [|f IH]; intros memo h l Hwf Hm Hl Hf; [lia|].
  simpl. destruct (list_find _ memo) as [[i [a l']]|] eqn:Ef.
  { apply list_find_Some in Ef as (Hi & Ha & _). simpl in Ha.
    apply Is_true_true, Nat.eqb_eq in Ha. subst a.
    apply list_elem_of_lookup_2, list_elem_of_In in Hi.
    destruct (Hm l l' Hi) as (_ & Hl' & Hv).
    exists memo, h, l'. split_and!; auto. }
  destruct (lookup_lt_is_Some_2 h l Hl) as [o Ho]. rewrite Ho.
  pose proof (tf_value_unfold h l o Hwf Ho) as Hu.
  destruct (o_nested o) as [n|] eqn:En.
  - pose proof (Hwf l o n Ho En) as Hn.
    destruct (IH memo h n Hwf Hm) as (m1 & h1 & n' & -> & Hp & Hwf1 & Hm1
                                      & Hn' & Hv1); [lia|lia|].
    set (o' := mkTFObject (o_path o) (o_name o) (Some n') (o_foreach_idx o)).
    assert (Hwf' : heap_wf (h1 ++ [o'])).
    { apply heap_wf_app; [exact Hwf1|]. intros ? [= <-]. exact Hn'. }
    assert (Hlen : length h <= length h1) by now apply prefix_length.
    assert (Hv' : tf_value (h1 ++ [o']) (length h1) = tf_value h l).
    { rewrite (tf_value_unfold _ _ o' Hwf')
        by (now apply list_lookup_middle).
      simpl. rewrite tf_value_app by auto. rewrite Hv1. now rewrite Hu. }
    exists ((l, length h1) :: m1), (h1 ++ [o']), (length h1).
    split_and!; auto.
    + etrans; [exact Hp|]. now apply prefix_app_r.
    + intros a a' [Heq|Hin].
      * inversion Heq; subst. rewrite length_app. simpl.
        split_and!; try lia. rewrite Hv'.
        destruct Hp as [t ->]. rewrite <- app_assoc.
        now rewrite tf_value_app by auto.
      * exact (memo_ok_app m1 h1 [o'] Hwf1 Hm1 a a' Hin).
    + rewrite length_app. simpl. lia.
  - assert (Hwf' : heap_wf (h ++ [o]))
      by (apply heap_wf_app; [exact Hwf|]; intros n Hn; congruence).
    assert (Hv' : tf_value (h ++ [o]) (length h) = tf_value h l).
    { rewrite (tf_value_unfold _ _ o Hwf') by (now apply list_lookup_middle).
      rewrite En. now rewrite Hu. }
    exists ((l, length h) :: memo), (h ++ [o]), (length h).
    split_and!; auto.
    + now apply prefix_app_r.
    + intros a a' [Heq|Hin].
      * inversion Heq; subst. rewrite length_app. simpl.
        split_and!; try lia. rewrite Hv'. now rewrite tf_value_app by auto.
      * exact (memo_ok_app memo h [o] Hwf Hm a a' Hin).
    + rewrite length_app. simpl. lia.
Qed.

Lemma copy_ref_ok memo h r :
  heap_wf h -> memo_ok memo h -> ref_valid h r ->
  exists memo' h' r',
    copy_ref memo h r = Some (memo', h', r') /\
    h `prefix_of` h' /\ heap_wf h' /\ memo_ok memo' h' /\
    ref_valid h' r' /\ ref_value h' r' = ref_value h r /\
    (r = None <-> r' = None).
Proof.
  intros Hwf Hm Hr. destruct r as [l|]; simpl.
  - destruct (copy_chain_ok (length h) memo h l Hwf Hm)
      as (m' & h' & l' & -> & Hp & Hwf' & Hm' & Hl' & Hv);
      [now apply Hr|now apply Hr|].
    exists m', h', (Some l').
    split_and!; auto; try (split; discriminate);
      try (intros ? [= <-]; exact Hl'); try (simpl; now rewrite Hv).
  - exists memo, h, None. split_and!; auto; try tauto; try (intros ? [=]).
Qed.

(** ** Lookups *)

Lemma PyKey_eqb_refl k : PyKey_eqb k k = true.
Proof. now apply PyKey_eqb_eq. Qed.

Lemma TFModule_eqb_refl : forall m, TFModule_eqb m m = true.
Proof.
  fix IH 1. intros [p n [x|] [i|]]; simpl;
    rewrite !String.eqb_refl; simpl;
    rewrite ?IH, ?PyKey_eqb_refl; reflexivity.
Qed.

Lemma Key_eqb_refl (k : Key) : Key_eqb k k = true.
Proof. destruct k; simpl; [apply TFModule_eqb_refl|reflexivity]. Qed.

(** A key that has just been assigned is found, with the value assigned. *)
Lemma dict_get_set h d kl k v :
  ref_value h kl = Some k -> dict_get h (dict_set h d kl k v) k = Some v.
Proof.
  intros Hk. unfold dict_get. induction d as [|e d IH]; simpl.
  - unfold entry_matches. simpl. rewrite Hk, Key_eqb_refl. reflexivity.
  - destruct (entry_matches h k e) eqn:E; simpl.
    + unfold entry_matches in *. simpl. rewrite E. reflexivity.
    + rewrite E. exact IH.
Qed.

Definition dict_keys_valid (h : Heap) (d : Dict) : Prop :=
  forall e, In e d -> ref_valid h (e_key e).

Lemma dict_copy_app h t d : heap_wf h -> dict_keys_valid h d ->
  forall acc, dict_copy (h ++ t) d acc = dict_copy h d acc.
Proof.
  intros Hwf. induction d as [|e d IH]; intros Hd acc; simpl; [reflexivity|].
  rewrite ref_value_app by (auto; apply Hd; now left).
  destruct (ref_value h (e_key e)); [|reflexivity].
  apply IH. intros e' He'. apply Hd. now right.
Qed.

Lemma dict_copy_total h d : heap_wf h -> dict_keys_valid h d ->
  forall acc, is_Some (dict_copy h d acc).
Proof.
  intros Hwf. induction d as [|e d IH]; intros Hd acc; simpl; [eauto|].
  destruct (ref_value_total h (e_key e) Hwf) as [k ->]; [apply Hd; now left|].
  apply IH. intros e' He'. apply Hd. now right.
Qed.

(** ** The steps of [_create_new_module] on a well-formed store *)

Definition block_ok (h : Heap) (b : TerraformBlock) : Prop :=
  ref_valid h (source_module_object b) /\
  ref_valid h (resolved_module_entry b).

Lemma deepcopy_block_ok b s :
  heap_wf (heap s) -> block_ok (heap s) b ->
  exists smo res h',
    deepcopy_block b s = (Ok (set_refs b smo res), with_heap s h') /\
    heap s `prefix_of` h' /\ heap_wf h' /\
    ref_valid h' smo /\ ref_valid h' res /\
    ref_value h' smo = ref_value (heap s) (source_module_object b).
Proof.
  intros Hwf [Hsmo Hres]. unfold deepcopy_block.
  destruct (copy_ref_ok [] (heap s) (resolved_module_entry b) Hwf)
    as (m1 & h1 & res & -> & Hp1 & Hwf1 & Hm1 & Hres1 & _);
    [intros ? ? []|exact Hres|].
  assert (Hlen : length (heap s) <= length h1) by now apply prefix_length.
  destruct (copy_ref_ok m1 h1 (source_module_object b) Hwf1 Hm1)
    as (m2 & h2 & smo & -> & Hp2 & Hwf2 & Hm2 & Hsmo2 & Hv & _);
    [now apply (ref_valid_mono (heap s))|].
  exists smo, res, h2. split_and!; auto.
  - etrans; [exact Hp1|exact Hp2].
  - apply (ref_valid_mono h1); [exact Hres1|now apply prefix_length].
  - rewrite Hv. destruct Hp1 as [t ->]. now apply ref_value_app.
Qed.

(** [h'] is [h] up to the [foreach_idx] of its objects. *)
Definition heap_shape (h h' : Heap) : Prop :=
  length h' = length h /\
  forall l o, h !! l = Some o ->
    exists o', h' !! l = Some o' /\ o_path o' = o_path o /\
               o_name o' = o_name o /\ o_nested o' = o_nested o.

Lemma heap_shape_refl h : heap_shape h h.
Proof. split; [reflexivity|]. intros l o Ho. exists o. auto. Qed.

Lemma heap_shape_trans h1 h2 h3 :
  heap_shape h1 h2 -> heap_shape h2 h3 -> heap_shape h1 h3.
Proof.
  intros [L1 S1] [L2 S2]. split; [congruence|]. intros l o Ho.
  destruct (S1 l o Ho) as (o' & Ho' & ? & ? & ?).
  destruct (S2 l o' Ho') as (o'' & Ho'' & ? & ? & ?).
  exists o''. split_and!; congruence.
Qed.

Lemma heap_shape_wf h h' : heap_shape h h' -> heap_wf h -> heap_wf h'.
Proof.
  intros [L Sh] Hwf l o' n Ho' Hn.
  destruct (lookup_lt_is_Some_2 h l) as [o Ho];
    [apply lookup_lt_Some in Ho'; lia|].
  destruct (Sh l o Ho) as (o'' & Ho'' & _ & _ & Hnest).
  rewrite Ho' in Ho''. inversion Ho''; subst o''.
  apply (Hwf l o n Ho). congruence.
Qed.

Lemma assign_foreach_idx_ok l idx s :
  l < length (heap s) ->
  exists o,
    heap s !! l = Some o /\
    assign_foreach_idx l idx s
    = (Ok tt, with_heap s (<[l := mkTFObject (o_path o) (o_name o)
                                             (o_nested o) idx]> (heap s))) /\
    heap_shape (heap s)
      (<[l := mkTFObject (o_path o) (o_name o) (o_nested o) idx]> (heap s)).
Proof.
  intros Hl. destruct (lookup_lt_is_Some_2 _ _ Hl) as [o Ho].
  exists o. unfold assign_foreach_idx. rewrite Ho. split_and!; auto.
  split.
  - now rewrite length_insert.
  - intros l0 o0 H0. destruct (decide (l0 = l)) as [->|Hne].
    + rewrite list_lookup_insert_eq by exact Hl.
      eexists. split; [reflexivity|]. simpl.
      rewrite Ho in H0. inversion H0; subst. auto.
    + rewrite list_lookup_insert_ne by auto. exists o0. auto.
Qed.

Lemma key_of_ok r s :
  heap_wf (heap s) -> ref_valid (heap s) r ->
  exists k, ref_value (heap s) r = Some k /\ key_of r s = (Ok k, s).
Proof.
  intros Hwf Hr. destruct (ref_value_total _ _ Hwf Hr) as [k Hk].
  exists k. unfold key_of. now rewrite Hk.
Qed.

(** The search for the pre-duplication identity ends, and changes at most
    the [foreach_idx] of one object on the way. *)
Lemma update_nested_walk_ok key orig : forall fuel tf s,
  heap_wf (heap s) -> orig < length (heap s) ->
  (forall l, tf = Some l -> l < length (heap s) /\ l < fuel) ->
  exists s',
    _update_nested_walk fuel key orig tf s = (Ok tt, s') /\
    vertices s' = vertices s /\
    vertices_by_module_dependency s' = vertices_by_module_dependency s /\
    heap_shape (heap s) (heap s') /\
    (forall l0, (forall l, tf = Some l -> l < l0) ->
                heap s' !! l0 = heap s !! l0).
Proof.
  induction fuel as [|f IH]; intros tf s Hwf Ho Htf.
  - destruct tf as [l|]; [destruct (Htf l eq_refl); lia|].
    exists s. simpl. split_and!; auto using heap_shape_refl.
  - destruct tf as [l|];
      [|exists s; simpl; split_and!; auto using heap_shape_refl].
    destruct (Htf l eq_refl) as [Hl Hf]. simpl.
    destruct (key_of_ok (Some l) s Hwf) as (v & _ & Hv);
      [intros ? [= <-]; exact Hl|].
    rewrite (bind_ok _ _ _ _ _ Hv).
    destruct (key_of_ok (Some orig) s Hwf) as (w & _ & Hw);
      [intros ? [= <-]; exact Ho|].
    rewrite (bind_ok _ _ _ _ _ Hw).
    destruct (Key_eqb v w).
    + destruct (assign_foreach_idx_ok l (Some key) s Hl) as (o & Hlo & -> & Hs).
      eexists. split; [reflexivity|]. simpl. split_and!; auto.
      intros l0 Hl0. apply list_lookup_insert_ne.
      specialize (Hl0 l eq_refl). lia.
    + destruct (lookup_lt_is_Some_2 _ _ Hl) as [o Hlo].
      rewrite (bind_ok _ _ s o s) by (unfold tf_object; now rewrite Hlo).
      destruct (IH (o_nested o) s Hwf Ho) as (s' & Hrun & Hv' & Hd' & Hs & Hu).
      { intros n Hn. pose proof (Hwf l o n Hlo Hn). lia. }
      exists s'. split_and!; auto.
      intros l0 Hl0. apply Hu. intros n Hn.
      pose proof (Hwf l o n Hlo Hn). specialize (Hl0 l eq_refl). lia.
Qed.

Lemma update_nested_tf_module_foreach_idx_ok key orig tf s :
  heap_wf (heap s) -> orig < length (heap s) -> ref_valid (heap s) tf ->
  exists s' o,
    _update_nested_tf_module_foreach_idx key orig tf s = (Ok tt, s') /\
    vertices s' = vertices s /\
    vertices_by_module_dependency s' = vertices_by_module_dependency s /\
    heap_shape (heap s) (heap s') /\
    heap s !! orig = Some o /\
    (forall l0, l0 <> orig -> (forall l, tf = Some l -> l < l0) ->
                heap s' !! l0 = heap s !! l0) /\
    ((forall l, tf = Some l -> l < orig) ->
     heap s' !! orig
     = Some (mkTFObject (o_path o) (o_name o) (o_nested o) None)).
Proof.
  intros Hwf Ho Htf. unfold _update_nested_tf_module_foreach_idx.
  destruct (assign_foreach_idx_ok orig None s Ho) as (o & Hoo & Ha & Hs).
  rewrite (bind_ok _ _ _ _ _ Ha). unfold bind at 1. simpl.
  set (h1 := <[orig := _]> (heap s)) in *.
  destruct (update_nested_walk_ok key orig (length h1) tf (with_heap s h1))
    as (s' & Hrun & Hv & Hd & Hs' & Hu); simpl.
  - eapply heap_shape_wf; eauto.
  - unfold h1. now rewrite length_insert.
  - intros l Hl. specialize (Htf l Hl). unfold h1.
    rewrite length_insert. lia.
  - exists s', o. split_and!; auto.
    + eapply heap_shape_trans; eauto.
    + intros l0 Hne Hl0. rewrite (Hu l0 Hl0). simpl. unfold h1.
      now apply list_lookup_insert_ne.
    + intros Hl0. rewrite (Hu orig Hl0). simpl. unfold h1.
      now apply list_lookup_insert_eq.
Qed.

Lemma tf_value_obj h l o X :
  heap_wf h -> h !! l = Some o -> ref_value h (o_nested o) = Some X ->
  tf_value h l = Some (TFM (o_path o) (o_name o) X (o_foreach_idx o)).
Proof.
  intros Hwf Ho HX. rewrite (tf_value_unfold h l o Hwf Ho).
  destruct (o_nested o) as [n|]; simpl in HX.
  - destruct (tf_value h n); inversion HX; subst. reflexivity.
  - inversion HX; subst. reflexivity.
Qed.

Lemma tf_value_obj_inv h l o p n X i :
  heap_wf h -> h !! l = Some o -> tf_value h l = Some (TFM p n X i) ->
  o_path o = p /\ o_name o = n /\ o_foreach_idx o = i /\
  ref_value h (o_nested o) = Some X.
Proof.
  intros Hwf Ho Hv. rewrite (tf_value_unfold h l o Hwf Ho) in Hv.
  destruct (o_nested o) as [m|]; simpl.
  - destruct (tf_value h m); inversion Hv; subst. auto.
  - inversion Hv; subst. auto.
Qed.

Lemma ref_value_insert_above h l o r :
  heap_wf h -> (forall l0, r = Some l0 -> l0 < l /\ l0 < length h) ->
  ref_value (<[l := o]> h) r = ref_value h r.
Proof.
  intros Hwf Hr. destruct r as [l0|]; simpl; [|reflexivity].
  destruct (Hr l0 eq_refl). now rewrite tf_value_insert_above.
Qed.

(** Heaps of the same shape that agree from [b] on... and a reference
    valid in a prefix keeps its structure when the heap grows. *)
Lemma ref_value_prefix h h' r :
  heap_wf h -> ref_valid h r -> h `prefix_of` h' ->
  ref_value h' r = ref_value h r.
Proof. intros Hwf Hr [t ->]. now apply ref_value_app. Qed.

Lemma new_TFModule_value h p n nested idx X :
  heap_wf h -> ref_valid h nested -> ref_value h nested = Some X ->
  heap_wf (h ++ [mkTFObject p n nested idx]) /\
  tf_value (h ++ [mkTFObject p n nested idx]) (length h)
  = Some (TFM p n X idx).
Proof.
  intros Hwf Hn HX.
  assert (Hwf' : heap_wf (h ++ [mkTFObject p n nested idx]))
    by (apply heap_wf_app; [exact Hwf|]; intros m Hm; now apply Hn).
  split; [exact Hwf'|].
  apply (tf_value_obj _ _ (mkTFObject p n nested idx) X Hwf').
  - now apply list_lookup_middle.
  - simpl. now rewrite ref_value_app.
Qed.

(** The clone [_create_new_module] makes, given the references of the
    copy. *)
Definition clone_of
    (render : TerraformBlock -> PyKey -> option PyKey ->
              list (string * Statement) * list (string * Statement) ->
              list (string * Statement) * list (string * Statement))
    (main_resource : TerraformBlock) (new_value : PyKey)
    (new_key : option PyKey) (smo res : option loc) : TerraformBlock :=
  _update_block_name_and_id
    (set_for_each_index
       (set_config_attributes (set_refs main_resource smo res)
          (render main_resource new_value new_key
                  (config main_resource, attributes main_resource)))
       (Some (py_or new_key new_value)))
    (py_or new_key new_value).

(** [_create_new_module] up to the point where it chooses between
    overwriting and appending. *)
Lemma create_new_module_prelude
    (render : TerraformBlock -> PyKey -> option PyKey ->
              list (string * Statement) * list (string * Statement) ->
              list (string * Statement) * list (string * Statement))
    fuel main_resource new_value resource_idx foreach_idx new_key s :
  heap_wf (heap s) -> block_ok (heap s) main_resource ->
  dict_keys_valid (heap s) (vertices_by_module_dependency s) ->
  exists smo res mk s4 smo_v cp,
    let idx := py_or new_key new_value in
    let new_resource := clone_of render main_resource new_value new_key
                                 smo res in
    let value :=
      default [] (assoc_get cp (Some (TFM (path main_resource)
                                          (name main_resource) smo_v None))) in
    _create_new_module render fuel main_resource new_value resource_idx
                       foreach_idx new_key s
    = (if negb (Nat.eqb foreach_idx 0)
       then run vertices_append new_resource;
            _create_new_module_with_vertices fuel main_resource value
              resource_idx (Some (S mk))
       else run vertices_set resource_idx new_resource;
            do key_with_foreach_index <- deepcopy_TFModule (Some mk);
            match key_with_foreach_index with
            | Some l => run assign_foreach_idx l (Some idx);
                        dict_assign (Some l) value
            | None => raise AttributeError
            end) s4 /\
    ref_value (heap s) (source_module_object main_resource) = Some smo_v /\
    dict_copy (heap s) (vertices_by_module_dependency s) [] = Some cp /\
    vertices s4 = vertices s /\
    vertices_by_module_dependency s4 = vertices_by_module_dependency s /\
    heap_wf (heap s4) /\ length (heap s4) = S (S mk) /\
    length (heap s) <= mk /\
    (forall l, smo = Some l -> l < mk) /\
    heap s4 !! mk = Some (mkTFObject (path main_resource)
                                     (name main_resource) smo None) /\
    heap s4 !! S mk = Some (mkTFObject (path main_resource)
                                       (name main_resource) smo
                                       (Some (py_or new_key new_value))).
Proof.
  intros Hwf Hblock Hkeys.
  destruct (deepcopy_block_ok main_resource s Hwf Hblock)
    as (smo & res & h1 & Hcopy & Hp1 & Hwf1 & Hsmo & Hres & Hsv).
  destruct (ref_value_total _ _ Hwf (proj1 Hblock)) as [smo_v Hsmo_v].
  destruct (dict_copy_total _ _ Hwf Hkeys []) as [cp Hcp].
  set (idx := py_or new_key new_value).
  set (omk := mkTFObject (path main_resource) (name main_resource) smo None).
  set (onk := mkTFObject (path main_resource) (name main_resource) smo
                         (Some idx)).
  set (h2 := h1 ++ [omk]). set (h3 := h2 ++ [onk]).
  destruct (new_TFModule_value h1 (path main_resource) (name main_resource)
              smo None smo_v Hwf1 Hsmo) as [Hwf2 Hmkv];
    [now rewrite Hsv|]. fold omk in Hwf2, Hmkv. fold h2 in Hwf2, Hmkv.
  assert (Hwf3 : heap_wf h3).
  { apply heap_wf_app; [exact Hwf2|]. simpl. intros n Hn.
    specialize (Hsmo n Hn). unfold h2. rewrite length_app. simpl. lia. }
  assert (Hlen1 : length (heap s) <= length h1) by now apply prefix_length.
  assert (Hlen3 : length h3 = S (S (length h1))).
  { unfold h3, h2. rewrite !length_app. simpl. lia. }
  assert (Hcp2 : dict_copy h2 (vertices_by_module_dependency s) [] = Some cp).
  { destruct Hp1 as [t Ht]. unfold h2. rewrite Ht, <- app_assoc.
    now rewrite dict_copy_app. }
  (* the resolved entry of the clone *)
  set (s3 := with_heap s h3).
  assert (Hupd : exists s4,
    _update_resolved_entry_for_tf_definition
      (clone_of render main_resource new_value new_key smo res) idx
      (length h1) s3 = (Ok tt, s4) /\
    vertices s4 = vertices s /\
    vertices_by_module_dependency s4 = vertices_by_module_dependency s /\
    heap_shape h3 (heap s4) /\
    heap s4 !! length h1 = Some omk /\
    heap s4 !! S (length h1) = Some onk).
  { assert (Hmk3 : h3 !! length h1 = Some omk).
    { unfold h3, h2. rewrite <- app_assoc. now apply list_lookup_middle. }
    assert (Hnk3 : h3 !! S (length h1) = Some onk).
    { unfold h3. apply list_lookup_middle. unfold h2.
      rewrite length_app. simpl. lia. }
    unfold _update_resolved_entry_for_tf_definition. simpl.
    destruct res as [l|].
    - destruct (update_nested_tf_module_foreach_idx_ok idx (length h1)
                  (Some l) s3) as (s4 & o & Hrun & Hv & Hd & Hs & Ho & Hu & Hori);
        simpl; [exact Hwf3|lia| |].
      { intros ? [= <-]. specialize (Hres l eq_refl). lia. }
      simpl in Ho. rewrite Hmk3 in Ho. inversion Ho; subst o.
      exists s4. split; [exact Hrun|]. split; [exact Hv|].
      split; [exact Hd|]. split; [exact Hs|]. split.
      + apply Hori. intros ? [= <-]. now apply Hres.
      + rewrite Hu; [exact Hnk3|lia|].
        intros ? [= <-]. specialize (Hres l eq_refl). lia.
    - exists s3. split_and!; auto using heap_shape_refl. }
  destruct Hupd as (s4 & Hrun4 & Hv4 & Hd4 & Hs4 & Hmk4 & Hnk4).
  exists smo, res, (length h1), s4, smo_v, cp. cbn zeta.
  split_and!; auto.
  - unfold _create_new_module.
    rewrite (bind_ok _ _ _ _ _ Hcopy). simpl.
    unfold bind at 1. simpl. unfold bind at 1. unfold deepcopy_dict at 1.
    simpl. fold omk. fold h2. rewrite Hcp2.
    unfold bind at 1. unfold key_of at 1. simpl.
    rewrite Hmkv. unfold bind at 1. simpl. fold idx. fold onk. fold h3.
    unfold clone_of in Hrun4. fold idx in Hrun4.
    unfold bind at 1.
    change (with_heap (with_heap (with_heap s h1) h2) h3) with s3.
    rewrite Hrun4.
    replace (length h2) with (S (length h1))
      by (unfold h2; rewrite length_app; simpl; lia).
    reflexivity.
  - eapply heap_shape_wf; eauto.
  - destruct Hs4 as [-> _]. exact Hlen3.
Qed.

Lemma copy_chain_nil_fresh fuel h l m h' l' :
  copy_chain fuel [] h l = Some (m, h', l') -> length h <= l'.
Proof.
  destruct fuel as [|f]; [discriminate|]. simpl.
  destruct (h !! l) as [o|]; [|discriminate].
  destruct (o_nested o) as [n|].
  - destruct (copy_chain f [] h n) as [[[m1 h1] n']|] eqn:E; [|discriminate].
    intros [= <- <- <-]. apply copy_chain_prefix in E.
    now apply prefix_length.
  - intros [= <- <- <-]. lia.
Qed.

(** The first instance: the clone is written over the original vertex and
    the membership of the module is entered under the key of the
    instance. *)
Lemma create_new_module_override
    (render : TerraformBlock -> PyKey -> option PyKey ->
              list (string * Statement) * list (string * Statement) ->
              list (string * Statement) * list (string * Statement))
    fuel main_resource new_value resource_idx new_key s :
  heap_wf (heap s) -> block_ok (heap s) main_resource ->
  dict_keys_valid (heap s) (vertices_by_module_dependency s) ->
  resource_idx < length (vertices s) ->
  exists smo res s' nested smo_v cp,
    _create_new_module render fuel main_resource new_value resource_idx 0
                       new_key s = (Ok tt, s') /\
    vertices s'
    = <[resource_idx := clone_of render main_resource new_value new_key
                                 smo res]> (vertices s) /\
    ref_value (heap s') smo = Some nested /\
    ref_value (heap s) (source_module_object main_resource) = Some smo_v /\
    dict_copy (heap s) (vertices_by_module_dependency s) [] = Some cp /\
    dict_get (heap s') (vertices_by_module_dependency s')
             (Some (TFM (path main_resource) (name main_resource) nested
                        (Some (py_or new_key new_value))))
    = Some (default []
              (assoc_get cp (Some (TFM (path main_resource)
                                       (name main_resource) smo_v None)))).
Proof.
  intros Hwf Hblock Hkeys Hidx.
  destruct (create_new_module_prelude render fuel main_resource new_value
              resource_idx 0 new_key s Hwf Hblock Hkeys)
    as (smo & res & mk & s4 & smo_v & cp & Heq & Hsv & Hcp & Hv4 & Hd4 & Hwf4
        & Hlen4 & Hlen0 & Hsmo & Hmk4 & Hnk4).
  cbn zeta in Heq. simpl in Heq.
  set (idx := py_or new_key new_value) in *.
  set (value := default [] _) in *.
  set (new_resource := clone_of _ _ _ _ _ _) in *.
  assert (Hsmo4 : ref_valid (heap s4) smo).
  { intros l Hl. specialize (Hsmo l Hl). lia. }
  destruct (ref_value_total _ _ Hwf4 Hsmo4) as [X HX].
  pose proof (tf_value_obj _ _ _ X Hwf4 Hmk4 HX) as Hmkv. simpl in Hmkv.
  (* the copy of the key *)
  destruct (copy_ref_ok [] (heap s4) (Some mk) Hwf4)
    as (m5 & h5 & r5 & Hc5 & Hp5 & Hwf5 & _ & Hr5 & Hv5 & Hnone);
    [intros ? ? []|intros ? [= <-]; lia|].
  destruct r5 as [l'|]; [|destruct Hnone as [_ Hn]; discriminate (Hn eq_refl)].
  assert (Hfresh : length (heap s4) <= l').
  { simpl in Hc5.
    destruct (copy_chain _ _ _ _) as [[[? ?] ?]|] eqn:E; [|discriminate].
    inversion Hc5; subst. eapply copy_chain_nil_fresh; eauto. }
  pose proof (Hr5 l' eq_refl) as Hl'.
  simpl in Hv5. rewrite Hmkv in Hv5.
  destruct (tf_value h5 l') as [kv0|] eqn:Ekv0; [|discriminate].
  inversion Hv5; subst kv0; clear Hv5.
  destruct (lookup_lt_is_Some_2 _ _ Hl') as [o' Ho'].
  destruct (tf_value_obj_inv _ _ _ _ _ _ _ Hwf5 Ho' Ekv0)
    as (Hp' & Hn' & _ & HX').
  set (o6 := mkTFObject (o_path o') (o_name o') (o_nested o') (Some idx)).
  set (h6 := <[l' := o6]> h5).
  assert (Hwf6 : heap_wf h6)
    by (apply (heap_wf_insert h5 l' o'); auto).
  assert (Hkv : tf_value h6 l'
                = Some (TFM (path main_resource) (name main_resource) X
                            (Some idx))).
  { rewrite <- Hp', <- Hn'.
    apply (tf_value_obj h6 l' o6 X Hwf6).
    - unfold h6. now apply list_lookup_insert_eq.
    - simpl. unfold h6. rewrite ref_value_insert_above; auto.
      intros n Hn. pose proof (Hwf5 l' o' n Ho' Hn). lia. }
  assert (HX6 : ref_value h6 smo = Some X).
  { unfold h6. rewrite ref_value_insert_above; auto.
    - now rewrite (ref_value_prefix (heap s4) h5).
    - intros l Hl. specialize (Hsmo l Hl). lia. }
  exists smo, res.
  eexists. exists X, smo_v, cp.
  split.
  - rewrite Heq. unfold bind at 1, vertices_set at 1.
    rewrite Hv4. destruct (decide (resource_idx < length (vertices s)));
      [|lia].
    unfold bind at 1, deepcopy_TFModule at 1. cbn [heap with_vertices].
    rewrite Hc5. unfold bind at 1, assign_foreach_idx at 1.
    cbn [heap with_heap]. rewrite Ho'. fold o6. fold h6.
    unfold dict_assign, bind, key_of. cbn [heap]. simpl ref_value.
    rewrite Hkv. reflexivity.
  - cbn [vertices heap vertices_by_module_dependency with_dict].
    split; [reflexivity|]. split; [exact HX6|].
    split; [exact Hsv|]. split; [exact Hcp|].
    apply dict_get_set. simpl. now rewrite Hkv.
Qed.

(** ** Copying descendants only allocates *)

Lemma tf_value_obj_inv_any h l o p n X i :
  h !! l = Some o -> tf_value h l = Some (TFM p n X i) ->
  o_path o = p /\ o_name o = n /\ o_foreach_idx o = i /\
  ref_value h (o_nested o) = Some X.
Proof.
  intros Ho Hv. unfold tf_value in Hv.
  destruct (length h) as [|k] eqn:Ek; [discriminate|].
  simpl in Hv. rewrite Ho in Hv.
  destruct (o_nested o) as [m|]; simpl.
  - destruct (tf_read k h m) as [w|] eqn:Ew; inversion Hv; subst.
    unfold tf_value. rewrite (tf_read_mono h k (length h) m w Ew) by lia.
    auto.
  - inversion Hv; subst. auto.
Qed.

Section HeapGrows.
Variable h0 : Heap.
Local Abbreviation G := (fun s : Store => h0 `prefix_of` heap s).

Lemma grows_heap_app s t : G s -> G (with_heap s (heap s ++ t)).
Proof. intros H. simpl. etrans; [exact H|]. now apply prefix_app_r. Qed.

Lemma grows_new_TFModule p n nested idx :
  keeps G (new_TFModule p n nested idx) (fun _ => True).
Proof. intros s Hs. split; [now apply grows_heap_app|auto]. Qed.

Lemma grows_copy_ref memo h r memo' h' r' :
  copy_ref memo h r = Some (memo', h', r') -> h `prefix_of` h'.
Proof.
  destruct r as [l|]; simpl.
  - destruct (copy_chain _ _ _ _) as [[[? ?] ?]|] eqn:E; [|discriminate].
    intros [= <- <- <-]. eapply copy_chain_prefix; eauto.
  - intros [= <- <- <-]. reflexivity.
Qed.

Lemma grows_deepcopy_block b :
  keeps G (deepcopy_block b) (fun _ => True).
Proof.
  intros s Hs. unfold deepcopy_block.
  destruct (copy_ref _ _ (resolved_module_entry b)) as [[[m1 h1] ?]|] eqn:E1;
    simpl; [|auto].
  destruct (copy_ref _ _ (source_module_object b)) as [[[m2 h2] ?]|] eqn:E2;
    simpl; [|auto].
  split; [|auto]. apply grows_copy_ref in E1, E2.
  etrans; [exact Hs|]. etrans; eauto.
Qed.

Lemma grows_blind {A} (m : M A) :
  (forall s, heap (snd (m s)) = heap s) -> keeps G m (fun _ => True).
Proof. intros H s Hs. split; [now rewrite H|auto]. Qed.

Lemma grows_vertex i : keeps G (vertex i) (fun _ => True).
Proof.
  apply grows_blind. intros s. unfold vertex. now destruct (vertices s !! i).
Qed.

Lemma grows_vertices_set i b : keeps G (vertices_set i b) (fun _ => True).
Proof.
  apply grows_blind. intros s. unfold vertices_set. now destruct (decide _).
Qed.

Lemma grows_key_of r : keeps G (key_of r) (fun _ => True).
Proof.
  apply grows_blind. intros s. unfold key_of.
  now destruct (ref_value (heap s) r).
Qed.

Lemma grows_tf_object l : keeps G (tf_object l) (fun _ => True).
Proof.
  apply grows_blind. intros s. unfold tf_object. now destruct (heap s !! l).
Qed.

Lemma grows_dict_assign kl v : keeps G (dict_assign kl v) (fun _ => True).
Proof.
  unfold dict_assign. eapply keeps_bind; [apply grows_key_of|]. intros k _.
  now apply grows_blind.
Qed.

Lemma grows_dict_append kl t i : keeps G (dict_append kl t i) (fun _ => True).
Proof.
  unfold dict_append. eapply keeps_bind; [apply grows_key_of|]. intros k _.
  eapply keeps_bind; [now apply grows_blind|]. intros m _.
  now apply grows_blind.
Qed.

Lemma grows_add_new_vertices_for_module
    (rec : TerraformBlock -> Members -> nat -> M unit) key value idx :
  (forall b v i, keeps G (rec b v i) (fun _ => True)) ->
  keeps G (_add_new_vertices_for_module rec key value idx) (fun _ => True).
Proof.
  intros Hrec. unfold _add_new_vertices_for_module.
  apply keeps_fold with (P := fun _ => True); [|exact Logic.I].
  intros acc [vertex_type vertices_idx] _ _.
  apply keeps_fold with (P := fun _ => True); [|exact Logic.I].
  intros acc' vertex_idx _ _.
  eapply keeps_bind; [apply grows_vertex|]. intros module_vertex _.
  eapply keeps_bind; [apply grows_deepcopy_block|]. intros nv0 _.
  eapply keeps_bind; [now apply grows_blind|]. intros _ _.
  eapply keeps_bind; [now apply grows_blind|]. intros n _.
  destruct (source_module_pop_add _ _); [|apply keeps_raise].
  eapply keeps_bind; [apply grows_vertices_set|]. intros _ _.
  destruct (BlockType_eqb vertex_type MODULE); [|now apply keeps_ret].
  eapply keeps_bind; [apply grows_new_TFModule|]. intros mk _.
  eapply keeps_bind; [apply grows_key_of|]. intros k _.
  eapply keeps_bind; [now apply grows_blind|]. intros mv _.
  eapply keeps_bind; [apply Hrec|]. intros _ _. now apply keeps_ret.
Qed.

Lemma grows_source_module_key ov :
  keeps G (match source_module_object ov with
           | Some l =>
             do o <- tf_object l;
             do k <- new_TFModule (o_path o) (o_name o) (o_nested o) None;
             ret (Some k)
           | None => ret None
           end) (fun _ => True).
Proof.
  destruct (source_module_object ov); [|now apply keeps_ret].
  eapply keeps_bind; [apply grows_tf_object|]. intros o _.
  eapply keeps_bind; [apply grows_new_TFModule|]. intros k' _.
  now apply keeps_ret.
Qed.

Lemma grows_create_new_module_with_vertices fuel :
  forall main_resource value resource_idx key,
    keeps G (_create_new_module_with_vertices fuel main_resource value
                                              resource_idx key)
          (fun _ => True).
Proof.
  induction fuel as [|f IH]; intros main_resource value resource_idx key;
    simpl; [apply keeps_out_of_fuel|].
  eapply keeps_bind with (Q := fun _ => True).
  { destruct key; [now apply keeps_ret|].
    eapply keeps_bind; [apply grows_deepcopy_block|].
    intros nr _. apply grows_new_TFModule. }
  intros k _.
  eapply keeps_bind; [now apply grows_blind|]. intros n _.
  eapply keeps_bind; [apply grows_vertex|]. intros ov _.
  eapply keeps_bind; [apply grows_source_module_key|]. intros smk _.
  eapply keeps_bind; [apply grows_dict_append|]. intros _ _.
  eapply keeps_bind.
  - apply grows_add_new_vertices_for_module. intros b v i. apply IH.
  - intros nv _. apply grows_dict_assign.
Qed.
End HeapGrows.

Lemma keeps_step {A} (I : Store -> Prop) (m : M A) Q s a s' :
  keeps I m Q -> I s -> m s = (Ok a, s') -> I s'.
Proof. intros H Hs E. destruct (H s Hs) as [H1 _]. now rewrite E in H1. Qed.

Lemma dict_assign_inv kl v s s' :
  dict_assign kl v s = (Ok tt, s') ->
  exists k, ref_value (heap s) kl = Some k /\
            s' = with_dict s (dict_set (heap s)
                                       (vertices_by_module_dependency s)
                                       kl k v).
Proof.
  unfold dict_assign, bind, key_of.
  destruct (ref_value (heap s) kl) as [k|]; [|discriminate].
  intros [= <-]. eauto.
Qed.

(** When it returns, [_create_new_module_with_vertices] has entered the
    members it made under the key of the new module. *)
Lemma create_new_module_with_vertices_entry fuel main_resource value
    resource_idx k s s' :
  _create_new_module_with_vertices fuel main_resource value resource_idx
                                   (Some k) s = (Ok tt, s') ->
  heap s `prefix_of` heap s' /\
  exists kv members,
    ref_value (heap s') (Some k) = Some kv /\
    dict_get (heap s') (vertices_by_module_dependency s') kv = Some members.
Proof.
  destruct fuel as [|f]; [discriminate|]. simpl. intros H.
  assert (G0 : heap s `prefix_of` heap s) by reflexivity.
  apply bind_inv_ok in H as (k' & s1 & H1 & H). inversion H1; subst k' s1.
  apply bind_inv_ok in H as (n & s2 & H2 & H). inversion H2; subst n s2.
  apply bind_inv_ok in H as (ov & s3 & H3 & H).
  pose proof (keeps_step _ _ _ _ _ _ (grows_vertex (heap s) resource_idx)
                G0 H3) as G3.
  apply bind_inv_ok in H as (smk & s4 & H4 & H).
  pose proof (keeps_step _ _ _ _ _ _ (grows_source_module_key (heap s) ov)
                G3 H4) as G4.
  apply bind_inv_ok in H as (u & s5 & H5 & H).
  pose proof (keeps_step _ _ _ _ _ _
                (grows_dict_append (heap s) smk MODULE _) G4 H5) as G5.
  apply bind_inv_ok in H as (nv & s6 & H6 & H).
  pose proof (keeps_step _ _ _ _ _ _
                (grows_add_new_vertices_for_module (heap s) _ k value _
                   (fun b v i =>
                      grows_create_new_module_with_vertices (heap s) f b v i
                                                            None))
                G5 H6) as G6.
  apply dict_assign_inv in H as (kv & Hkv & ->). simpl.
  split; [exact G6|]. exists kv, nv. split; [exact Hkv|].
  now apply dict_get_set.
Qed.

(** A later instance: the clone is appended as a new vertex, the vertices
    there were stay as they are, and when the copy of the descendants
    returns, the membership of the clone is entered under its key. *)
Lemma create_new_module_append
    (render : TerraformBlock -> PyKey -> option PyKey ->
              list (string * Statement) * list (string * Statement) ->
              list (string * Statement) * list (string * Statement))
    fuel main_resource new_value resource_idx foreach_idx new_key s :
  heap_wf (heap s) -> block_ok (heap s) main_resource ->
  dict_keys_valid (heap s) (vertices_by_module_dependency s) ->
  foreach_idx <> 0 ->
  exists smo res,
    let r := _create_new_module render fuel main_resource new_value
                                resource_idx foreach_idx new_key s in
    (forall j, j < length (vertices s) ->
               vertices (snd r) !! j = vertices s !! j) /\
    vertices (snd r) !! length (vertices s)
    = Some (clone_of render main_resource new_value new_key smo res) /\
    (fst r = Ok tt ->
     exists nested members,
       ref_value (heap (snd r)) smo = Some nested /\
       dict_get (heap (snd r)) (vertices_by_module_dependency (snd r))
                (Some (TFM (path main_resource) (name main_resource) nested
                           (Some (py_or new_key new_value))))
       = Some members).
Proof.
  intros Hwf Hblock Hkeys Hne.
  destruct (create_new_module_prelude render fuel main_resource new_value
              resource_idx foreach_idx new_key s Hwf Hblock Hkeys)
    as (smo & res & mk & s4 & smo_v & cp & Heq & Hsv & Hcp & Hv4 & Hd4 & Hwf4
        & Hlen4 & Hlen0 & Hsmo & Hmk4 & Hnk4).
  cbn zeta in Heq.
  destruct (Nat.eqb_neq foreach_idx 0) as [_ Hb]. rewrite (Hb Hne) in Heq.
  simpl negb in Heq. cbv iota in Heq.
  set (new_resource := clone_of _ _ _ _ _ _) in *.
  set (value := default [] _) in *.
  set (s5 := with_vertices s4 (vertices s4 ++ [new_resource])).
  assert (Heq2 : _create_new_module render fuel main_resource new_value
                   resource_idx foreach_idx new_key s
                 = _create_new_module_with_vertices fuel main_resource value
                     resource_idx (Some (S mk)) s5)
    by (rewrite Heq; reflexivity).
  exists smo, res. cbn zeta. rewrite Heq2. clear Heq Heq2.
  pose proof (frame_create_new_module_with_vertices [] (vertices s5) fuel
                main_resource value resource_idx (Some (S mk)) s5
                (vframe_refl [] s5)) as [[Hlen Hok] _].
  set (r := _create_new_module_with_vertices fuel main_resource value
              resource_idx (Some (S mk)) s5) in *.
  assert (Hsame : forall j, j < length (vertices s5) ->
                            vertices (snd r) !! j = vertices s5 !! j).
  { intros j Hj. destruct (vertices (snd r) !! j) as [b|] eqn:E.
    - destruct (Hok j b E) as (H1 & _). symmetry. apply H1; [exact Hj|].
      intros [].
    - apply lookup_ge_None in E. lia. }
  assert (Hl5 : length (vertices s5) = S (length (vertices s))).
  { unfold s5. simpl. rewrite length_app, Hv4. simpl. lia. }
  split_and!.
  - intros j Hj. rewrite Hsame by lia. unfold s5. simpl.
    rewrite Hv4. now apply lookup_app_l.
  - rewrite Hsame by lia. unfold s5. simpl. rewrite Hv4.
    now apply list_lookup_middle.
  - intros Hok'. destruct r as [[[]|e|] s'] eqn:Er; try discriminate.
    unfold r in Er.
    apply create_new_module_with_vertices_entry in Er
      as (Hp & kv & members & Hkv & Hget).
    simpl in *. destruct (tf_value (heap s') (S mk)) as [v|] eqn:Ev;
      [|discriminate].
    inversion Hkv; subst kv. destruct v as [p n X i].
    assert (Hnk' : heap s' !! S mk = Some (mkTFObject (path main_resource)
                     (name main_resource) smo
                     (Some (py_or new_key new_value)))).
    { destruct Hp as [t ->]. apply lookup_app_l_Some. exact Hnk4. }
    destruct (tf_value_obj_inv_any _ _ _ _ _ _ _ Hnk' Ev)
      as (<- & <- & <- & HX). simpl in HX.
    exists X, members. split; [exact HX|exact Hget].
Qed.

Lemma clone_of_fields render main_resource new_value new_key smo res :
  let clone := clone_of render main_resource new_value new_key smo res in
  block_type clone = block_type main_resource /\
  path clone = path main_resource /\
  name clone
  = (name main_resource ++ "[" ++
     idx_with_separator (py_or new_key new_value) ++ "]")%string /\
  for_each_index clone = Some (py_or new_key new_value) /\
  source_module clone = source_module main_resource /\
  source_module_object clone = smo.
Proof. simpl. repeat split. Qed.



(** ** The identity propagation walk *)

Lemma bind_ext {A B} (m : M A) (f g : A -> M B) s :
  (forall a s', f a s' = g a s') -> bind m f s = bind m g s.
Proof. intros H. unfold bind. destruct (m s) as [[a|e|] s1]; auto. Qed.

(** For the override instance the code's walk is the walk that hands the
    flag down. *)
Lemma override_walk_clears_at_every_depth key orig : forall fuel cur s,
  _update_children_foreach_index fuel key orig cur true s
  = walk_with_flag_passed_down fuel key orig cur true s.
Proof.
  induction fuel as [|f IH]; intros cur s; [reflexivity|]. simpl.
  apply bind_ext. intros c s1. apply bind_ext. intros k s2.
  apply bind_ext. intros present s3. destruct present; [|reflexivity]. simpl.
  apply bind_ext. intros values s4.
  apply py_for_ext. intros item s5 _.
  apply py_for_ext. intros child_index s6 _.
  apply bind_ext. intros child s7. apply bind_ext. intros u1 s8.
  apply bind_ext. intros u2 s9. apply bind_ext. intros copy s10.
  apply bind_ext. intros u3 s11. apply bind_ext. intros ck s12. apply IH.
Qed.

(** The rewrite of one module reference: when the module that the
    reference names is the module in its form before the duplication, it
    carries the instance key afterwards. *)
Lemma rewrite_names_the_instance key orig l s p n X :
  heap_wf (heap s) -> orig < length (heap s) -> l < length (heap s) ->
  tf_value (heap (snd (assign_foreach_idx orig None s))) orig
  = Some (TFM p n X None) ->
  tf_value (heap (snd (assign_foreach_idx orig None s))) l
  = Some (TFM p n X None) ->
  exists s',
    _update_nested_tf_module_foreach_idx key orig (Some l) s = (Ok tt, s') /\
    vertices s' = vertices s /\
    vertices_by_module_dependency s' = vertices_by_module_dependency s /\
    tf_value (heap s') l = Some (TFM p n X (Some key)).
Proof.
  intros Hwf Ho Hl.
  destruct (assign_foreach_idx_ok orig None s Ho) as (oo & Hoo & Ha & Hs).
  rewrite Ha. simpl. set (h1 := <[orig := _]> (heap s)). intros Hvo Hvl.
  assert (Hwf1 : heap_wf h1) by (eapply heap_shape_wf; eauto).
  assert (Hlen1 : length h1 = length (heap s))
    by (unfold h1; apply length_insert).
  destruct (lookup_lt_is_Some_2 h1 l) as [ol Hol]; [lia|].
  destruct (tf_value_obj_inv _ _ _ _ _ _ _ Hwf1 Hol Hvl)
    as (Hp & Hn & _ & HX).
  set (o2 := mkTFObject (o_path ol) (o_name ol) (o_nested ol) (Some key)).
  set (h2 := <[l := o2]> h1).
  assert (Hwf2 : heap_wf h2) by (apply (heap_wf_insert h1 l ol); auto).
  exists (with_heap s h2). split.
  - unfold _update_nested_tf_module_foreach_idx.
    rewrite (bind_ok _ _ _ _ _ Ha). unfold bind at 1. simpl. fold h1.
    destruct (length h1) as [|f] eqn:Ef; [lia|]. cbn [_update_nested_walk].
    unfold bind at 1, key_of at 1. cbn [heap with_heap ref_value].
    rewrite Hvl. unfold bind at 1, key_of at 1.
    cbn [heap with_heap ref_value]. rewrite Hvo.
    rewrite Key_eqb_refl. unfold assign_foreach_idx. simpl.
    rewrite Hol. reflexivity.
  - simpl. split; [reflexivity|]. split; [reflexivity|].
    rewrite <- Hp, <- Hn.
    apply (tf_value_obj h2 l o2 X Hwf2).
    + unfold h2. apply list_lookup_insert_eq. lia.
    + simpl. unfold h2. rewrite ref_value_insert_above; auto.
      intros m Hm. pose proof (Hwf1 l ol m Hol Hm). lia.
Qed.




(** ** Objects a clone owns *)

(** Every [TFModule] object reached from [l] through [nested_tf_module]
    has a location from [L] on: it was allocated after the heap had [L]
    objects. *)
Inductive fresh_chain (L : nat) (h : Heap) : loc -> Prop :=
| fresh_leaf l o :
    L <= l -> h !! l = Some o -> o_nested o = None -> fresh_chain L h l
| fresh_node l o n :
    L <= l -> h !! l = Some o -> o_nested o = Some n ->
    fresh_chain L h n -> fresh_chain L h l.

Definition fresh_ref (L : nat) (h : Heap) (r : option loc) : Prop :=
  forall l, r = Some l -> fresh_chain L h l.

(** The references of a block are to objects allocated from [L] on. *)
Definition block_fresh (L : nat) (h : Heap) (b : TerraformBlock) : Prop :=
  fresh_ref L h (source_module_object b) /\
  fresh_ref L h (resolved_module_entry b).

Lemma fresh_chain_ge L h l : fresh_chain L h l -> L <= l.
Proof. now destruct 1. Qed.

Lemma fresh_chain_app L h t l : fresh_chain L h l -> fresh_chain L (h ++ t) l.
Proof.
  induction 1 as [l o Hl Ho Hn|l o n Hl Ho Hn _ IH].
  - eapply fresh_leaf; eauto. now apply lookup_app_l_Some.
  - eapply fresh_node; eauto. now apply lookup_app_l_Some.
Qed.

Lemma fresh_chain_prefix L h h' l :
  h `prefix_of` h' -> fresh_chain L h l -> fresh_chain L h' l.
Proof. intros [t ->]. apply fresh_chain_app. Qed.

Lemma fresh_chain_shape L h h' l :
  heap_shape h h' -> fresh_chain L h l -> fresh_chain L h' l.
Proof.
  intros [_ Sh]. induction 1 as [l o Hl Ho Hn|l o n Hl Ho Hn _ IH].
  - destruct (Sh l o Ho) as (o' & Ho' & _ & _ & Hn').
    eapply fresh_leaf; eauto. congruence.
  - destruct (Sh l o Ho) as (o' & Ho' & _ & _ & Hn').
    eapply fresh_node; eauto. congruence.
Qed.

Lemma fresh_ref_prefix L h h' r :
  h `prefix_of` h' -> fresh_ref L h r -> fresh_ref L h' r.
Proof. intros Hp H l Hl. eapply fresh_chain_prefix; eauto. Qed.

Lemma block_fresh_prefix L h h' b :
  h `prefix_of` h' -> block_fresh L h b -> block_fresh L h' b.
Proof. intros Hp [H1 H2]. split; eapply fresh_ref_prefix; eauto. Qed.

Lemma fresh_chain_new L h p n nested idx :
  L <= length h -> fresh_ref L h nested ->
  fresh_chain L (h ++ [mkTFObject p n nested idx]) (length h).
Proof.
  intros HL Hn. destruct nested as [m|].
  - eapply fresh_node; [exact HL|now apply list_lookup_middle|reflexivity|].
    apply fresh_chain_app. now apply Hn.
  - eapply fresh_leaf; [exact HL|now apply list_lookup_middle|reflexivity].
Qed.

Definition memo_fresh (L : nat) (memo : list (loc * loc)) (h : Heap) : Prop :=
  forall a a', In (a, a') memo -> fresh_chain L h a'.

(** A copy is made of objects allocated by the copy. *)
Lemma copy_chain_fresh L : forall fuel memo h l memo' h' l',
  L <= length h -> memo_fresh L memo h ->
  copy_chain fuel memo h l = Some (memo', h', l') ->
  memo_fresh L memo' h' /\ fresh_chain L h' l'.
Proof.
  induction fuel as [|f IH]; intros memo h l memo' h' l' HL Hm H;
    [discriminate|]. simpl in H.
  destruct (list_find _ memo) as [[i [a b]]|] eqn:Ef.
  { inversion H; subst. split; [exact Hm|].
    apply list_find_Some in Ef as (Hi & _).
    apply list_elem_of_lookup_2, list_elem_of_In in Hi. eapply Hm; eauto. }
  destruct (h !! l) as [o|] eqn:Ho; [|discriminate].
  destruct (o_nested o) as [n|] eqn:En.
  - destruct (copy_chain f memo h n) as [[[m1 h1] n']|] eqn:E; [|discriminate].
    inversion H; subst; clear H.
    pose proof (copy_chain_prefix _ _ _ _ _ _ _ E) as Hp.
    destruct (IH _ _ _ _ _ _ HL Hm E) as [Hm1 Hn'].
    assert (Hnew : fresh_chain L
                     (h1 ++ [mkTFObject (o_path o) (o_name o) (Some n')
                                        (o_foreach_idx o)]) (length h1)).
    { apply fresh_chain_new; [apply prefix_length in Hp; lia|].
      intros ? [= <-]. exact Hn'. }
    split; [|exact Hnew].
    intros a a' [Heq|Hin]; [inversion Heq; subst; exact Hnew|].
    apply fresh_chain_app. eapply Hm1; eauto.
  - inversion H; subst; clear H.
    assert (Hnew : fresh_chain L (h ++ [o]) (length h)).
    { eapply fresh_leaf; [exact HL|now apply list_lookup_middle|exact En]. }
    split; [|exact Hnew].
    intros a a' [Heq|Hin]; [inversion Heq; subst; exact Hnew|].
    apply fresh_chain_app. eapply Hm; eauto.
Qed.

Lemma copy_ref_fresh L memo h r memo' h' r' :
  L <= length h -> memo_fresh L memo h ->
  copy_ref memo h r = Some (memo', h', r') ->
  memo_fresh L memo' h' /\ fresh_ref L h' r' /\ h `prefix_of` h'.
Proof.
  intros HL Hm H. pose proof (grows_copy_ref _ _ _ _ _ _ H) as Hp.
  destruct r as [l|]; simpl in H.
  - destruct (copy_chain _ _ _ _) as [[[m1 h1] l1]|] eqn:E; [|discriminate].
    inversion H; subst.
    destruct (copy_chain_fresh L _ _ _ _ _ _ _ HL Hm E) as [Hm1 Hf].
    split_and!; auto. intros ? [= <-]. exact Hf.
  - inversion H; subst. split_and!; auto. intros ? [=].
Qed.

Lemma deepcopy_block_fresh L b s b' s' :
  L <= length (heap s) -> deepcopy_block b s = (Ok b', s') ->
  block_fresh L (heap s') b' /\ same_block b' b /\
  heap s `prefix_of` heap s' /\ vertices s' = vertices s /\
  vertices_by_module_dependency s' = vertices_by_module_dependency s.
Proof.
  intros HL. unfold deepcopy_block.
  destruct (copy_ref _ _ (resolved_module_entry b)) as [[[m1 h1] res]|] eqn:E1;
    [|discriminate].
  destruct (copy_ref _ _ (source_module_object b)) as [[[m2 h2] smo]|] eqn:E2;
    [|discriminate].
  intros [= <- <-]. simpl.
  destruct (copy_ref_fresh L _ _ _ _ _ _ HL (fun a a' (H : In _ []) =>
                                               match H with end) E1)
    as (Hm1 & Hres & Hp1).
  assert (HL1 : L <= length h1) by (apply prefix_length in Hp1; lia).
  destruct (copy_ref_fresh L _ _ _ _ _ _ HL1 Hm1 E2) as (Hm2 & Hsmo & Hp2).
  split_and!; auto.
  - split; [exact Hsmo|]. eapply fresh_ref_prefix; eauto.
  - now repeat split.
  - etrans; eauto.
Qed.

(** The references a block holds. *)
Definition refs_of (b : TerraformBlock) : list loc :=
  option_list (source_module_object b) ++
  option_list (resolved_module_entry b).

(** [owned h0 v0 F s]: the objects of [h0] are in [s] as they were, each
    vertex of [s] is the one [v0] has at its index or refers only to
    objects allocated after [h0], and so do the references [F]. *)
Definition owned (h0 : Heap) (v0 : list TerraformBlock) (F : list loc)
    (s : Store) : Prop :=
  h0 `prefix_of` heap s /\
  (forall j b, vertices s !! j = Some b ->
               v0 !! j = Some b \/ block_fresh (length h0) (heap s) b) /\
  (forall l, In l F -> fresh_chain (length h0) (heap s) l).

(** A computation that leaves the vertices alone and only allocates. *)
Definition allocates_only {A} (m : M A) : Prop :=
  forall s, vertices (snd (m s)) = vertices s /\
            heap s `prefix_of` heap (snd (m s)).

Lemma allocates_only_bind {A B} (m : M A) (f : A -> M B) :
  allocates_only m -> (forall a, allocates_only (f a)) ->
  allocates_only (bind m f).
Proof.
  intros Hm Hf s. specialize (Hm s). unfold bind.
  destruct (m s) as [[a|e|] s1]; simpl in *; auto.
  destruct (Hf a s1) as [H1 H2]. destruct Hm as [H3 H4].
  split; [congruence|etrans; eauto].
Qed.

Lemma allocates_only_pure {A} (g : Store -> Res A) :
  allocates_only (fun s => (g s, s)).
Proof. intros s. simpl. split; reflexivity. Qed.

Lemma allocates_only_dict {A} (g : Store -> Res A) (d : Store -> Dict) :
  allocates_only (fun s => (g s, with_dict s (d s))).
Proof. intros s. simpl. split; reflexivity. Qed.

Lemma allocates_only_new_TFModule p n nested idx :
  allocates_only (new_TFModule p n nested idx).
Proof. intros s. simpl. split; [reflexivity|now apply prefix_app_r]. Qed.

Lemma allocates_only_vertex i : allocates_only (vertex i).
Proof.
  intros s. unfold vertex. destruct (vertices s !! i); simpl;
    split; reflexivity.
Qed.

Lemma allocates_only_key_of r : allocates_only (key_of r).
Proof.
  intros s. unfold key_of. destruct (ref_value _ _); simpl; split; reflexivity.
Qed.

Lemma allocates_only_tf_object l : allocates_only (tf_object l).
Proof.
  intros s. unfold tf_object. destruct (heap s !! l); simpl;
    split; reflexivity.
Qed.

Lemma allocates_only_dict_assign kl v : allocates_only (dict_assign kl v).
Proof.
  apply allocates_only_bind; [apply allocates_only_key_of|]. intros k.
  apply (allocates_only_dict (fun _ => Ok tt)).
Qed.

Lemma allocates_only_dict_append kl t i : allocates_only (dict_append kl t i).
Proof.
  apply allocates_only_bind; [apply allocates_only_key_of|]. intros k.
  apply allocates_only_bind; [apply (allocates_only_pure (fun s => Ok _))|].
  intros m. apply (allocates_only_dict (fun _ => Ok tt)).
Qed.

Lemma allocates_only_deepcopy_dict : allocates_only deepcopy_dict.
Proof.
  intros s. unfold deepcopy_dict. destruct (dict_copy _ _ _); simpl;
    split; reflexivity.
Qed.

Lemma block_fresh_refs L h b :
  block_fresh L h b <-> forall l, In l (refs_of b) -> fresh_chain L h l.
Proof.
  unfold block_fresh, fresh_ref, refs_of. split.
  - intros [H1 H2] l Hl. apply in_app_or in Hl as [Hl|Hl].
    + destruct (source_module_object b) as [x|]; simpl in Hl; [|tauto].
      destruct Hl as [<-|[]]. now apply H1.
    + destruct (resolved_module_entry b) as [x|]; simpl in Hl; [|tauto].
      destruct Hl as [<-|[]]. now apply H2.
  - intros H. split; intros l Hl; apply H, in_or_app; rewrite Hl; simpl; auto.
Qed.

Lemma insert_keeps_prefix (h0 h : Heap) l o :
  h0 `prefix_of` h -> length h0 <= l -> h0 `prefix_of` <[l := o]> h.
Proof.
  intros [t ->] Hl. exists (<[l - length h0 := o]> t).
  rewrite insert_app_r_alt by exact Hl. reflexivity.
Qed.

Section Owned.
Variable h0 : Heap.
Variable v0 : list TerraformBlock.

Lemma owned_change F s s' :
  owned h0 v0 F s -> vertices s' = vertices s -> h0 `prefix_of` heap s' ->
  (forall l, fresh_chain (length h0) (heap s) l ->
             fresh_chain (length h0) (heap s') l) ->
  owned h0 v0 F s'.
Proof.
  intros (Hp & Hv & HF) Ev Hp' Hf. split_and!; auto.
  intros j b Hb. rewrite Ev in Hb. destruct (Hv j b Hb) as [H|[H1 H2]];
    [now left|right].
  split; intros l Hl; apply Hf; [now apply H1|now apply H2].
Qed.

Lemma owned_weaken F F' s :
  (forall l, In l F' -> In l F) -> owned h0 v0 F s -> owned h0 v0 F' s.
Proof. intros Hsub (HL & Hv & HF). split_and!; auto. Qed.

Lemma owned_nil F s : owned h0 v0 F s -> owned h0 v0 [] s.
Proof. apply owned_weaken. intros l []. Qed.

Lemma owned_allocates_only {A} F (m : M A) :
  allocates_only m ->
  hoare (owned h0 v0 F) m (fun _ => owned h0 v0 F) (owned h0 v0 []).
Proof.
  intros Hm s Hs. destruct (Hm s) as [Hv Hp].
  assert (H : owned h0 v0 F (snd (m s))).
  { apply (owned_change F s); auto.
    - destruct Hs as (Hp0 & _). etrans; eauto.
    - intros l. now apply fresh_chain_prefix. }
  destruct (m s) as [[a|e|] s1]; simpl in H;
    [exact H|exact (owned_nil _ _ H)..].
Qed.

Lemma owned_new_TFModule F p n nested idx :
  (forall l, nested = Some l -> In l F) ->
  hoare (owned h0 v0 F) (new_TFModule p n nested idx)
        (fun k => owned h0 v0 (k :: F)) (owned h0 v0 []).
Proof.
  intros Hn s Hs. simpl.
  assert (H : owned h0 v0 F (with_heap s (heap s ++ [mkTFObject p n nested idx]))).
  { apply (owned_change F s); auto.
    - destruct Hs as (Hp0 & _). etrans; [exact Hp0|now apply prefix_app_r].
    - intros l. apply fresh_chain_app. }
  destruct H as (Hp & Hv & HF). split_and!; auto.
  intros l [<-|Hl]; [|now apply HF]. simpl.
  destruct Hs as (Hp0 & _ & HF0).
  apply fresh_chain_new; [now apply prefix_length|].
  intros x Hx. apply HF0, Hn, Hx.
Qed.

Lemma owned_deepcopy_block F b :
  hoare (owned h0 v0 F) (deepcopy_block b)
        (fun b' s => owned h0 v0 (refs_of b' ++ F) s /\ same_block b' b)
        (owned h0 v0 []).
Proof.
  intros s Hs. destruct (deepcopy_block b s) as [[b'|e|] s'] eqn:E.
  - assert (HL : length h0 <= length (heap s))
      by (destruct Hs as (Hp0 & _); now apply prefix_length).
    destruct (deepcopy_block_fresh _ b s b' s' HL E)
      as (Hf & Hsb & Hp & Hv & Hd).
    split; [|exact Hsb].
    assert (H : owned h0 v0 F s').
    { apply (owned_change F s); auto.
      - destruct Hs as (Hp0 & _). etrans; eauto.
      - intros l. now apply fresh_chain_prefix. }
    destruct H as (Hp' & Hv' & HF'). split_and!; auto.
    intros l Hl. apply in_app_or in Hl as [Hl|Hl]; [|now apply HF'].
    now apply (proj1 (block_fresh_refs _ _ _) Hf).
  - unfold deepcopy_block in E.
    destruct (copy_ref _ _ (resolved_module_entry b)) as [[[? ?] ?]|];
      [destruct (copy_ref _ _ (source_module_object b)) as [[[? ?] ?]|]|];
      inversion E; subst; exact (owned_nil _ _ Hs).
  - unfold deepcopy_block in E.
    destruct (copy_ref _ _ (resolved_module_entry b)) as [[[? ?] ?]|];
      [destruct (copy_ref _ _ (source_module_object b)) as [[[? ?] ?]|]|];
      inversion E.
Qed.

Lemma owned_deepcopy_TFModule F r :
  hoare (owned h0 v0 F) (deepcopy_TFModule r)
        (fun r' => owned h0 v0 (option_list r' ++ F)) (owned h0 v0 []).
Proof.
  intros s Hs. unfold deepcopy_TFModule.
  destruct (copy_ref [] (heap s) r) as [[[m h'] r']|] eqn:E;
    [|exact (owned_nil _ _ Hs)].
  assert (HL : length h0 <= length (heap s))
    by (destruct Hs as (Hp0 & _); now apply prefix_length).
  destruct (copy_ref_fresh (length h0) [] (heap s) r m h' r' HL) as
    (_ & Hf & Hp); [intros ? ? []|exact E|].
  assert (H : owned h0 v0 F (with_heap s h')).
  { apply (owned_change F s); auto.
    - destruct Hs as (Hp0 & _). etrans; eauto.
    - intros l. now apply fresh_chain_prefix. }
  destruct H as (Hp' & Hv' & HF'). split_and!; auto.
  intros l Hl. apply in_app_or in Hl as [Hl|Hl]; [|now apply HF'].
  destruct r' as [x|]; simpl in Hl; [|tauto]. destruct Hl as [<-|[]].
  now apply Hf.
Qed.

Lemma owned_vertices_append F b :
  (forall l, In l (refs_of b) -> In l F) ->
  hoare (owned h0 v0 F) (vertices_append b) (fun _ => owned h0 v0 F)
        (owned h0 v0 []).
Proof.
  intros Hb s (Hp & Hv & HF). split_and!; simpl; auto.
  intros j b' Hlk.
  apply lookup_app_Some in Hlk as [Hlk|[Hge Hlk]]; [exact (Hv j b' Hlk)|].
  destruct (j - length (vertices s)); simpl in Hlk; [|discriminate].
  inversion Hlk; subst. right. apply block_fresh_refs. auto.
Qed.

Lemma owned_vertices_set F i b :
  (forall l, In l (refs_of b) -> In l F) ->
  hoare (owned h0 v0 F) (vertices_set i b) (fun _ => owned h0 v0 F)
        (owned h0 v0 []).
Proof.
  intros Hb s Hs. unfold vertices_set.
  destruct (decide (i < length (vertices s))) as [Hi|Hi];
    [|exact (owned_nil _ _ Hs)].
  destruct Hs as (Hp & Hv & HF). split_and!; simpl; auto.
  intros j b' Hlk. destruct (decide (j = i)) as [->|Hne].
  - rewrite list_lookup_insert_eq in Hlk by exact Hi.
    inversion Hlk; subst. right. apply block_fresh_refs. auto.
  - rewrite list_lookup_insert_ne in Hlk by auto. exact (Hv j b' Hlk).
Qed.

Lemma owned_assign_foreach_idx F l idx :
  In l F ->
  hoare (owned h0 v0 F) (assign_foreach_idx l idx) (fun _ => owned h0 v0 F)
        (owned h0 v0 []).
Proof.
  intros Hl s Hs. unfold assign_foreach_idx.
  destruct (heap s !! l) as [o|] eqn:Ho; [|exact (owned_nil _ _ Hs)].
  apply (owned_change F s); auto; simpl.
  - destruct Hs as (Hp & _ & HF). apply insert_keeps_prefix; [exact Hp|].
    exact (fresh_chain_ge _ _ _ (HF l Hl)).
  - intros x. apply fresh_chain_shape.
    destruct (assign_foreach_idx_ok l idx s (lookup_lt_Some _ _ _ Ho))
      as (o' & Ho' & _ & Hsh).
    rewrite Ho in Ho'. inversion Ho'; subst. exact Hsh.
Qed.
End Owned.

Lemma hoare_of_snd {A} (P I E : Store -> Prop) (m : M A) :
  (forall s, P s -> I (snd (m s))) -> (forall s, I s -> E s) ->
  hoare P m (fun _ => I) E.
Proof.
  intros H HE s Hs. specialize (H s Hs).
  destruct (m s) as [[a|e|] s1]; simpl in H; auto.
Qed.

Lemma hoare_ex_pure {A X} (phi : X -> Prop) (P : X -> Store -> Prop)
    (m : M A) Q E :
  (forall x, phi x -> hoare (P x) m Q E) ->
  hoare (fun s => exists x, phi x /\ P x s) m Q E.
Proof. intros H s (x & Hx & Hs). exact (H x Hx s Hs). Qed.

Lemma fresh_chain_nested L h l o :
  fresh_chain L h l -> h !! l = Some o -> fresh_ref L h (o_nested o).
Proof.
  intros Hf Ho n Hn. inversion Hf as [l' o' Hl Ho' Hn'|l' o' n' Hl Ho' Hn' Hc];
    subst; rewrite Ho in Ho'; inversion Ho'; subst; congruence.
Qed.

Section OwnedWalk.
Variable h0 : Heap.
Variable v0 : list TerraformBlock.

Lemma owned_assign_fresh F l idx s :
  owned h0 v0 F s -> fresh_chain (length h0) (heap s) l ->
  owned h0 v0 F (snd (assign_foreach_idx l idx s)) /\
  forall x, fresh_chain (length h0) (heap s) x ->
            fresh_chain (length h0) (heap (snd (assign_foreach_idx l idx s))) x.
Proof.
  intros Hs Hl. unfold assign_foreach_idx.
  destruct (heap s !! l) as [o|] eqn:Ho; simpl; [|now split].
  assert (Hsh : forall x, fresh_chain (length h0) (heap s) x ->
                  fresh_chain (length h0)
                    (<[l := mkTFObject (o_path o) (o_name o) (o_nested o) idx]>
                       (heap s)) x).
  { intros x. apply fresh_chain_shape.
    destruct (assign_foreach_idx_ok l idx s (lookup_lt_Some _ _ _ Ho))
      as (o' & Ho' & _ & Hsh).
    rewrite Ho in Ho'. inversion Ho'; subst. exact Hsh. }
  split; [|exact Hsh].
  apply (owned_change h0 v0 F s); auto; simpl.
  destruct Hs as (Hp & _). apply insert_keeps_prefix; [exact Hp|].
  exact (fresh_chain_ge _ _ _ Hl).
Qed.

Lemma owned_update_nested_walk key orig F : forall fuel tf s,
  owned h0 v0 F s -> fresh_ref (length h0) (heap s) tf ->
  owned h0 v0 F (snd (_update_nested_walk fuel key orig tf s)).
Proof.
  induction fuel as [|f IH]; intros tf s Hs Htf;
    (destruct tf as [l|]; [|exact Hs]); [exact Hs|].
  cbn [_update_nested_walk]. unfold bind at 1.
  unfold key_of at 1. destruct (ref_value (heap s) (Some l)); [|exact Hs].
  unfold bind at 1.
  unfold key_of at 1. destruct (ref_value (heap s) (Some orig)); [|exact Hs].
  destruct (Key_eqb _ _).
  - apply owned_assign_fresh; auto.
  - unfold bind, tf_object. destruct (heap s !! l) as [o|] eqn:Ho; [|exact Hs].
    apply IH; [exact Hs|]. eapply fresh_chain_nested; eauto.
Qed.

Lemma owned_update_nested_tf_module_foreach_idx key orig tf F s :
  owned h0 v0 F s -> fresh_chain (length h0) (heap s) orig ->
  fresh_ref (length h0) (heap s) tf ->
  owned h0 v0 F (snd (_update_nested_tf_module_foreach_idx key orig tf s)).
Proof.
  intros Hs Ho Htf. unfold _update_nested_tf_module_foreach_idx.
  destruct (owned_assign_fresh F orig None s Hs Ho) as [H1 H2].
  unfold bind at 1.
  destruct (assign_foreach_idx orig None s) as [[[]|e|] s1]; simpl in *;
    try exact H1.
  unfold bind, get_store. apply owned_update_nested_walk; [exact H1|].
  intros l Hl. apply H2, Htf, Hl.
Qed.

Lemma owned_update_resolved_entry child key orig F :
  In orig F -> (forall l, In l (refs_of child) -> In l F) ->
  hoare (owned h0 v0 F)
        (_update_resolved_entry_for_tf_definition child key orig)
        (fun _ => owned h0 v0 F) (owned h0 v0 []).
Proof.
  intros Ho Hc. apply hoare_of_snd; [|apply owned_nil].
  intros s Hs. unfold _update_resolved_entry_for_tf_definition.
  destruct (resolved_module_entry child) as [l|] eqn:El; [|exact Hs].
  pose proof Hs as (_ & _ & HF).
  apply owned_update_nested_tf_module_foreach_idx; auto.
  intros x [= <-]. apply HF, Hc. unfold refs_of. rewrite El.
  apply in_or_app. right. now left.
Qed.
End OwnedWalk.

Lemma refs_of_set_source_module b sm :
  refs_of (set_source_module b sm) = refs_of b.
Proof. reflexivity. Qed.

Lemma source_module_pop_add_refs b i b' :
  source_module_pop_add b i = Some b' -> refs_of b' = refs_of b.
Proof.
  unfold source_module_pop_add. destruct (source_module b); [discriminate|].
  intros [= <-]. reflexivity.
Qed.

Lemma refs_of_rehomed b k l F :
  In k F -> In l (refs_of (set_source_module_object b (Some k))) ->
  In l (refs_of b ++ F).
Proof.
  unfold refs_of. simpl. intros Hk [<-|Hl].
  - apply in_or_app. now right.
  - apply in_or_app. left. apply in_or_app. now right.
Qed.

Section OwnedModule.
Variable h0 : Heap.
Variable v0 : list TerraformBlock.

Lemma owned_add_new_vertices_for_module
    (rec : TerraformBlock -> Members -> nat -> M unit) key value idx F :
  In key F ->
  (forall F' b v i, hoare (owned h0 v0 F') (rec b v i)
                          (fun _ => owned h0 v0 F') (owned h0 v0 [])) ->
  hoare (owned h0 v0 F) (_add_new_vertices_for_module rec key value idx)
        (fun _ => owned h0 v0 F) (owned h0 v0 []).
Proof.
  intros Hkey Hrec. unfold _add_new_vertices_for_module.
  apply hoare_fold with (J := fun _ => owned h0 v0 F).
  intros acc [vertex_type vertices_idx] _.
  apply hoare_fold with (J := fun _ => owned h0 v0 F).
  intros acc' vertex_idx _.
  eapply hoare_bind;
    [apply owned_allocates_only, allocates_only_vertex|].
  intros module_vertex.
  eapply hoare_bind; [apply owned_deepcopy_block|]. intros nv0.
  apply hoare_conseq with
    (P := owned h0 v0 (refs_of nv0 ++ F))
    (Q := fun _ => owned h0 v0 (refs_of nv0 ++ F)) (E := owned h0 v0 []);
    [|tauto| |auto].
  2:{ intros ? s. apply owned_weaken. intros l Hl. apply in_or_app. now right. }
  eapply hoare_bind.
  { apply owned_vertices_append. intros l. now apply refs_of_rehomed. }
  intros ?.
  eapply hoare_bind;
    [apply owned_allocates_only, (allocates_only_pure (fun s => Ok _))|].
  intros n.
  destruct (source_module_pop_add _ _) as [nv|] eqn:Epop;
    [|apply hoare_raise, owned_nil].
  eapply hoare_bind.
  { apply owned_vertices_set. intros l.
    rewrite (source_module_pop_add_refs _ _ _ Epop).
    now apply refs_of_rehomed. }
  intros ?.
  destruct (BlockType_eqb vertex_type MODULE); [|now apply hoare_ret].
  eapply hoare_bind;
    [apply owned_allocates_only, allocates_only_new_TFModule|].
  intros mk.
  eapply hoare_bind; [apply owned_allocates_only, allocates_only_key_of|].
  intros k.
  eapply hoare_bind;
    [apply owned_allocates_only, (allocates_only_pure (fun s => Ok _))|].
  intros mv.
  eapply hoare_bind; [apply Hrec|]. intros ?. now apply hoare_ret.
Qed.

Lemma owned_source_module_key ov F :
  hoare (owned h0 v0 F)
        (match source_module_object ov with
         | Some l =>
           do o <- tf_object l;
           do k <- new_TFModule (o_path o) (o_name o) (o_nested o) None;
           ret (Some k)
         | None => ret None
         end) (fun _ => owned h0 v0 F) (owned h0 v0 []).
Proof.
  apply owned_allocates_only.
  destruct (source_module_object ov);
    [|apply (allocates_only_pure (fun _ => Ok None))].
  apply allocates_only_bind; [apply allocates_only_tf_object|]. intros o.
  apply allocates_only_bind; [apply allocates_only_new_TFModule|]. intros k.
  apply (allocates_only_pure (fun _ => Ok (Some k))).
Qed.

Lemma owned_create_new_module_with_vertices fuel :
  forall F main_resource value resource_idx key,
    (forall k, key = Some k -> In k F) ->
    hoare (owned h0 v0 F)
          (_create_new_module_with_vertices fuel main_resource value
                                            resource_idx key)
          (fun _ => owned h0 v0 F) (owned h0 v0 []).
Proof.
  induction fuel as [|f IH]; intros F main_resource value resource_idx key
    Hkey; simpl; [apply hoare_out_of_fuel, owned_nil|].
  eapply hoare_bind with
    (Q := fun k s => exists F', ((forall l, In l F -> In l F') /\ In k F') /\
                                owned h0 v0 F' s).
  { destruct key as [k|].
    - apply hoare_ret. intros s Hs. exists F. auto.
    - eapply hoare_bind; [apply owned_deepcopy_block|]. intros nr.
      apply hoare_conseq with
        (P := owned h0 v0 (refs_of nr ++ F))
        (Q := fun k => owned h0 v0 (k :: refs_of nr ++ F))
        (E := owned h0 v0 []); [|tauto| |auto].
      + apply owned_new_TFModule. intros l Hl. apply in_or_app. left.
        unfold refs_of. rewrite Hl. now left.
      + intros k s Hs. exists (k :: refs_of nr ++ F). split; [|exact Hs].
        split; [|now left]. intros l Hl. right. apply in_or_app. now right. }
  intros k. apply hoare_ex_pure. intros F' [Hsub Hk].
  apply hoare_conseq with
    (P := owned h0 v0 F') (Q := fun _ => owned h0 v0 F')
    (E := owned h0 v0 []); [|auto| |auto].
  2:{ intros ? s. now apply owned_weaken. }
  eapply hoare_bind;
    [apply owned_allocates_only, (allocates_only_pure (fun s => Ok _))|].
  intros n.
  eapply hoare_bind; [apply owned_allocates_only, allocates_only_vertex|].
  intros ov.
  eapply hoare_bind; [apply owned_source_module_key|]. intros smk.
  eapply hoare_bind;
    [apply owned_allocates_only, allocates_only_dict_append|]. intros ?.
  eapply hoare_bind.
  - apply owned_add_new_vertices_for_module; [exact Hk|].
    intros F'' b v i. apply IH. intros ? [=].
  - intros nv. apply owned_allocates_only, allocates_only_dict_assign.
Qed.
End OwnedModule.

Lemma owned_create_new_module (h0 : Heap) (v0 : list TerraformBlock)
    (render : TerraformBlock -> PyKey -> option PyKey ->
              list (string * Statement) * list (string * Statement) ->
              list (string * Statement) * list (string * Statement))
    fuel main_resource new_value resource_idx foreach_idx new_key :
  hoare (owned h0 v0 [])
        (_create_new_module render fuel main_resource new_value resource_idx
                            foreach_idx new_key)
        (fun _ => owned h0 v0 []) (owned h0 v0 []).
Proof.
  unfold _create_new_module. cbv zeta.
  eapply hoare_bind; [apply owned_deepcopy_block|]. intros nr0.
  set (F1 := refs_of nr0 ++ []).
  apply hoare_conseq with
    (P := owned h0 v0 F1) (Q := fun _ => owned h0 v0 F1)
    (E := owned h0 v0 []); [|tauto| |auto].
  2:{ intros ? s. apply owned_nil. }
  assert (Hsmo : forall l, source_module_object nr0 = Some l -> In l F1).
  { intros l Hl. apply in_or_app. left. unfold refs_of. rewrite Hl. now left. }
  assert (Hrefs : forall l, In l (refs_of nr0) -> In l F1).
  { intros l Hl. apply in_or_app. now left. }
  eapply hoare_bind; [apply owned_new_TFModule; exact Hsmo|]. intros mk.
  apply hoare_conseq with
    (P := owned h0 v0 (mk :: F1)) (Q := fun _ => owned h0 v0 (mk :: F1))
    (E := owned h0 v0 []); [|tauto| |auto].
  2:{ intros ? s. apply owned_weaken. intros l Hl. now right. }
  eapply hoare_bind;
    [apply owned_allocates_only, allocates_only_deepcopy_dict|]. intros cp.
  eapply hoare_bind; [apply owned_allocates_only, allocates_only_key_of|].
  intros k.
  eapply hoare_bind.
  { apply owned_new_TFModule. intros l Hl. right. now apply Hsmo. }
  intros nk.
  set (F3 := nk :: mk :: F1).
  apply hoare_conseq with
    (P := owned h0 v0 F3) (Q := fun _ => owned h0 v0 F3)
    (E := owned h0 v0 []); [|tauto| |auto].
  2:{ intros ? s. apply owned_weaken. intros l Hl. now right. }
  assert (Hrefs3 : forall l, In l (refs_of nr0) -> In l F3).
  { intros l Hl. right. right. now apply Hrefs. }
  eapply hoare_bind.
  { apply owned_update_resolved_entry; [right; now left|exact Hrefs3]. }
  intros ?.
  destruct (negb _).
  - eapply hoare_bind; [apply owned_vertices_append; exact Hrefs3|].
    intros ?. apply owned_create_new_module_with_vertices.
    intros ? [= <-]. now left.
  - eapply hoare_bind; [apply owned_vertices_set; exact Hrefs3|]. intros ?.
    eapply hoare_bind; [apply owned_deepcopy_TFModule|]. intros [l|]; simpl;
      [|apply hoare_raise; intros s; apply owned_nil].
    eapply hoare_bind.
    + apply owned_assign_foreach_idx. now left.
    + intros ?.
      apply hoare_conseq with
        (P := owned h0 v0 (l :: F3)) (Q := fun _ => owned h0 v0 (l :: F3))
        (E := owned h0 v0 []).
      * apply owned_allocates_only, allocates_only_dict_assign.
      * auto.
      * intros ? s Hs. revert Hs. apply owned_weaken.
        intros x Hx. right. exact Hx.
      * auto.
Qed.

(** ** Every member of the module gets its copy *)

Lemma allocates_only_step {A} (m : M A) s r s' :
  allocates_only m -> m s = (r, s') -> vertices s' = vertices s.
Proof. intros Hm E. destruct (Hm s) as [Hv _]. now rewrite E in Hv. Qed.

(** [b'] is the copy of [b] that is put inside the instance [key]. *)
Definition copied_into (key : loc) (b b' : TerraformBlock) : Prop :=
  same_block b' b /\ source_module_object b' = Some key.

Definition member_copied (key : loc) (v v' : list TerraformBlock)
    (i : nat) : Prop :=
  forall b, v !! i = Some b ->
    exists j b', length v <= j /\ v' !! j = Some b' /\ copied_into key b b'.

Lemma member_copied_prefix key v v1 v' i :
  v `prefix_of` v1 -> v1 `prefix_of` v' ->
  member_copied key v1 v' i -> member_copied key v v' i.
Proof.
  intros Hp Hp' H b Hb.
  destruct (H b (prefix_lookup_Some _ _ _ _ Hb Hp)) as (j & b' & Hj & Hb' & Hc).
  exists j, b'. split_and!; auto. apply prefix_length in Hp. lia.
Qed.

Lemma member_copied_later key v v1 v' i :
  v1 `prefix_of` v' -> member_copied key v v1 i -> member_copied key v v' i.
Proof.
  intros Hp H b Hb. destruct (H b Hb) as (j & b' & Hj & Hb' & Hc).
  exists j, b'. split_and!; auto. eapply prefix_lookup_Some; eauto.
Qed.

Lemma for_fold_ok_inv {A B} (l : list A) (body : B -> A -> M B)
    (R : Store -> Store -> Prop) (P : A -> Store -> Store -> Prop) :
  (forall s, R s s) -> (forall s1 s2 s3, R s1 s2 -> R s2 s3 -> R s1 s3) ->
  (forall x s s1 s', P x s s1 -> R s1 s' -> P x s s') ->
  (forall x s0 s s', R s0 s -> R s s' -> P x s s' -> P x s0 s') ->
  (forall acc x s acc' s', In x l -> body acc x s = (Ok acc', s') ->
                           R s s' /\ P x s s') ->
  forall acc s acc' s', for_fold l acc body s = (Ok acc', s') ->
    R s s' /\ forall x, In x l -> P x s s'.
Proof.
  intros Rrefl Rtrans Plater Pearlier.
  induction l as [|x r IH]; intros Hb acc s acc' s' H; simpl in H.
  - inversion H; subst. split; [apply Rrefl|]. intros ? [].
  - apply bind_inv_ok in H as (acc1 & s1 & H1 & H).
    destruct (Hb acc x s acc1 s1 (or_introl eq_refl) H1) as [R1 P1].
    destruct (IH (fun a y s0 a' s0' Hy => Hb a y s0 a' s0' (or_intror Hy))
                 acc1 s1 acc' s' H) as [R2 P2].
    split; [eapply Rtrans; eauto|].
    intros y [<-|Hy]; [eapply Plater; eauto|].
    eapply Pearlier; eauto.
Qed.

Lemma append_then_set (v : list TerraformBlock) b1 b :
  <[length (v ++ [b1]) - 1 := b]> (v ++ [b1]) = v ++ [b].
Proof.
  rewrite length_app. simpl.
  replace (length v + 1 - 1) with (length v + 0) by lia.
  now rewrite insert_app_r.
Qed.

Lemma source_module_pop_add_smo b i b' :
  source_module_pop_add b i = Some b' ->
  source_module_object b' = source_module_object b.
Proof.
  unfold source_module_pop_add. destruct (source_module b); [discriminate|].
  intros [= <-]. reflexivity.
Qed.

Definition appends (s s' : Store) : Prop :=
  vertices s `prefix_of` vertices s'.

Lemma add_new_vertices_for_module_copies
    (rec : TerraformBlock -> Members -> nat -> M unit) key value idx
    s acc s' :
  (forall b v i s1 u s2, rec b v i s1 = (Ok u, s2) -> appends s1 s2) ->
  _add_new_vertices_for_module rec key value idx s = (Ok acc, s') ->
  appends s s' /\
  forall item, In item value -> forall i, In i (snd item) ->
    member_copied key (vertices s) (vertices s') i.
Proof.
  intros Hrec. unfold _add_new_vertices_for_module.
  apply (for_fold_ok_inv value _ appends
           (fun item s s' => forall i, In i (snd item) ->
              member_copied key (vertices s) (vertices s') i)).
  { intros s0. unfold appends. reflexivity. }
  { intros s1 s2 s3 H1 H2. unfold appends in *. etrans; eauto. }
  { intros item s0 s1 s2 HP HR i Hi. eapply member_copied_later; eauto. }
  { intros item s0 s1 s2 HR HR' HP i Hi.
    eapply member_copied_prefix; eauto. }
  intros acc0 [vertex_type vertices_idx] s0 acc1 s1 _.
  apply (for_fold_ok_inv vertices_idx _ appends
           (fun i s s' => member_copied key (vertices s) (vertices s') i)).
  { intros s2. unfold appends. reflexivity. }
  { intros s2 s3 s4 H1 H2. unfold appends in *. etrans; eauto. }
  { intros i s2 s3 s4 HP HR. eapply member_copied_later; eauto. }
  { intros i s2 s3 s4 HR HR' HP. eapply member_copied_prefix; eauto. }
  clear s0 acc1 s1 acc0. intros acc0 i s0 acc1 s1 _ H.
  apply bind_inv_ok in H as (mv & sa & Hmv & H).
  unfold vertex in Hmv. destruct (vertices s0 !! i) as [b0|] eqn:Eb;
    [|discriminate]. inversion Hmv; subst mv sa; clear Hmv.
  apply bind_inv_ok in H as (nv0 & sb & Hcp & H).
  destruct (deepcopy_block_fresh 0 b0 s0 nv0 sb (Nat.le_0_l _) Hcp)
    as (_ & Hsame & _ & Hvb & _).
  apply bind_inv_ok in H as ([] & sc & Happ & H).
  inversion Happ; subst sc; clear Happ.
  apply bind_inv_ok in H as (n & sd & Hlen & H).
  inversion Hlen; subst n sd; clear Hlen.
  destruct (source_module_pop_add _ _) as [nv|] eqn:Epop; [|discriminate].
  apply bind_inv_ok in H as ([] & se & Hset & H).
  unfold vertices_set in Hset. cbn [vertices with_vertices] in Hset.
  destruct (decide _); [|discriminate].
  inversion Hset; subst se; clear Hset.
  rewrite append_then_set, Hvb in H.
  set (s2 := with_vertices _ _) in H.
  assert (Hv2 : vertices s2 = vertices s0 ++ [nv]) by reflexivity.
  assert (Hnv : copied_into key b0 nv).
  { split.
    - eapply same_block_trans; [eapply source_module_pop_add_same; eauto|].
      destruct Hsame as (?&?&?&?&?&?). now repeat split.
    - now rewrite (source_module_pop_add_smo _ _ _ Epop). }
  assert (Hfin : appends s2 s1).
  { destruct (BlockType_eqb vertex_type MODULE).
    - apply bind_inv_ok in H as (mk & sf & Hmk & H).
      pose proof (allocates_only_step _ _ _ _
                    (allocates_only_new_TFModule _ _ _ _) Hmk) as Vf.
      apply bind_inv_ok in H as (k & sg & Hk & H).
      pose proof (allocates_only_step _ _ _ _
                    (allocates_only_key_of _) Hk) as Vg.
      apply bind_inv_ok in H as (mvv & sh & Hrd & H).
      inversion Hrd; subst mvv sh; clear Hrd.
      apply bind_inv_ok in H as ([] & si & Hr & H).
      inversion H; subst. apply Hrec in Hr. unfold appends in *.
      now rewrite Vg, Vf in Hr.
    - inversion H; subst. unfold appends. reflexivity. }
  split.
  - unfold appends in *. etrans; [|exact Hfin]. rewrite Hv2.
    now apply prefix_app_r.
  - intros b Hb. rewrite Eb in Hb. inversion Hb; subst b.
    exists (length (vertices s0)), nv. split_and!; auto.
    apply (prefix_lookup_Some (vertices s2)); [|exact Hfin].
    rewrite Hv2. now apply list_lookup_middle.
Qed.

Lemma allocates_only_deepcopy_block b : allocates_only (deepcopy_block b).
Proof.
  intros s. unfold deepcopy_block.
  destruct (copy_ref [] (heap s) (resolved_module_entry b))
    as [[[m1 h1] res]|] eqn:E1; [|split; reflexivity].
  destruct (copy_ref m1 h1 (source_module_object b))
    as [[[m2 h2] smo]|] eqn:E2; [|split; reflexivity].
  simpl. split; [reflexivity|].
  etrans; [exact (grows_copy_ref _ _ _ _ _ _ E1)|].
  exact (grows_copy_ref _ _ _ _ _ _ E2).
Qed.

Lemma allocates_only_source_module_key ov :
  allocates_only
    (match source_module_object ov with
     | Some l =>
       do o <- tf_object l;
       do k <- new_TFModule (o_path o) (o_name o) (o_nested o) None;
       ret (Some k)
     | None => ret None
     end).
Proof.
  destruct (source_module_object ov);
    [|apply (allocates_only_pure (fun _ => Ok None))].
  apply allocates_only_bind; [apply allocates_only_tf_object|]. intros o.
  apply allocates_only_bind; [apply allocates_only_new_TFModule|]. intros k.
  apply (allocates_only_pure (fun _ => Ok (Some k))).
Qed.

(** What [_create_new_module_with_vertices] does to the vertices, once
    the key of the new instance is there. *)
Lemma create_new_module_with_vertices_body
    (rec : TerraformBlock -> Members -> nat -> M unit) k value resource_idx
    s u s' :
  (forall b v i s1 u s2, rec b v i s1 = (Ok u, s2) -> appends s1 s2) ->
  (do n <- vertices_len;
   do original_vertex <- vertex resource_idx;
   do source_module_key <-
      match source_module_object original_vertex with
      | Some l =>
        do o <- tf_object l;
        do k <- new_TFModule (o_path o) (o_name o) (o_nested o) None;
        ret (Some k)
      | None => ret None
      end;
   run dict_append source_module_key MODULE (n - 1);
   do new_vertices_module_value <-
      _add_new_vertices_for_module rec k value (n - 1);
   dict_assign (Some k) new_vertices_module_value) s = (Ok u, s') ->
  appends s s' /\
  forall item, In item value -> forall i, In i (snd item) ->
    member_copied k (vertices s) (vertices s') i.
Proof.
  intros Hrec H.
  apply bind_inv_ok in H as (n & s1 & H1 & H). inversion H1; subst n s1.
  apply bind_inv_ok in H as (ov & s2 & H2 & H).
  pose proof (allocates_only_step _ _ _ _ (allocates_only_vertex _) H2) as V2.
  apply bind_inv_ok in H as (smk & s3 & H3 & H).
  pose proof (allocates_only_step _ _ _ _
                (allocates_only_source_module_key _) H3) as V3.
  apply bind_inv_ok in H as ([] & s4 & H4 & H).
  pose proof (allocates_only_step _ _ _ _
                (allocates_only_dict_append _ _ _) H4) as V4.
  apply bind_inv_ok in H as (nv & s5 & H5 & H).
  pose proof (allocates_only_step _ _ _ _
                (allocates_only_dict_assign _ _) H) as V6.
  destruct (add_new_vertices_for_module_copies _ _ _ _ _ _ _ Hrec H5)
    as [Ha Hc].
  unfold appends in *. rewrite V6.
  rewrite V4, V3, V2 in Ha, Hc. split; [exact Ha|exact Hc].
Qed.

Lemma create_new_module_with_vertices_appends fuel :
  forall main_resource value resource_idx key s u s',
    _create_new_module_with_vertices fuel main_resource value resource_idx
                                     key s = (Ok u, s') ->
    appends s s'.
Proof.
  induction fuel as [|f IH];
    intros main_resource value resource_idx key s u s' H;
    [discriminate|]. simpl in H.
  apply bind_inv_ok in H as (k & s1 & H1 & H).
  assert (V1 : vertices s1 = vertices s).
  { destruct key as [k0|]; [now inversion H1|].
    apply bind_inv_ok in H1 as (nr & sa & Ha & H1).
    rewrite (allocates_only_step _ _ _ _
               (allocates_only_new_TFModule _ _ _ _) H1).
    exact (allocates_only_step _ _ _ _ (allocates_only_deepcopy_block _) Ha). }
  apply create_new_module_with_vertices_body in H as [Ha _].
  - unfold appends in *. now rewrite V1 in Ha.
  - intros b v i sa ua sb. apply IH.
Qed.

Lemma create_new_module_with_vertices_copies fuel main_resource value
    resource_idx k s u s' :
  _create_new_module_with_vertices fuel main_resource value resource_idx
                                   (Some k) s = (Ok u, s') ->
  appends s s' /\
  forall item, In item value -> forall i, In i (snd item) ->
    member_copied k (vertices s) (vertices s') i.
Proof.
  destruct fuel as [|f]; [discriminate|]. simpl. intros H.
  apply bind_inv_ok in H as (k' & s1 & H1 & H). inversion H1; subst k' s1.
  apply create_new_module_with_vertices_body in H; [exact H|].
  intros b v i sa ua sb. apply create_new_module_with_vertices_appends.
Qed.

(** ** Clones and the objects that were there before *)

Lemma clone_refers_only_to_new_objects_aux
    (render : TerraformBlock -> PyKey -> option PyKey ->
              list (string * Statement) * list (string * Statement) ->
              list (string * Statement) * list (string * Statement))
    (fuel : nat) (main_resource : TerraformBlock) (new_value : PyKey)
    (resource_idx foreach_idx : nat) (new_key : option PyKey) (s : Store) :
  let s' := snd (_create_new_module render fuel main_resource new_value
                                    resource_idx foreach_idx new_key s) in
  heap s `prefix_of` heap s' /\
  forall j b, vertices s' !! j = Some b ->
    vertices s !! j = Some b \/ block_fresh (length (heap s)) (heap s') b.
Proof.
  intros s'.
  assert (H0 : owned (heap s) (vertices s) [] s).
  { split_and!; [reflexivity|intros; now left|intros ? []]. }
  pose proof (owned_create_new_module (heap s) (vertices s) render fuel
                main_resource new_value resource_idx foreach_idx new_key
                s H0) as H.
  subst s'.
  destruct (_create_new_module _ _ _ _ _ _ _ s) as [[a|e|] s1]; simpl;
    destruct H as (Hp & Hv & _); auto.
Qed.

(** X1: [_create_new_module] writes no key object that existed before the
    call, whatever its outcome: the heap it was given is a prefix of the
    heap it leaves.  And every vertex of the store it leaves is either the
    vertex that was in that slot before, or a block whose
    [source_module_object] and resolved module entry lead, at every depth
    of [nested_tf_module], only to objects allocated during the call. *)
Theorem clone_refers_only_to_new_objects
    (render : TerraformBlock -> PyKey -> option PyKey ->
              list (string * Statement) * list (string * Statement) ->
              list (string * Statement) * list (string * Statement))
    (fuel : nat) (main_resource : TerraformBlock) (new_value : PyKey)
    (resource_idx foreach_idx : nat) (new_key : option PyKey) (s : Store) :
  let s' := snd (_create_new_module render fuel main_resource new_value
                                    resource_idx foreach_idx new_key s) in
  heap s `prefix_of` heap s' /\
  forall j b, vertices s' !! j = Some b ->
    vertices s !! j = Some b \/ block_fresh (length (heap s)) (heap s') b.
Proof.
  exact (clone_refers_only_to_new_objects_aux render fuel main_resource
           new_value resource_idx foreach_idx new_key s).
Qed.

(** X2: when [_create_new_module_with_vertices] returns, the vertices
    there were are still there, in their slots, and every member listed
    in the membership value it was given has a copy among the appended
    vertices: a block with the type, path, name, configuration,
    attributes and [for_each_index] of the member, whose
    [source_module_object] is the key of the new instance (the key it
    was given, or the one it made). *)
Theorem members_are_copied_into_the_instance
    (fuel : nat) (main_resource : TerraformBlock) (value : Members)
    (resource_idx : nat) (key : option loc) (s s' : Store) :
  _create_new_module_with_vertices fuel main_resource value resource_idx
                                   key s = (Ok tt, s') ->
  vertices s `prefix_of` vertices s' /\
  exists k, (forall k0, key = Some k0 -> k = k0) /\
    forall t members i b,
      In (t, members) value -> In i members -> vertices s !! i = Some b ->
      exists j b', length (vertices s) <= j /\ vertices s' !! j = Some b' /\
                   same_block b' b /\ source_module_object b' = Some k.
Proof.
  destruct fuel as [|f]; [discriminate|]. simpl. intros H.
  apply bind_inv_ok in H as (k & s1 & H1 & H).
  assert (V1 : vertices s1 = vertices s /\
               forall k0, key = Some k0 -> k = k0).
  { destruct key as [k0|].
    - inversion H1; subst. split; [reflexivity|]. now intros ? [= <-].
    - apply bind_inv_ok in H1 as (nr & sa & Ha & H1).
      rewrite (allocates_only_step _ _ _ _
                 (allocates_only_new_TFModule _ _ _ _) H1).
      split; [|discriminate].
      exact (allocates_only_step _ _ _ _
               (allocates_only_deepcopy_block _) Ha). }
  destruct V1 as [V1 Hk].
  apply create_new_module_with_vertices_body in H as [Ha Hc].
  2:{ intros b v i sa ua sb. apply create_new_module_with_vertices_appends. }
  unfold appends in Ha. rewrite V1 in Ha, Hc. split; [exact Ha|].
  exists k. split; [exact Hk|].
  intros t members i b Hin Hi Hb.
  destruct (Hc (t, members) Hin i Hi b Hb) as (j & b' & Hj & Hb' & Hs & Hsmo).
  exists j, b'. auto.
Qed.

Lemma members_are_copied_into_the_instance_witness :
  let main := Examples.module_block "main.tf" "m" [] None [] in
  let s' := snd (_create_new_module_with_vertices 2 main [(RESOURCE, [1])] 0
                   (Some 0) Examples.plain) in
  vertices Examples.plain `prefix_of` vertices s' /\
  exists k, (forall k0, Some 0 = Some k0 -> k = k0) /\
    forall t members i b,
      In (t, members) [(RESOURCE, [1])] -> In i members ->
      vertices Examples.plain !! i = Some b ->
      exists j b', length (vertices Examples.plain) <= j /\
                   vertices s' !! j = Some b' /\
                   same_block b' b /\ source_module_object b' = Some k.
Proof.
  cbn zeta.
  apply (members_are_copied_into_the_instance 2
           (Examples.module_block "main.tf" "m" [] None [])
           [(RESOURCE, [1])] 0 (Some 0) Examples.plain).
  vm_compute. reflexivity.
Defined.

(** [reaches h l l']: [l'] is the object at [l] or one of the objects it
    is nested in. *)
Inductive reaches (h : Heap) : loc -> loc -> Prop :=
| reaches_here l : reaches h l l
| reaches_nested l o n l' :
    h !! l = Some o -> o_nested o = Some n -> reaches h n l' ->
    reaches h l l'.

(** The key objects a block holds: those its references lead to. *)
Definition holds (h : Heap) (b : TerraformBlock) (l : loc) : Prop :=
  exists l0, In l0 (refs_of b) /\ reaches h l0 l.

Lemma fresh_chain_reaches L h l l' :
  fresh_chain L h l -> reaches h l l' -> L <= l'.
Proof.
  intros Hf Hr. induction Hr as [l|l o n l' Ho Hn Hr IH].
  - exact (fresh_chain_ge _ _ _ Hf).
  - apply IH. exact (fresh_chain_nested _ _ _ _ Hf Ho n Hn).
Qed.

Lemma old_reaches (h0 h : Heap) l l' :
  heap_wf h0 -> h0 `prefix_of` h -> l < length h0 -> reaches h l l' ->
  l' < length h0.
Proof.
  intros Hwf Hp Hl Hr. induction Hr as [l|l o n l' Ho Hn Hr IH]; [exact Hl|].
  apply IH. destruct (lookup_lt_is_Some_2 _ _ Hl) as [o0 Ho0].
  pose proof (prefix_lookup_Some _ _ _ _ Ho0 Hp) as Ho0'.
  rewrite Ho in Ho0'. inversion Ho0'; subst o0.
  pose proof (Hwf l o n Ho0 Hn). lia.
Qed.

Lemma fresh_read_insert_below L h l o : forall fuel l0,
  fresh_chain L h l0 -> l < L ->
  tf_read fuel (<[l := o]> h) l0 = tf_read fuel h l0.
Proof.
  induction fuel as [|f IH]; intros l0 Hf Hl; [reflexivity|]. simpl.
  pose proof (fresh_chain_ge _ _ _ Hf) as Hge.
  rewrite list_lookup_insert_ne by lia.
  destruct (h !! l0) as [o0|] eqn:Ho; [|reflexivity].
  destruct (o_nested o0) as [n|] eqn:En; [|reflexivity].
  rewrite IH; [reflexivity| |exact Hl].
  exact (fresh_chain_nested _ _ _ _ Hf Ho n En).
Qed.

Lemma fresh_ref_insert_below L h l o r :
  fresh_ref L h r -> l < L ->
  ref_value (<[l := o]> h) r = ref_value h r.
Proof.
  intros Hf Hl. destruct r as [l0|]; [|reflexivity]. simpl.
  unfold tf_value. rewrite length_insert.
  now rewrite (fresh_read_insert_below L) by auto.
Qed.

Lemma old_ref_insert_above (h0 h : Heap) l o r :
  heap_wf h0 -> h0 `prefix_of` h -> length h0 <= l -> ref_valid h0 r ->
  ref_value (<[l := o]> h) r = ref_value h0 r.
Proof.
  intros Hwf Hp Hl Hr. destruct r as [l0|]; [|reflexivity]. simpl.
  specialize (Hr l0 eq_refl).
  rewrite (tf_value_agree h0 (<[l := o]> h) (length h0)); auto.
  - intros x Hx. rewrite list_lookup_insert_ne by lia.
    destruct (lookup_lt_is_Some_2 _ _ Hx) as [ox Hox]. rewrite Hox.
    exact (prefix_lookup_Some _ _ _ _ Hox Hp).
  - rewrite length_insert. now apply prefix_length.
Qed.

(** X3: no key object is shared between what [_create_new_module] makes
    and what was there.  On a store whose key objects are nested in
    objects allocated before them, for every vertex [b] the call puts
    into the store (appended, or written over the vertex of its slot):
    no object is held both by [b] and by a block whose references were
    valid before the call; writing any object that existed before the
    call does not change what the references of [b] read; and writing
    any object allocated during the call does not change what a
    reference that was valid before the call reads. *)
Theorem clones_share_no_key_object
    (render : TerraformBlock -> PyKey -> option PyKey ->
              list (string * Statement) * list (string * Statement) ->
              list (string * Statement) * list (string * Statement))
    (fuel : nat) (main_resource : TerraformBlock) (new_value : PyKey)
    (resource_idx foreach_idx : nat) (new_key : option PyKey) (s : Store) :
  heap_wf (heap s) ->
  let s' := snd (_create_new_module render fuel main_resource new_value
                                    resource_idx foreach_idx new_key s) in
  (forall j b, vertices s' !! j = Some b -> vertices s !! j <> Some b ->
     (forall b0 l, block_ok (heap s) b0 -> holds (heap s') b l ->
                   ~ holds (heap s') b0 l) /\
     (forall l o, l < length (heap s) ->
        ref_value (<[l := o]> (heap s')) (source_module_object b)
        = ref_value (heap s') (source_module_object b) /\
        ref_value (<[l := o]> (heap s')) (resolved_module_entry b)
        = ref_value (heap s') (resolved_module_entry b))) /\
  (forall l o r, length (heap s) <= l -> ref_valid (heap s) r ->
     ref_value (<[l := o]> (heap s')) r = ref_value (heap s) r).
Proof.
  intros Hwf s'.
  destruct (clone_refers_only_to_new_objects_aux render fuel main_resource
              new_value resource_idx foreach_idx new_key s) as [Hp Hv].
  fold s' in Hp, Hv. split.
  - intros j b Hb Hne. destruct (Hv j b Hb) as [Hold|Hf]; [contradiction|].
    split.
    + intros b0 l [Hsmo Hres] (x & Hx & Hrx) (y & Hy & Hry).
      pose proof (proj1 (block_fresh_refs _ _ _) Hf x Hx) as Hfx.
      pose proof (fresh_chain_reaches _ _ _ _ Hfx Hrx) as Hge.
      assert (Hyl : y < length (heap s)).
      { unfold refs_of in Hy. apply in_app_or in Hy as [Hy|Hy].
        - destruct (source_module_object b0) as [z|]; simpl in Hy; [|tauto].
          destruct Hy as [<-|[]]. now apply Hsmo.
        - destruct (resolved_module_entry b0) as [z|]; simpl in Hy; [|tauto].
          destruct Hy as [<-|[]]. now apply Hres. }
      pose proof (old_reaches _ _ _ _ Hwf Hp Hyl Hry). lia.
    + intros l o Hl. destruct Hf as [F1 F2].
      split; eapply fresh_ref_insert_below; eauto.
  - intros l o r Hl Hr. now apply old_ref_insert_above.
Qed.

Lemma clones_share_no_key_object_witness :
  let main := Examples.module_block "main.tf" "m" [] None [] in
  let s := Examples.plain in
  let s' := snd (_create_new_module Examples.render_nothing 3 main (PyInt 1)
                                    0 1 None s) in
  (forall j b, vertices s' !! j = Some b -> vertices s !! j <> Some b ->
     (forall b0 l, block_ok (heap s) b0 -> holds (heap s') b l ->
                   ~ holds (heap s') b0 l) /\
     (forall l o, l < length (heap s) ->
        ref_value (<[l := o]> (heap s')) (source_module_object b)
        = ref_value (heap s') (source_module_object b) /\
        ref_value (<[l := o]> (heap s')) (resolved_module_entry b)
        = ref_value (heap s') (resolved_module_entry b))) /\
  (forall l o r, length (heap s) <= l -> ref_valid (heap s) r ->
     ref_value (<[l := o]> (heap s')) r = ref_value (heap s) r).
Proof.
  cbn zeta.
  apply (clones_share_no_key_object Examples.render_nothing 3
           (Examples.module_block "main.tf" "m" [] None []) (PyInt 1)
           0 1 None Examples.plain).
  intros l o n H Hn. destruct l as [|l]; simpl in H.
  - inversion H; subst. discriminate.
  - rewrite lookup_nil in H. discriminate.
Defined.

(** ** A count that is not positive *)

(** X4: [_create_new_resources_count] with an integer count that is zero
    or negative makes no clone and walks no child: for a block index of
    the graph it returns with the store as it was, so the module block
    stays in the graph as a single block; for a block index outside the
    graph it raises [IndexError], the store being as it was. *)
Theorem count_not_positive_expands_nothing
    (render : TerraformBlock -> PyKey -> option PyKey ->
              list (string * Statement) * list (string * Statement) ->
              list (string * Statement) * list (string * Statement))
    (fuel : nat) (n : Z) (block_idx : nat) (s : Store) :
  (n <= 0)%Z ->
  _create_new_resources_count render fuel (SInt n) block_idx s
  = if decide (block_idx < length (vertices s))
    then (Ok tt, s) else (Raise IndexError, s).
Proof.
  intros Hn. unfold _create_new_resources_count, bind at 1, vertex.
  destruct (decide (block_idx < length (vertices s))) as [Hi|Hi].
  - destruct (lookup_lt_is_Some_2 _ _ Hi) as [b ->].
    assert (E : Z.to_nat n = 0) by lia.
    unfold py_range. rewrite E. reflexivity.
  - rewrite (proj2 (lookup_ge_None _ _)) by lia. reflexivity.
Qed.

Lemma count_not_positive_expands_nothing_witness :
  _create_new_resources_count Examples.render_nothing 5 (SInt (-2)) 0
                              Examples.plain
  = (Ok tt, Examples.plain) /\
  _create_new_resources_count Examples.render_nothing 5 (SInt 0) 7
                              Examples.plain
  = (Raise IndexError, Examples.plain).
Proof.
  split.
  - apply (count_not_positive_expands_nothing Examples.render_nothing 5
             (-2) 0 Examples.plain). lia.
  - apply (count_not_positive_expands_nothing Examples.render_nothing 5
             0 7 Examples.plain). lia.
Defined.

(** ** The next level is read under the first key only *)

(** X5: of the keys in [current_level], [_get_modules_to_render] uses the
    first one only: whenever it returns for a level [c :: rest], what it
    returns, the modules to render next and the new level, is what it
    returns for the level [[c]] alone.  On an empty level it raises
    [IndexError]. *)
Theorem next_level_follows_first_key_only
    (c : option loc) (rest : list (option loc)) (s : Store)
    (r : list nat * list (option loc)) (s' : Store) :
  _get_modules_to_render (c :: rest) s = (Ok r, s') ->
  fst (_get_modules_to_render [c] s) = Ok r /\
  fst (_get_modules_to_render [] s) = Raise IndexError.
Proof.
  intros H. split; [|reflexivity].
  unfold _get_modules_to_render in *.
  apply bind_inv_ok in H as (all & s1 & H1 & H).
  apply modules_of_level_spec in H1 as [-> HF].
  inversion HF as [|c0 ms cl others Hlm HF']; subst.
  destruct Hlm as (k & Hk & Hms).
  assert (E : modules_of_level [c] s = (Ok [ms], s)).
  { unfold modules_of_level. simpl. unfold bind, key_of, dict_read, ret.
    rewrite Hk. simpl. now rewrite Hms. }
  rewrite (bind_ok _ _ _ _ _ E). now rewrite H.
Qed.

Lemma next_level_follows_first_key_only_witness :
  fst (_get_modules_to_render [None; Some 0] Examples.nested)
  = Ok ([1], [Some 2]) /\
  fst (_get_modules_to_render [None] Examples.nested) = Ok ([1], [Some 2]) /\
  fst (_get_modules_to_render [] Examples.nested) = Raise IndexError.
Proof.
  split; [vm_compute; reflexivity|].
  apply (next_level_follows_first_key_only None [Some 0] Examples.nested
           ([1], [Some 2])
           (snd (_get_modules_to_render [None; Some 0] Examples.nested))).
  vm_compute. reflexivity.
Defined.

(** ** Key objects keep their identity *)

(** [evolves h h']: every object of [h] is in [h'], at its place, with
    its path, its name and its nesting; only its [foreach_idx] may
    differ. *)
Definition evolves (h h' : Heap) : Prop :=
  length h <= length h' /\
  forall l o, h !! l = Some o ->
    exists o', h' !! l = Some o' /\ o_path o' = o_path o /\
               o_name o' = o_name o /\ o_nested o' = o_nested o.

Definition heap_evolves {A} (m : M A) : Prop :=
  forall s, evolves (heap s) (heap (snd (m s))).

Lemma evolves_refl h : evolves h h.
Proof. split; [lia|]. intros l o Ho. exists o. auto. Qed.

Lemma evolves_trans h1 h2 h3 : evolves h1 h2 -> evolves h2 h3 -> evolves h1 h3.
Proof.
  intros [L1 S1] [L2 S2]. split; [lia|]. intros l o Ho.
  destruct (S1 l o Ho) as (o' & Ho' & ? & ? & ?).
  destruct (S2 l o' Ho') as (o'' & Ho'' & ? & ? & ?).
  exists o''. repeat split; congruence.
Qed.

Lemma evolves_prefix h h' : h `prefix_of` h' -> evolves h h'.
Proof.
  intros Hp. split; [now apply prefix_length|]. intros l o Ho.
  exists o. split; [|auto]. exact (prefix_lookup_Some _ _ _ _ Ho Hp).
Qed.

Lemma heap_evolves_ret {A} (a : A) : heap_evolves (ret a).
Proof. intros s. apply evolves_refl. Qed.

Lemma heap_evolves_raise {A} e : heap_evolves (raise e : M A).
Proof. intros s. apply evolves_refl. Qed.

Lemma heap_evolves_out_of_fuel {A} : heap_evolves (out_of_fuel : M A).
Proof. intros s. apply evolves_refl. Qed.

Lemma heap_evolves_bind {A B} (m : M A) (f : A -> M B) :
  heap_evolves m -> (forall a, heap_evolves (f a)) -> heap_evolves (bind m f).
Proof.
  intros Hm Hf s. specialize (Hm s). unfold bind.
  destruct (m s) as [[a|e|] s1]; simpl in *; auto.
  eapply evolves_trans; [exact Hm|apply Hf].
Qed.

Lemma heap_evolves_for {A} (l : list A) (body : A -> M unit) :
  (forall x, heap_evolves (body x)) -> heap_evolves (py_for l body).
Proof.
  intros Hb. induction l as [|x r IH]; simpl; [apply heap_evolves_ret|].
  apply heap_evolves_bind; [apply Hb|]. intros ?. exact IH.
Qed.

Lemma heap_evolves_fold {A B} (l : list A) (body : B -> A -> M B) :
  (forall acc x, heap_evolves (body acc x)) ->
  forall acc, heap_evolves (for_fold l acc body).
Proof.
  intros Hb. induction l as [|x r IH]; intros acc; simpl;
    [apply heap_evolves_ret|].
  apply heap_evolves_bind; [apply Hb|]. intros ?. apply IH.
Qed.

Lemma heap_evolves_allocates {A} (m : M A) :
  allocates_only m -> heap_evolves m.
Proof. intros Hm s. apply evolves_prefix. now destruct (Hm s). Qed.

Lemma heap_evolves_same {A} (m : M A) :
  (forall s, heap (snd (m s)) = heap s) -> heap_evolves m.
Proof. intros Hm s. rewrite Hm. apply evolves_refl. Qed.

Lemma heap_evolves_vertices_append b : heap_evolves (vertices_append b).
Proof. now apply heap_evolves_same. Qed.

Lemma heap_evolves_vertices_set i b : heap_evolves (vertices_set i b).
Proof.
  apply heap_evolves_same. intros s. unfold vertices_set.
  now destruct (decide _).
Qed.

Lemma heap_evolves_vertices_len : heap_evolves vertices_len.
Proof. now apply heap_evolves_same. Qed.

Lemma heap_evolves_get_store : heap_evolves get_store.
Proof. now apply heap_evolves_same. Qed.

Lemma heap_evolves_dict_read k : heap_evolves (dict_read k).
Proof. now apply heap_evolves_same. Qed.

Lemma heap_evolves_dict_contains k : heap_evolves (dict_contains k).
Proof. now apply heap_evolves_same. Qed.

Lemma heap_evolves_assign_foreach_idx l idx :
  heap_evolves (assign_foreach_idx l idx).
Proof.
  intros s. unfold assign_foreach_idx.
  destruct (heap s !! l) as [o|] eqn:Ho; [|apply evolves_refl]. simpl.
  destruct (assign_foreach_idx_ok l idx s (lookup_lt_Some _ _ _ Ho))
    as (o' & Ho' & _ & [Hlen Hsh]).
  rewrite Ho in Ho'. inversion Ho'; subst o'.
  split; [lia|exact Hsh].
Qed.

Lemma heap_evolves_deepcopy_TFModule r : heap_evolves (deepcopy_TFModule r).
Proof.
  intros s. unfold deepcopy_TFModule.
  destruct (copy_ref [] (heap s) r) as [[[m h'] r']|] eqn:E;
    [|apply evolves_refl].
  apply evolves_prefix. exact (grows_copy_ref _ _ _ _ _ _ E).
Qed.

Create HintDb evolves.
#[local] Hint Resolve heap_evolves_ret heap_evolves_raise
  heap_evolves_out_of_fuel heap_evolves_vertices_append
  heap_evolves_vertices_set heap_evolves_vertices_len heap_evolves_get_store
  heap_evolves_dict_read heap_evolves_dict_contains
  heap_evolves_assign_foreach_idx heap_evolves_deepcopy_TFModule : evolves.
#[local] Hint Extern 2 (heap_evolves _) =>
  apply heap_evolves_allocates;
  first [ apply allocates_only_vertex | apply allocates_only_key_of
        | apply allocates_only_tf_object | apply allocates_only_new_TFModule
        | apply allocates_only_dict_assign | apply allocates_only_dict_append
        | apply allocates_only_deepcopy_dict
        | apply allocates_only_deepcopy_block
        | apply allocates_only_source_module_key ] : evolves.

Ltac evolve_step :=
  match goal with
  | |- heap_evolves (bind _ _) => apply heap_evolves_bind; [|intros ?]
  | |- heap_evolves (py_for _ _) => apply heap_evolves_for; intros ?
  | |- heap_evolves (for_fold _ _ _) => apply heap_evolves_fold; intros ? ?
  | |- heap_evolves (if ?c then _ else _) => destruct c
  | |- heap_evolves (match ?x with _ => _ end) => destruct x
  | |- heap_evolves _ => solve [auto with evolves]
  end.

Ltac evolve := repeat evolve_step.

Lemma heap_evolves_update_nested_walk key orig : forall fuel tf,
  heap_evolves (_update_nested_walk fuel key orig tf).
Proof.
  induction fuel as [|f IH]; intros [l|]; cbn [_update_nested_walk]; evolve.
Qed.
#[local] Hint Resolve heap_evolves_update_nested_walk : evolves.

Lemma heap_evolves_update_nested_tf_module_foreach_idx key orig tf :
  heap_evolves (_update_nested_tf_module_foreach_idx key orig tf).
Proof. unfold _update_nested_tf_module_foreach_idx. evolve. Qed.
#[local] Hint Resolve heap_evolves_update_nested_tf_module_foreach_idx
  : evolves.

Lemma heap_evolves_update_resolved_entry child key orig :
  heap_evolves (_update_resolved_entry_for_tf_definition child key orig).
Proof. unfold _update_resolved_entry_for_tf_definition. evolve. Qed.
#[local] Hint Resolve heap_evolves_update_resolved_entry : evolves.

Lemma heap_evolves_add_new_vertices_for_module
    (rec : TerraformBlock -> Members -> nat -> M unit) key value idx :
  (forall b v i, heap_evolves (rec b v i)) ->
  heap_evolves (_add_new_vertices_for_module rec key value idx).
Proof.
  intros Hrec. unfold _add_new_vertices_for_module.
  apply heap_evolves_fold. intros acc [vertex_type vertices_idx].
  evolve.
Qed.

Lemma heap_evolves_create_new_module_with_vertices : forall fuel
    main_resource value resource_idx key,
  heap_evolves (_create_new_module_with_vertices fuel main_resource value
                                                 resource_idx key).
Proof.
  induction fuel as [|f IH]; intros main_resource value resource_idx key;
    cbn [_create_new_module_with_vertices]; evolve.
  apply heap_evolves_add_new_vertices_for_module. intros b v i. apply IH.
Qed.
#[local] Hint Resolve heap_evolves_create_new_module_with_vertices : evolves.

Lemma heap_evolves_create_new_module
    (render : TerraformBlock -> PyKey -> option PyKey ->
              list (string * Statement) * list (string * Statement) ->
              list (string * Statement) * list (string * Statement))
    fuel main_resource new_value resource_idx foreach_idx new_key :
  heap_evolves (_create_new_module render fuel main_resource new_value
                                   resource_idx foreach_idx new_key).
Proof. unfold _create_new_module. cbv zeta. evolve. Qed.
#[local] Hint Resolve heap_evolves_create_new_module : evolves.

Lemma heap_evolves_update_children_foreach_index key orig : forall fuel
    current flag,
  heap_evolves (_update_children_foreach_index fuel key orig current flag).
Proof.
  induction fuel as [|f IH]; intros current flag;
    cbn [_update_children_foreach_index]; evolve.
Qed.
#[local] Hint Resolve heap_evolves_update_children_foreach_index : evolves.

Lemma heap_evolves_update_module_children fuel main_resource key flag :
  heap_evolves (_update_module_children fuel main_resource key flag).
Proof. unfold _update_module_children. evolve. Qed.
#[local] Hint Resolve heap_evolves_update_module_children : evolves.

Section HandleEvolves.
Variable render :
  TerraformBlock -> PyKey -> option PyKey ->
  list (string * Statement) * list (string * Statement) ->
  list (string * Statement) * list (string * Statement).
Variable SubGraph : Type.
Variable build : Store -> list nat -> SubGraph.
Variable resolve : nat -> SubGraph -> Statement.
Variable is_static : nat -> SubGraph -> bool.

Lemma heap_evolves_create_new_resources_count fuel statement block_idx :
  heap_evolves (_create_new_resources_count render fuel statement block_idx).
Proof.
  unfold _create_new_resources_count, py_range. evolve.
Qed.

Lemma heap_evolves_super_create_new_resources_foreach fuel statement
    block_idx :
  heap_evolves (super_create_new_resources_foreach render fuel statement
                                                   block_idx).
Proof.
  unfold super_create_new_resources_foreach, _create_new_foreach_resource.
  apply heap_evolves_bind; [auto with evolves|]. intros main.
  destruct statement; try apply heap_evolves_ret;
    apply heap_evolves_for.
  - intros [i v]. auto with evolves.
  - intros [i [k v]]. auto with evolves.
Qed.

Lemma heap_evolves_create_new_resources_foreach fuel statement block_idx :
  heap_evolves (_create_new_resources_foreach render fuel statement
                                              block_idx).
Proof.
  unfold _create_new_resources_foreach.
  apply heap_evolves_bind; [auto with evolves|]. intros main.
  apply heap_evolves_bind;
    [apply heap_evolves_super_create_new_resources_foreach|]. intros ?.
  destruct statement; try apply heap_evolves_ret;
    apply heap_evolves_for.
  - intros [i v]. auto with evolves.
  - intros [i [k v]]. auto with evolves.
Qed.

Lemma heap_evolves_modules_of_level cl : heap_evolves (modules_of_level cl).
Proof. unfold modules_of_level. evolve. Qed.

Lemma heap_evolves_get_modules_to_render cl :
  heap_evolves (_get_modules_to_render cl).
Proof.
  unfold _get_modules_to_render.
  apply heap_evolves_bind; [apply heap_evolves_modules_of_level|].
  intros [|rendered others]; [apply heap_evolves_raise|].
  apply heap_evolves_bind.
  - apply heap_evolves_fold. intros acc m_idx.
    unfold _get_current_tf_module_object. evolve.
  - intros cl'. apply heap_evolves_bind;
      [apply heap_evolves_modules_of_level|]. intros ?.
    apply heap_evolves_ret.
Qed.

Lemma heap_evolves_render_module fuel sub_graph module_idx :
  heap_evolves (render_module render SubGraph resolve is_static fuel
                              sub_graph module_idx).
Proof.
  unfold render_module, _duplicate_module_with_for_each,
    _duplicate_module_with_count.
  apply heap_evolves_bind; [auto with evolves|]. intros b. cbv zeta.
  repeat match goal with
         | |- heap_evolves (if ?c then _ else _) => destruct c
         end;
    try apply heap_evolves_ret.
  - apply heap_evolves_create_new_resources_foreach.
  - apply heap_evolves_create_new_resources_count.
Qed.

Lemma heap_evolves_render_foreach_modules_by_levels fuel modules_blocks
    modules_to_render current_level :
  heap_evolves (_render_foreach_modules_by_levels render SubGraph build
                  resolve is_static fuel modules_blocks modules_to_render
                  current_level).
Proof.
  unfold _render_foreach_modules_by_levels.
  apply heap_evolves_bind; [apply heap_evolves_get_store|]. intros s0.
  cbv zeta. apply heap_evolves_bind.
  - apply heap_evolves_for. intros i. apply heap_evolves_render_module.
  - intros ?. apply heap_evolves_get_modules_to_render.
Qed.

Lemma heap_evolves_handle_loop modules_blocks : forall fuel modules_to_render
    current_level,
  heap_evolves (handle_loop render SubGraph build resolve is_static fuel
                            modules_blocks modules_to_render current_level).
Proof.
  induction fuel as [|f IH]; intros [|m ms] current_level; simpl;
    try apply heap_evolves_ret; try apply heap_evolves_out_of_fuel.
  apply heap_evolves_bind;
    [apply heap_evolves_render_foreach_modules_by_levels|].
  intros next. apply IH.
Qed.

Lemma heap_evolves_handle fuel modules_blocks :
  heap_evolves (handle render SubGraph build resolve is_static fuel
                       modules_blocks).
Proof.
  unfold handle. destruct modules_blocks as [|x rest];
    [apply heap_evolves_ret|]. cbv zeta.
  apply heap_evolves_bind; [apply heap_evolves_get_store|]. intros s0.
  destruct (dict_get _ _ _); [|apply heap_evolves_raise].
  apply heap_evolves_handle_loop.
Qed.
End HandleEvolves.

(** X6: [handle] never removes a [TFModule] key object and never changes
    the path, the name or the [nested_tf_module] of one: whatever the
    collaborators answer, however many rounds are run and whatever the
    outcome, every key object of the store [handle] was given is in the
    store it leaves, with these three fields as they were.  The one field
    of an existing key object that the handler assigns is [foreach_idx]. *)
Theorem handle_keeps_key_object_identity
    (render : TerraformBlock -> PyKey -> option PyKey ->
              list (string * Statement) * list (string * Statement) ->
              list (string * Statement) * list (string * Statement))
    (SubGraph : Type) (build : Store -> list nat -> SubGraph)
    (resolve : nat -> SubGraph -> Statement)
    (is_static : nat -> SubGraph -> bool)
    (fuel : nat) (modules_blocks : list nat) (s : Store) :
  let s' := snd (handle render SubGraph build resolve is_static fuel
                        modules_blocks s) in
  length (heap s) <= length (heap s') /\
  forall l o, heap s !! l = Some o ->
    exists o', heap s' !! l = Some o' /\ o_path o' = o_path o /\
               o_name o' = o_name o /\ o_nested o' = o_nested o.
Proof.
  exact (heap_evolves_handle render SubGraph build resolve is_static fuel
           modules_blocks s).
Qed.

(** ** Every vertex keeps its slot *)

(** [slots v0 s]: the store has a vertex in every slot of [v0], and the
    vertex in the slot is the block of [v0] or an instance of it (the
    block type and the path of that block, its name followed by instance
    suffixes). *)
Definition slots (v0 : list TerraformBlock) (s : Store) : Prop :=
  length v0 <= length (vertices s) /\
  forall j b0, v0 !! j = Some b0 ->
    exists b, vertices s !! j = Some b /\ descends b b0.

Definition slot_of (v0 : list TerraformBlock) (i : nat)
    (b : TerraformBlock) : Prop :=
  forall b0, v0 !! i = Some b0 -> descends b b0.

Section Slots.
Variable render :
  TerraformBlock -> PyKey -> option PyKey ->
  list (string * Statement) * list (string * Statement) ->
  list (string * Statement) * list (string * Statement).
Variable v0 : list TerraformBlock.
Local Abbreviation J := (slots v0).

Lemma slots_heap s h : J s -> J (with_heap s h).
Proof. now intros H. Qed.

Lemma slots_dict s d : J s -> J (with_dict s d).
Proof. now intros H. Qed.

Lemma slots_append s b : J s -> J (with_vertices s (vertices s ++ [b])).
Proof.
  intros [Hl Hj]. split; simpl.
  - rewrite length_app. lia.
  - intros j b0 Hb0. destruct (Hj j b0 Hb0) as (b' & Hb' & Hd).
    exists b'. split; [now apply lookup_app_l_Some|exact Hd].
Qed.

Lemma slots_set s i b :
  J s -> slot_of v0 i b -> J (with_vertices s (<[i := b]> (vertices s))).
Proof.
  intros [Hl Hj] Hi. split; simpl.
  - now rewrite length_insert.
  - intros j b0 Hb0. destruct (Hj j b0 Hb0) as (b' & Hb' & Hd).
    destruct (decide (j = i)) as [->|Hne].
    + exists b. split; [|now apply Hi].
      apply list_lookup_insert_eq. now apply lookup_lt_Some in Hb'.
    + exists b'. split; [|exact Hd]. now rewrite list_lookup_insert_ne.
Qed.

Lemma slots_vertex i : keeps J (vertex i) (slot_of v0 i).
Proof.
  intros s Hs. unfold vertex.
  destruct (vertices s !! i) as [b|] eqn:E; simpl; (split; [exact Hs|]).
  - intros ? [= <-] b0 Hb0. destruct Hs as [_ Hj].
    destruct (Hj i b0 Hb0) as (b' & Hb' & Hd). congruence.
  - discriminate.
Qed.

Lemma slots_vertices_append b : keeps J (vertices_append b) (fun _ => True).
Proof. intros s Hs. simpl. split; [now apply slots_append|auto]. Qed.

Lemma slots_vertices_set i b :
  slot_of v0 i b -> keeps J (vertices_set i b) (fun _ => True).
Proof.
  intros Hi s Hs. unfold vertices_set.
  destruct (decide _); simpl; [split; [now apply slots_set|auto]|auto].
Qed.

Lemma slots_dict_assign kl v : keeps J (dict_assign kl v) (fun _ => True).
Proof.
  unfold dict_assign.
  eapply keeps_bind; [apply blind_key_of|]. intros k _.
  intros s Hs. simpl. split; [now apply slots_dict|auto].
Qed.

Lemma slots_dict_append kl t i : keeps J (dict_append kl t i) (fun _ => True).
Proof.
  unfold dict_append.
  eapply keeps_bind; [apply blind_key_of|]. intros k _.
  eapply keeps_bind; [apply blind_dict_read|]. intros m _.
  intros s Hs. simpl. split; [now apply slots_dict|auto].
Qed.

(** A block is appended and then completed in place: the slot written
    is the one just appended, which is no slot of [v0]. *)
Lemma slots_append_set_last {B} (nv1 : TerraformBlock)
    (popped : option TerraformBlock)
    (rest : nat -> TerraformBlock -> M B) (Q : B -> Prop) :
  (forall n nv, keeps J (rest n nv) Q) ->
  keeps J (run vertices_append nv1;
           do n <- vertices_len;
           match popped with
           | None => raise KeyError
           | Some nv => run vertices_set (n - 1) nv; rest (n - 1) nv
           end) Q.
Proof.
  intros Hrest s Hs. unfold bind at 1. simpl. unfold bind at 1. simpl.
  pose proof (slots_append s nv1 Hs) as H1.
  destruct popped as [nv|]; [|split; [exact H1|discriminate]].
  refine (keeps_bind J _ _ (fun _ => True) Q _ _ _ H1).
  - apply slots_vertices_set. intros b0 Hb0. exfalso.
    apply lookup_lt_Some in Hb0. destruct Hs as [Hl _].
    rewrite length_app in Hb0. simpl in Hb0. lia.
  - intros _ _. apply Hrest.
Qed.

Lemma slots_add_new_vertices_for_module
    (rec : TerraformBlock -> Members -> nat -> M unit) key value idx :
  (forall b v i, keeps J (rec b v i) (fun _ => True)) ->
  keeps J (_add_new_vertices_for_module rec key value idx) (fun _ => True).
Proof.
  intros Hrec. unfold _add_new_vertices_for_module.
  apply keeps_fold with (P := fun _ => True); [|exact Logic.I].
  intros acc [vertex_type vertices_idx] _ _.
  apply keeps_fold with (P := fun _ => True); [|exact Logic.I].
  intros acc' vertex_idx _ _.
  eapply keeps_bind; [apply blind_vertex|]. intros module_vertex _.
  eapply keeps_bind; [apply blind_deepcopy_block, slots_heap|].
  intros new_vertex0 _.
  apply (slots_append_set_last _ _
           (fun i nv =>
              if BlockType_eqb vertex_type MODULE
              then do module_vertex_key <-
                      new_TFModule (path module_vertex) (name module_vertex)
                        (source_module_object module_vertex)
                        (for_each_index module_vertex);
                   do k <- key_of (Some module_vertex_key);
                   do module_vertex_value <- dict_read k;
                   run rec nv module_vertex_value i;
                   ret (members_append acc' vertex_type i)
              else ret (members_append acc' vertex_type i))).
  intros n nv. destruct (BlockType_eqb vertex_type MODULE);
    [|now apply keeps_ret].
  eapply keeps_bind; [apply blind_new_TFModule, slots_heap|]. intros mk _.
  eapply keeps_bind; [apply blind_key_of|]. intros k _.
  eapply keeps_bind; [apply blind_dict_read|]. intros mv _.
  eapply keeps_bind; [apply Hrec|]. intros _ _. now apply keeps_ret.
Qed.

Lemma slots_create_new_module_with_vertices fuel :
  forall main_resource value resource_idx key,
    keeps J (_create_new_module_with_vertices fuel main_resource value
                                              resource_idx key)
          (fun _ => True).
Proof.
  induction fuel as [|f IH]; intros main_resource value resource_idx key;
    simpl; [apply keeps_out_of_fuel|].
  eapply keeps_bind with (Q := fun _ => True).
  { destruct key; [now apply keeps_ret|].
    eapply keeps_bind; [apply blind_deepcopy_block, slots_heap|].
    intros nr _. apply blind_new_TFModule, slots_heap. }
  intros k _.
  eapply keeps_bind; [apply blind_vertices_len|]. intros n _.
  eapply keeps_bind; [apply blind_vertex|]. intros ov _.
  eapply keeps_bind with (Q := fun _ => True).
  { destruct (source_module_object ov); [|now apply keeps_ret].
    eapply keeps_bind; [apply blind_tf_object|]. intros o _.
    eapply keeps_bind; [apply blind_new_TFModule, slots_heap|].
    intros k' _. now apply keeps_ret. }
  intros smk _.
  eapply keeps_bind; [apply slots_dict_append|]. intros _ _.
  eapply keeps_bind.
  - apply slots_add_new_vertices_for_module. intros b v i. apply IH.
  - intros nv _. apply slots_dict_assign.
Qed.

Lemma slots_create_new_module fuel main_resource new_value resource_idx
    foreach_idx new_key :
  slot_of v0 resource_idx main_resource ->
  keeps J (_create_new_module render fuel main_resource new_value
                              resource_idx foreach_idx new_key)
        (fun _ => True).
Proof.
  intros Hmain. unfold _create_new_module.
  eapply keeps_bind.
  { eapply keeps_weaken; [apply blind_deepcopy_block, slots_heap|].
    intros b' H. exact H. }
  intros nr0 (smo & res & ->).
  assert (Hnr0 : same_block (set_refs main_resource smo res) main_resource)
    by now repeat split.
  pose proof (clone_descends main_resource _
                (render main_resource new_value new_key
                   (config (set_refs main_resource smo res),
                    attributes (set_refs main_resource smo res)))
                (py_or new_key new_value) Hnr0) as Hd.
  eapply keeps_bind; [apply blind_new_TFModule, slots_heap|]. intros mk _.
  eapply keeps_bind; [apply blind_deepcopy_dict|]. intros cp _.
  eapply keeps_bind; [apply blind_key_of|]. intros k _.
  eapply keeps_bind; [apply blind_new_TFModule, slots_heap|]. intros nk _.
  eapply keeps_bind;
    [apply blind_update_resolved_entry_for_tf_definition, slots_heap|].
  intros _ _.
  destruct (negb _).
  - eapply keeps_bind; [apply slots_vertices_append|]. intros _ _.
    apply slots_create_new_module_with_vertices.
  - eapply keeps_bind.
    { apply slots_vertices_set. intros b0 Hb0.
      eapply descends_trans; [exact Hd|now apply Hmain]. }
    intros _ _.
    eapply keeps_bind; [apply blind_deepcopy_TFModule, slots_heap|].
    intros [l|] _; [|apply keeps_raise].
    eapply keeps_bind; [apply blind_assign_foreach_idx, slots_heap|].
    intros _ _. apply slots_dict_assign.
Qed.
End Slots.

Section SlotsScheduler.
Variable render :
  TerraformBlock -> PyKey -> option PyKey ->
  list (string * Statement) * list (string * Statement) ->
  list (string * Statement) * list (string * Statement).
Variable SubGraph : Type.
Variable build : Store -> list nat -> SubGraph.
Variable resolve : nat -> SubGraph -> Statement.
Variable is_static : nat -> SubGraph -> bool.
Variable v0 : list TerraformBlock.
Local Abbreviation J := (slots v0).

Lemma slots_create_new_resources_count fuel statement block_idx :
  keeps J (_create_new_resources_count render fuel statement block_idx)
        (fun _ => True).
Proof.
  unfold _create_new_resources_count.
  eapply keeps_bind; [apply slots_vertex|]. intros main_resource Hm.
  eapply keeps_bind with (Q := fun _ => True).
  { destruct statement; try apply keeps_raise. now apply keeps_ret. }
  intros r _.
  eapply keeps_bind with (Q := fun _ => True).
  { apply keeps_for. intros i _. now apply slots_create_new_module. }
  intros _ _.
  eapply keeps_bind with (Q := fun _ => True).
  { destruct statement; try apply keeps_raise. now apply keeps_ret. }
  intros r' _. apply keeps_for. intros i _.
  apply blind_update_module_children, slots_heap.
Qed.

Lemma slots_create_new_resources_foreach fuel statement block_idx :
  keeps J (_create_new_resources_foreach render fuel statement block_idx)
        (fun _ => True).
Proof.
  unfold _create_new_resources_foreach.
  eapply keeps_bind; [apply blind_vertex|]. intros main_resource _.
  eapply keeps_bind with (Q := fun _ => True).
  { unfold super_create_new_resources_foreach.
    eapply keeps_bind; [apply slots_vertex|]. intros mr Hmr.
    destruct statement; try (now apply keeps_ret).
    - apply keeps_for. intros [i v] _.
      now apply slots_create_new_module.
    - apply keeps_for. intros [i [k v]] _.
      now apply slots_create_new_module. }
  intros _ _.
  destruct statement; try (now apply keeps_ret).
  - apply keeps_for. intros [i v] _.
    apply blind_update_module_children, slots_heap.
  - apply keeps_for. intros [i [k v]] _.
    apply blind_update_module_children, slots_heap.
Qed.

Lemma slots_render_module fuel sub_graph module_idx :
  keeps J (render_module render SubGraph resolve is_static fuel sub_graph
                         module_idx) (fun _ => True).
Proof.
  unfold render_module.
  eapply keeps_bind; [apply blind_vertex|]. intros b _.
  destruct (stmt_truthy _).
  - destruct (negb _); [now apply keeps_ret|].
    apply slots_create_new_resources_foreach.
  - destruct (stmt_truthy _); [|now apply keeps_ret].
    destruct (negb _); [now apply keeps_ret|].
    apply slots_create_new_resources_count.
Qed.

Lemma slots_render_foreach_modules_by_levels fuel modules_blocks
    modules_to_render current_level :
  keeps J (_render_foreach_modules_by_levels render SubGraph build resolve
             is_static fuel modules_blocks modules_to_render current_level)
        (fun _ => True).
Proof.
  unfold _render_foreach_modules_by_levels.
  eapply keeps_bind; [apply blind_get_store|]. intros s0 _.
  eapply keeps_bind with (Q := fun _ => True).
  { apply keeps_for. intros i Hi. apply slots_render_module. }
  intros _ _. apply blind_get_modules_to_render, slots_heap.
Qed.

Lemma slots_handle_loop modules_blocks : forall fuel modules_to_render
    current_level,
  keeps J (handle_loop render SubGraph build resolve is_static fuel
                       modules_blocks modules_to_render current_level)
        (fun _ => True).
Proof.
  induction fuel as [|f IH]; intros [|m ms] current_level; simpl;
    try (now apply keeps_ret); try apply keeps_out_of_fuel.
  eapply keeps_bind; [apply slots_render_foreach_modules_by_levels|].
  intros next _. apply IH.
Qed.

Lemma slots_handle fuel modules_blocks :
  keeps J (handle render SubGraph build resolve is_static fuel
                  modules_blocks) (fun _ => True).
Proof.
  unfold handle. destruct modules_blocks as [|x rest];
    [now apply keeps_ret|].
  eapply keeps_bind; [apply blind_get_store|]. intros s0 _.
  destruct (dict_get _ _ _); [|apply keeps_raise].
  apply slots_handle_loop.
Qed.
End SlotsScheduler.

Lemma slots_refl s : slots (vertices s) s.
Proof.
  split; [lia|]. intros j b0 Hb0. exists b0. split; [exact Hb0|].
  apply descends_refl.
Qed.

(** X7: [handle] never removes a vertex and never moves one: whatever
    the collaborators answer, however many rounds are run and whatever
    the outcome, every slot of the vertex list [handle] was given holds,
    in the store it leaves, the block that was there or an instance of
    it, that is a block of the same block type and the same path whose
    name is the name that was there followed by instance suffixes. *)
Theorem handle_keeps_every_vertex_in_its_slot
    (render : TerraformBlock -> PyKey -> option PyKey ->
              list (string * Statement) * list (string * Statement) ->
              list (string * Statement) * list (string * Statement))
    (SubGraph : Type) (build : Store -> list nat -> SubGraph)
    (resolve : nat -> SubGraph -> Statement)
    (is_static : nat -> SubGraph -> bool)
    (fuel : nat) (modules_blocks : list nat) (s : Store) :
  let s' := snd (handle render SubGraph build resolve is_static fuel
                        modules_blocks s) in
  length (vertices s) <= length (vertices s') /\
  forall j b0, vertices s !! j = Some b0 ->
    exists b, vertices s' !! j = Some b /\
              block_type b = block_type b0 /\ path b = path b0 /\
              exists suffix, name b = (name b0 ++ suffix)%string.
Proof.
  intros s'.
  destruct (slots_handle render SubGraph build resolve is_static (vertices s)
              fuel modules_blocks s (slots_refl s)) as [[Hl Hj] _].
  split; [exact Hl|]. intros j b0 Hb0.
  destruct (Hj j b0 Hb0) as (b & Hb & Ht & Hp & Hn).
  exists b. auto.
Qed.

(** ** One instance for every index of a count *)

Lemma vertices_kept_of_blind {A} (m : M A) :
  (forall I : Store -> Prop, (forall s h, I s -> I (with_heap s h)) ->
                             keeps I m (fun _ => True)) ->
  forall s, vertices (snd (m s)) = vertices s.
Proof.
  intros H s.
  destruct (H (fun st => vertices st = vertices s) (fun s0 h E => E) s
              eq_refl) as [E _].
  exact E.
Qed.

Lemma vertices_kept_step {A} (m : M A) s r s' :
  (forall s, vertices (snd (m s)) = vertices s) -> m s = (r, s') ->
  vertices s' = vertices s.
Proof. intros H E. specialize (H s). now rewrite E in H. Qed.

(** [b] is the instance [idx] of [main]. *)
Definition instance_of (main : TerraformBlock) (idx : PyKey)
    (b : TerraformBlock) : Prop :=
  block_type b = block_type main /\ path b = path main /\
  name b = name (_update_block_name_and_id main idx) /\
  for_each_index b = Some idx.

(** What a call of [_create_new_module] that returns has done to the
    vertices. *)
Lemma create_new_module_returns
    (render : TerraformBlock -> PyKey -> option PyKey ->
              list (string * Statement) * list (string * Statement) ->
              list (string * Statement) * list (string * Statement))
    fuel main_resource new_value resource_idx foreach_idx new_key s s' :
  _create_new_module render fuel main_resource new_value resource_idx
                     foreach_idx new_key s = (Ok tt, s') ->
  exists clone,
    instance_of main_resource (py_or new_key new_value) clone /\
    (foreach_idx = 0 ->
     resource_idx < length (vertices s) /\
     vertices s' = <[resource_idx := clone]> (vertices s)) /\
    (foreach_idx <> 0 ->
     (vertices s ++ [clone]) `prefix_of` vertices s').
Proof.
  unfold _create_new_module. cbv zeta. intros H.
  apply bind_inv_ok in H as (nr0 & s1 & H1 & H).
  pose proof (allocates_only_step _ _ _ _
                (allocates_only_deepcopy_block _) H1) as V1.
  destruct (deepcopy_block_fresh 0 _ _ _ _ (Nat.le_0_l _) H1)
    as (_ & (Ht & Hp & Hn & _) & _).
  apply bind_inv_ok in H as (mk & s2 & H2 & H).
  pose proof (allocates_only_step _ _ _ _
                (allocates_only_new_TFModule _ _ _ _) H2) as V2.
  apply bind_inv_ok in H as (cp & s3 & H3 & H).
  pose proof (allocates_only_step _ _ _ _ allocates_only_deepcopy_dict H3)
    as V3.
  apply bind_inv_ok in H as (k & s4 & H4 & H).
  pose proof (allocates_only_step _ _ _ _ (allocates_only_key_of _) H4) as V4.
  apply bind_inv_ok in H as (nk & s5 & H5 & H).
  pose proof (allocates_only_step _ _ _ _
                (allocates_only_new_TFModule _ _ _ _) H5) as V5.
  apply bind_inv_ok in H as ([] & s6 & H6 & H).
  pose proof (vertices_kept_step _ _ _ _
                (vertices_kept_of_blind _
                   (fun I HI =>
                      blind_update_resolved_entry_for_tf_definition I HI
                        _ _ _)) H6) as V6.
  assert (V : vertices s6 = vertices s) by congruence.
  match type of H with
  | context [vertices_append ?c] => set (clone := c) in *
  end.
  exists clone. split.
  { unfold clone, instance_of, _update_block_name_and_id. simpl.
    rewrite Hn. auto. }
  destruct (Nat.eqb foreach_idx 0) eqn:E0; simpl in H.
  - apply Nat.eqb_eq in E0. split; [intros _|intros; contradiction].
    apply bind_inv_ok in H as ([] & s7 & H7 & H).
    unfold vertices_set in H7.
    destruct (decide (resource_idx < length (vertices s6))) as [Hi|Hi];
      [|discriminate].
    inversion H7; subst s7; clear H7.
    apply bind_inv_ok in H as (kc & s8 & H8 & H).
    pose proof (vertices_kept_step _ _ _ _
                  (vertices_kept_of_blind _
                     (fun I HI => blind_deepcopy_TFModule I HI _)) H8) as V8.
    destruct kc as [l|]; [|discriminate].
    apply bind_inv_ok in H as ([] & s9 & H9 & H).
    pose proof (vertices_kept_step _ _ _ _
                  (vertices_kept_of_blind _
                     (fun I HI => blind_assign_foreach_idx I HI _ _)) H9)
      as V9.
    pose proof (allocates_only_step _ _ _ _
                  (allocates_only_dict_assign _ _) H) as V10.
    rewrite V in Hi. split; [exact Hi|].
    rewrite V10, V9, V8. simpl. now rewrite V.
  - apply Nat.eqb_neq in E0. split; [intros; contradiction|intros _].
    apply bind_inv_ok in H as ([] & s7 & H7 & H).
    inversion H7; subst s7; clear H7.
    apply create_new_module_with_vertices_appends in H.
    unfold appends in H. simpl in H. now rewrite V in H.
Qed.

Lemma py_for_ok_inv {A} (l : list A) (body : A -> M unit)
    (R : Store -> Store -> Prop) (P : A -> Store -> Store -> Prop) :
  (forall s, R s s) -> (forall s1 s2 s3, R s1 s2 -> R s2 s3 -> R s1 s3) ->
  (forall x s s1 s', P x s s1 -> R s1 s' -> P x s s') ->
  (forall x s0 s s', R s0 s -> R s s' -> P x s s' -> P x s0 s') ->
  (forall x s s', In x l -> body x s = (Ok tt, s') -> R s s' /\ P x s s') ->
  forall s s', py_for l body s = (Ok tt, s') ->
    R s s' /\ forall x, In x l -> P x s s'.
Proof.
  intros Rrefl Rtrans Plater Pearlier.
  induction l as [|x r IH]; intros Hb s s' H; simpl in H.
  - inversion H; subst. split; [apply Rrefl|]. intros ? [].
  - apply bind_inv_ok in H as ([] & s1 & H1 & H).
    destruct (Hb x s s1 (or_introl eq_refl) H1) as [R1 P1].
    destruct (IH (fun y s0 s0' Hy => Hb y s0 s0' (or_intror Hy)) s1 s' H)
      as [R2 P2].
    split; [eapply Rtrans; eauto|].
    intros y [<-|Hy]; [eapply Plater; eauto|].
    eapply Pearlier; eauto.
Qed.

Lemma py_for_grows {A} (l : list A) (body : A -> M unit) :
  (forall x s s', In x l -> body x s = (Ok tt, s') ->
                  length (vertices s) + 1 <= length (vertices s')) ->
  forall s s', py_for l body s = (Ok tt, s') ->
    length (vertices s) + length l <= length (vertices s').
Proof.
  induction l as [|x r IH]; intros Hb s s' H; simpl in H.
  - inversion H; subst. simpl. lia.
  - apply bind_inv_ok in H as ([] & s1 & H1 & H).
    pose proof (Hb x s s1 (or_introl eq_refl) H1).
    pose proof (IH (fun y s0 s0' Hy => Hb y s0 s0' (or_intror Hy)) s1 s' H).
    simpl. lia.
Qed.

(** X8: when [_create_new_resources_count] returns for a count [n], the
    graph holds one instance of the module for every index below [n]: a
    block with the block type and the path of the module, the name the
    module gets for that index and that index as its [for_each_index].
    Instance 0 is in the slot of the module; every other instance is in
    a slot appended by the call; and the vertex list has grown by at
    least [n - 1]. *)
Theorem count_makes_one_instance_per_index
    (render : TerraformBlock -> PyKey -> option PyKey ->
              list (string * Statement) * list (string * Statement) ->
              list (string * Statement) * list (string * Statement))
    (fuel n block_idx : nat) (main : TerraformBlock) (s s' : Store) :
  vertices s !! block_idx = Some main ->
  _create_new_resources_count render fuel (SInt (Z.of_nat n)) block_idx s
  = (Ok tt, s') ->
  length (vertices s) + (n - 1) <= length (vertices s') /\
  forall i, i < n ->
    exists j b, vertices s' !! j = Some b /\
                instance_of main (PyInt (Z.of_nat i)) b /\
                (i = 0 -> j = block_idx) /\
                (i <> 0 -> length (vertices s) <= j).
Proof.
  intros Hmain H. unfold _create_new_resources_count in H.
  apply bind_inv_ok in H as (mr & s0 & H0 & H).
  unfold vertex in H0. rewrite Hmain in H0. inversion H0; subst mr s0.
  clear H0.
  apply bind_inv_ok in H as (r & s0 & H0 & H).
  simpl in H0. rewrite Nat2Z.id in H0. inversion H0; subst r s0. clear H0.
  apply bind_inv_ok in H as ([] & s1 & Hloop & H).
  apply bind_inv_ok in H as (r & s2 & H0 & H).
  simpl in H0. rewrite Nat2Z.id in H0. inversion H0; subst r s2. clear H0.
  assert (V : vertices s' = vertices s1).
  { destruct (keeps_for (fun st => vertices st = vertices s1) (seq 0 n)
                (fun i => _update_module_children fuel main
                            (PyInt (Z.of_nat i)) (should_override i))
                (fun i _ => blind_update_module_children
                              (fun st => vertices st = vertices s1)
                              (fun s0 h E => E) fuel main _ _)
                s1 eq_refl) as [E _].
    now rewrite H in E. }
  rewrite V. clear H V s'.
  destruct n as [|m].
  { simpl in Hloop. inversion Hloop; subst. split; [lia|]. intros i Hi. lia. }
  change (seq 0 (S m)) with (0 :: seq 1 m) in Hloop. simpl in Hloop.
  apply bind_inv_ok in Hloop as ([] & sa & Ha & Hloop).
  destruct (create_new_module_returns _ _ _ _ _ _ _ _ _ Ha)
    as (clone0 & Hi0 & Hov & _).
  destruct (Hov eq_refl) as [Hlt Hva]. clear Hov.
  assert (Hla : length (vertices sa) = length (vertices s))
    by (rewrite Hva; apply length_insert).
  assert (Hgrow : length (vertices sa) + length (seq 1 m)
                  <= length (vertices s1)).
  { refine (py_for_grows _ _ _ sa s1 Hloop). intros i st st' Hi Hb.
    destruct (create_new_module_returns _ _ _ _ _ _ _ _ _ Hb)
      as (c & _ & _ & Happ).
    apply in_seq in Hi. specialize (Happ ltac:(lia)).
    apply prefix_length in Happ. rewrite length_app in Happ.
    simpl in Happ. exact Happ. }
  rewrite length_seq in Hgrow.
  assert (HPR : appends sa s1 /\
                forall i, In i (seq 1 m) ->
                  exists j b, length (vertices sa) <= j /\
                              vertices s1 !! j = Some b /\
                              instance_of main (PyInt (Z.of_nat i)) b).
  { refine (py_for_ok_inv _ _ appends
              (fun i st st' =>
                 exists j b, length (vertices st) <= j /\
                             vertices st' !! j = Some b /\
                             instance_of main (PyInt (Z.of_nat i)) b)
              _ _ _ _ _ sa s1 Hloop).
    - intros st. unfold appends. reflexivity.
    - intros st1 st2 st3 R1 R2. unfold appends in *. etrans; eauto.
    - intros i st st1 st' (j & b & Hj & Hb & Hi) R1. exists j, b.
      split_and!; auto. exact (prefix_lookup_Some _ _ _ _ Hb R1).
    - intros i st0 st st' R0 R1 (j & b & Hj & Hb & Hi). exists j, b.
      split_and!; auto. apply prefix_length in R0. lia.
    - intros i st st' Hi Hb.
      destruct (create_new_module_returns _ _ _ _ _ _ _ _ _ Hb)
        as (c & Hc & _ & Happ).
      apply in_seq in Hi. specialize (Happ ltac:(lia)).
      split.
      + unfold appends. etrans; [|exact Happ]. now apply prefix_app_r.
      + exists (length (vertices st)), c. split_and!; auto.
        apply (prefix_lookup_Some (vertices st ++ [c])); [|exact Happ].
        now apply list_lookup_middle. }
  destruct HPR as [Rs Ps].
  split; [simpl; lia|].
  intros i Hi. destruct (Nat.eq_dec i 0) as [->|Hne].
  - exists block_idx, clone0. split_and!; auto; [|congruence].
    apply (prefix_lookup_Some (vertices sa)); [|exact Rs].
    rewrite Hva. now apply list_lookup_insert_eq.
  - destruct (Ps i) as (j & b & Hj & Hb & Hinst).
    { apply in_seq. lia. }
    exists j, b. split_and!; auto; [contradiction|]. intros _. lia.
Qed.

Lemma count_makes_one_instance_per_index_witness :
  let main := Examples.module_block "main.tf" "m" [("count", SInt 3)] None [] in
  let s' := snd (_create_new_resources_count Examples.render_nothing 5
                   (SInt 3) 0 Examples.count3) in
  length (vertices Examples.count3) + (3 - 1) <= length (vertices s') /\
  forall i, i < 3 ->
    exists j b, vertices s' !! j = Some b /\
                instance_of main (PyInt (Z.of_nat i)) b /\
                (i = 0 -> j = 0) /\
                (i <> 0 -> length (vertices Examples.count3) <= j).
Proof.
  cbn zeta.
  apply (count_makes_one_instance_per_index Examples.render_nothing 5 3 0
           (Examples.module_block "main.tf" "m" [("count", SInt 3)] None [])
           Examples.count3).
  - reflexivity.
  - vm_compute. reflexivity.
Defined.

(** ** The membership entry of the new instance *)

Lemma members_get_append_same m t i :
  members_get (members_append m t i) t = members_get m t ++ [i].
Proof.
  induction m as [|[t' l] r IH]; simpl.
  - now rewrite (proj2 (BlockType_eqb_eq t t) eq_refl).
  - destruct (BlockType_eqb t' t) eqn:E; simpl; rewrite E; auto.
Qed.

Lemma members_get_append_other m t i t' :
  t' <> t -> members_get (members_append m t i) t' = members_get m t'.
Proof.
  intros Hne. induction m as [|[t0 l] r IH]; simpl.
  - destruct (BlockType_eqb t t') eqn:E; [|reflexivity].
    apply BlockType_eqb_eq in E. congruence.
  - destruct (BlockType_eqb t0 t) eqn:E; simpl.
    + destruct (BlockType_eqb t0 t') eqn:E'; [|reflexivity].
      apply BlockType_eqb_eq in E, E'. congruence.
    + destruct (BlockType_eqb t0 t'); auto.
Qed.

(** The members of type [t] a membership value lists. *)
Fixpoint all_members (value : Members) (t : BlockType) : list nat :=
  match value with
  | [] => []
  | (t', l) :: r =>
    if BlockType_eqb t' t then l ++ all_members r t else all_members r t
  end.

(** In the vertex list [v], the block in slot [j], a slot from [n0] on,
    is the copy of the block in slot [i] put inside the instance
    [key]. *)
Definition copy_at (v : list TerraformBlock) (key : loc) (n0 : nat)
    (i j : nat) : Prop :=
  n0 <= j /\
  exists b b', v !! i = Some b /\ v !! j = Some b' /\ copied_into key b b'.

Lemma copy_at_mono v v' key n0 n0' i j :
  v `prefix_of` v' -> n0' <= n0 -> copy_at v key n0 i j ->
  copy_at v' key n0' i j.
Proof.
  intros Hp Hn (Hj & b & b' & Hb & Hb' & Hc). split; [lia|].
  exists b, b'. split_and!; auto; eapply prefix_lookup_Some; eauto.
Qed.

Lemma Forall2_copy_at_mono v v' key n0 n0' l l' :
  v `prefix_of` v' -> n0' <= n0 ->
  Forall2 (copy_at v key n0) l l' -> Forall2 (copy_at v' key n0') l l'.
Proof.
  intros Hp Hn H. induction H as [|i j l l' Hij H IH]; constructor;
    [|exact IH].
  exact (copy_at_mono _ _ _ _ _ _ _ Hp Hn Hij).
Qed.

(** One turn of the inner loop of [_add_new_vertices_for_module] that
    returns: the copy is in the slot that was the first free one, and
    that slot is what the turn adds to the members of its type. *)
Lemma copy_member_returns
    (rec : TerraformBlock -> Members -> nat -> M unit) key idx
    vertex_type (acc : Members) (i : nat) s acc1 s1 :
  (forall b v i s1 u s2, rec b v i s1 = (Ok u, s2) -> appends s1 s2) ->
  (do module_vertex <- vertex i;
   do new_vertex0 <- deepcopy_block module_vertex;
   let new_vertex1 :=
     set_source_module_object new_vertex0 (Some key) in
   run vertices_append new_vertex1;
   do n <- vertices_len;
   let new_vertex_idx := n - 1 in
   match source_module_pop_add new_vertex1 idx with
   | None => raise KeyError
   | Some new_vertex =>
     run vertices_set new_vertex_idx new_vertex;
     let acc' := members_append acc vertex_type new_vertex_idx in
     if BlockType_eqb vertex_type MODULE
     then
       do module_vertex_key <-
          new_TFModule (path module_vertex) (name module_vertex)
                       (source_module_object module_vertex)
                       (for_each_index module_vertex);
       do k <- key_of (Some module_vertex_key);
       do module_vertex_value <- dict_read k;
       run rec new_vertex module_vertex_value new_vertex_idx;
       ret acc'
     else ret acc'
   end) s = (Ok acc1, s1) ->
  acc1 = members_append acc vertex_type (length (vertices s)) /\
  appends s s1 /\ length (vertices s) < length (vertices s1) /\
  copy_at (vertices s1) key (length (vertices s)) i (length (vertices s)).
Proof.
  intros Hrec H.
  apply bind_inv_ok in H as (mv & sa & Hmv & H).
  unfold vertex in Hmv. destruct (vertices s !! i) as [b0|] eqn:Eb;
    [|discriminate]. inversion Hmv; subst mv sa; clear Hmv.
  apply bind_inv_ok in H as (nv0 & sb & Hcp & H).
  destruct (deepcopy_block_fresh 0 b0 s nv0 sb (Nat.le_0_l _) Hcp)
    as (_ & Hsame & _ & Hvb & _).
  apply bind_inv_ok in H as ([] & sc & Happ & H).
  inversion Happ; subst sc; clear Happ.
  apply bind_inv_ok in H as (n & sd & Hlen & H).
  inversion Hlen; subst n sd; clear Hlen.
  destruct (source_module_pop_add _ _) as [nv|] eqn:Epop; [|discriminate].
  apply bind_inv_ok in H as ([] & se & Hset & H).
  unfold vertices_set in Hset. cbn [vertices with_vertices] in Hset.
  destruct (decide _); [|discriminate].
  inversion Hset; subst se; clear Hset.
  rewrite append_then_set, Hvb in H.
  cbn [vertices with_vertices] in H. rewrite ?length_app in H.
  cbn [length] in H.
  replace (length (vertices s) + 1 - 1) with (length (vertices s))
    in H by lia.
  set (s2 := with_vertices _ _) in H.
  assert (Hv2 : vertices s2 = vertices s ++ [nv]) by reflexivity.
  assert (Hnv : copied_into key b0 nv).
  { split.
    - eapply same_block_trans; [eapply source_module_pop_add_same; eauto|].
      destruct Hsame as (?&?&?&?&?&?). now repeat split.
    - now rewrite (source_module_pop_add_smo _ _ _ Epop). }
  assert (Hfin : appends s2 s1 /\
                 acc1 = members_append acc vertex_type (length (vertices s))).
  { destruct (BlockType_eqb vertex_type MODULE).
    - apply bind_inv_ok in H as (mk & sf & Hmk & H).
      pose proof (allocates_only_step _ _ _ _
                    (allocates_only_new_TFModule _ _ _ _) Hmk) as Vf.
      apply bind_inv_ok in H as (k & sg & Hk & H).
      pose proof (allocates_only_step _ _ _ _
                    (allocates_only_key_of _) Hk) as Vg.
      apply bind_inv_ok in H as (mvv & sh & Hrd & H).
      inversion Hrd; subst mvv sh; clear Hrd.
      apply bind_inv_ok in H as ([] & si & Hr & H).
      inversion H; subst. apply Hrec in Hr. unfold appends in *.
      rewrite Vg, Vf in Hr. now split.
    - inversion H; subst. unfold appends. now split. }
  destruct Hfin as [Hfin ->]. unfold appends in *.
  assert (Hp : (vertices s ++ [nv]) `prefix_of` vertices s1)
    by now rewrite <- Hv2.
  split_and!; auto.
  - etrans; [|exact Hp]. now apply prefix_app_r.
  - apply prefix_length in Hp. rewrite length_app in Hp. simpl in Hp. lia.
  - split; [lia|]. exists b0, nv. split_and!; auto.
    + apply (prefix_lookup_Some (vertices s ++ [nv])); [|exact Hp].
      now apply lookup_app_l_Some.
    + apply (prefix_lookup_Some (vertices s ++ [nv])); [|exact Hp].
      now apply list_lookup_middle.
Qed.

Lemma members_fold_returns (body : Members -> nat -> M Members) t key :
  (forall acc i s acc1 s1, body acc i s = (Ok acc1, s1) ->
     acc1 = members_append acc t (length (vertices s)) /\
     appends s s1 /\ length (vertices s) < length (vertices s1) /\
     copy_at (vertices s1) key (length (vertices s)) i
             (length (vertices s))) ->
  forall members acc st acc' st',
    for_fold members acc body st = (Ok acc', st') ->
    appends st st' /\
    exists copies,
      Forall2 (copy_at (vertices st') key (length (vertices st)))
              members copies /\
      members_get acc' t = members_get acc t ++ copies /\
      forall t', t' <> t -> members_get acc' t' = members_get acc t'.
Proof.
  intros Hbody. induction members as [|i r IH]; intros acc st acc' st' H;
    simpl in H.
  - inversion H; subst. split; [unfold appends; reflexivity|].
    exists []. split_and!; [constructor|now rewrite app_nil_r|auto].
  - apply bind_inv_ok in H as (acc1 & s1 & H1 & H).
    destruct (Hbody _ _ _ _ _ H1) as (-> & Ha & Hlt & Hc).
    destruct (IH _ _ _ _ H) as (Ha' & copies & HF & Hg & Ho).
    unfold appends in *. split; [etrans; eauto|].
    exists (length (vertices st) :: copies). split_and!.
    + constructor.
      * eapply copy_at_mono; [exact Ha'|reflexivity|exact Hc].
      * eapply Forall2_copy_at_mono; [reflexivity| |exact HF]. lia.
    + rewrite Hg, members_get_append_same, <- app_assoc. reflexivity.
    + intros t' Hne. rewrite (Ho t' Hne).
      now apply members_get_append_other.
Qed.

Lemma all_members_cons t0 members rest t :
  all_members ((t0, members) :: rest) t
  = if BlockType_eqb t0 t then members ++ all_members rest t
    else all_members rest t.
Proof. reflexivity. Qed.

Lemma add_new_vertices_for_module_entry
    (rec : TerraformBlock -> Members -> nat -> M unit) key idx :
  (forall b v i s1 u s2, rec b v i s1 = (Ok u, s2) -> appends s1 s2) ->
  forall value st entry st',
    _add_new_vertices_for_module rec key value idx st = (Ok entry, st') ->
    appends st st' /\
    forall t, Forall2 (copy_at (vertices st') key (length (vertices st)))
                      (all_members value t) (members_get entry t).
Proof.
  intros Hrec value st entry st'. unfold _add_new_vertices_for_module.
  match goal with
  | |- for_fold value [] ?B st = _ -> _ => set (body := B)
  end.
  intros H.
  assert (G : forall value st acc,
             for_fold value acc body st = (Ok entry, st') ->
             appends st st' /\
             forall t, exists copies,
               Forall2 (copy_at (vertices st') key (length (vertices st)))
                       (all_members value t) copies /\
               members_get entry t = members_get acc t ++ copies).
  { clear value st H.
    induction value as [|[t0 members] rest IH]; intros st acc H;
      simpl in H.
    - inversion H; subst. split; [unfold appends; reflexivity|].
      intros t. exists []. split; [constructor|now rewrite app_nil_r].
    - apply bind_inv_ok in H as (acc1 & s1 & H1 & H).
      unfold body in H1.
      apply (members_fold_returns _ t0 key) in H1
        as (Ha & copies0 & HF0 & Hg0 & Ho0).
      2:{ intros a i s a1 s2 Hb. eapply copy_member_returns; eauto. }
      destruct (IH _ _ H) as [Ha' Hc]. unfold appends in *.
      split; [etrans; eauto|].
      intros t. destruct (Hc t) as (copies & HF & Hg).
      rewrite all_members_cons.
      destruct (BlockType_eqb t0 t) eqn:E.
      + apply BlockType_eqb_eq in E. subst t0.
        exists (copies0 ++ copies). split.
        * apply Forall2_app.
          -- eapply Forall2_copy_at_mono; [exact Ha'|reflexivity|exact HF0].
          -- eapply Forall2_copy_at_mono; [reflexivity| |exact HF].
             now apply prefix_length.
        * rewrite Hg, Hg0, <- app_assoc. reflexivity.
      + exists copies. split.
        * eapply Forall2_copy_at_mono; [reflexivity| |exact HF].
          now apply prefix_length.
        * rewrite Hg. rewrite Ho0; [reflexivity|].
          intros ->.
          now rewrite (proj2 (BlockType_eqb_eq t0 t0) eq_refl) in E. }
  destruct (G _ _ _ H) as [Ha Hc]. split; [exact Ha|].
  intros t. destruct (Hc t) as (copies & HF & Hg). simpl in Hg.
  now rewrite Hg.
Qed.

(** X9: when [_create_new_module_with_vertices] returns, the membership
    index holds, under the key of the new instance, an entry that lists
    for every block type one vertex per member the given membership
    value lists for that type, in the same order: the vertex is in a
    slot appended by the call and is the copy of that member, with the
    member's type, path, name, configuration, attributes and
    [for_each_index], and the key of the new instance as its
    [source_module_object]. *)
Theorem instance_entry_lists_one_copy_per_member
    (fuel : nat) (main_resource : TerraformBlock) (value : Members)
    (resource_idx : nat) (key : option loc) (s s' : Store) :
  _create_new_module_with_vertices fuel main_resource value resource_idx
                                   key s = (Ok tt, s') ->
  exists k kv entry,
    (forall k0, key = Some k0 -> k = k0) /\
    ref_value (heap s') (Some k) = Some kv /\
    dict_get (heap s') (vertices_by_module_dependency s') kv = Some entry /\
    forall t, Forall2 (copy_at (vertices s') k (length (vertices s)))
                      (all_members value t) (members_get entry t).
Proof.
  destruct fuel as [|f]; [discriminate|]. simpl. intros H.
  apply bind_inv_ok in H as (k & s1 & H1 & H).
  assert (V1 : vertices s1 = vertices s /\
               forall k0, key = Some k0 -> k = k0).
  { destruct key as [k0|].
    - inversion H1; subst. split; [reflexivity|]. now intros ? [= <-].
    - apply bind_inv_ok in H1 as (nr & sa & Ha & H1).
      rewrite (allocates_only_step _ _ _ _
                 (allocates_only_new_TFModule _ _ _ _) H1).
      split; [|discriminate].
      exact (allocates_only_step _ _ _ _
               (allocates_only_deepcopy_block _) Ha). }
  destruct V1 as [V1 Hk].
  apply bind_inv_ok in H as (n & s2 & H2 & H). inversion H2; subst n s2.
  apply bind_inv_ok in H as (ov & s3 & H3 & H).
  pose proof (allocates_only_step _ _ _ _ (allocates_only_vertex _) H3) as V3.
  apply bind_inv_ok in H as (smk & s4 & H4 & H).
  pose proof (allocates_only_step _ _ _ _
                (allocates_only_source_module_key _) H4) as V4.
  apply bind_inv_ok in H as ([] & s5 & H5 & H).
  pose proof (allocates_only_step _ _ _ _
                (allocates_only_dict_append _ _ _) H5) as V5.
  apply bind_inv_ok in H as (entry & s6 & H6 & H).
  apply add_new_vertices_for_module_entry in H6 as [_ HF].
  2:{ intros b v i sa ua sb. apply create_new_module_with_vertices_appends. }
  apply dict_assign_inv in H as (kv & Hkv & ->).
  exists k, kv, entry. split_and!; auto.
  - simpl. now apply dict_get_set.
  - intros t. simpl. specialize (HF t).
    now rewrite V5, V4, V3, V1 in HF.
Qed.

Lemma instance_entry_lists_one_copy_per_member_witness :
  let main := Examples.module_block "main.tf" "m" [] None [] in
  let s' := snd (_create_new_module_with_vertices 2 main [(RESOURCE, [1])] 0
                   (Some 0) Examples.plain) in
  exists k kv entry,
    (forall k0, Some 0 = Some k0 -> k = k0) /\
    ref_value (heap s') (Some k) = Some kv /\
    dict_get (heap s') (vertices_by_module_dependency s') kv = Some entry /\
    forall t, Forall2 (copy_at (vertices s') k
                               (length (vertices Examples.plain)))
                      (all_members [(RESOURCE, [1])] t)
                      (members_get entry t).
Proof.
  cbn zeta.
  apply (instance_entry_lists_one_copy_per_member 2
           (Examples.module_block "main.tf" "m" [] None [])
           [(RESOURCE, [1])] 0 (Some 0) Examples.plain).
  vm_compute. reflexivity.
Defined.

(** ** One instance for every entry of a for_each *)

Lemma in_combine_seq {X} (xs : list X) : forall a p x,
  xs !! p = Some x -> In (a + p, x) (combine (seq a (length xs)) xs).
Proof.
  induction xs as [|y r IH]; intros a p x H; [discriminate|].
  destruct p as [|p]; simpl in *.
  - inversion H; subst. left. now rewrite Nat.add_0_r.
  - right. replace (a + S p) with (S a + p) by lia. now apply IH.
Qed.

Lemma in_combine_seq_ge {X} (xs : list X) a i x :
  In (i, x) (combine (seq a (length xs)) xs) -> a <= i.
Proof. intros H. apply in_combine_l, in_seq in H. lia. Qed.

(** The loop that makes the instances, one call of [_create_new_module]
    for every entry, with the position of the entry as [foreach_idx]. *)
Lemma clone_loop_returns {X}
    (render : TerraformBlock -> PyKey -> option PyKey ->
              list (string * Statement) * list (string * Statement) ->
              list (string * Statement) * list (string * Statement))
    fuel main block_idx (nv : X -> PyKey) (nk : X -> option PyKey)
    (xs : list X) s s' :
  py_for (enumerate xs)
         (fun ix => _create_new_module render fuel main (nv (snd ix))
                                       block_idx (fst ix) (nk (snd ix)))
         s = (Ok tt, s') ->
  length (vertices s) + (length xs - 1) <= length (vertices s') /\
  forall p x, xs !! p = Some x ->
    exists j b, vertices s' !! j = Some b /\
                instance_of main (py_or (nk x) (nv x)) b /\
                (p = 0 -> j = block_idx) /\
                (p <> 0 -> length (vertices s) <= j).
Proof.
  destruct xs as [|x0 r]; intros Hloop.
  { simpl in Hloop. inversion Hloop; subst. split; [simpl; lia|].
    intros p x Hp. discriminate. }
  unfold enumerate in Hloop. simpl in Hloop.
  apply bind_inv_ok in Hloop as ([] & sa & Ha & Hloop).
  destruct (create_new_module_returns _ _ _ _ _ _ _ _ _ Ha)
    as (clone0 & Hi0 & Hov & _).
  destruct (Hov eq_refl) as [Hlt Hva]. clear Hov.
  assert (Hla : length (vertices sa) = length (vertices s))
    by (rewrite Hva; apply length_insert).
  assert (Hgrow : length (vertices sa)
                  + length (combine (seq 1 (length r)) r)
                  <= length (vertices s')).
  { refine (py_for_grows _ _ _ sa s' Hloop). intros [i x] st st' Hi Hb.
    destruct (create_new_module_returns _ _ _ _ _ _ _ _ _ Hb)
      as (c & _ & _ & Happ).
    apply in_combine_seq_ge in Hi. simpl in Happ.
    specialize (Happ ltac:(lia)).
    apply prefix_length in Happ. rewrite length_app in Happ.
    simpl in Happ. exact Happ. }
  rewrite length_combine, length_seq, Nat.min_id in Hgrow.
  assert (HPR : appends sa s' /\
                forall ix, In ix (combine (seq 1 (length r)) r) ->
                  exists j b, length (vertices sa) <= j /\
                              vertices s' !! j = Some b /\
                              instance_of main
                                (py_or (nk (snd ix)) (nv (snd ix))) b).
  { refine (py_for_ok_inv _ _ appends
              (fun ix st st' =>
                 exists j b, length (vertices st) <= j /\
                             vertices st' !! j = Some b /\
                             instance_of main
                               (py_or (nk (snd ix)) (nv (snd ix))) b)
              _ _ _ _ _ sa s' Hloop).
    - intros st. unfold appends. reflexivity.
    - intros st1 st2 st3 R1 R2. unfold appends in *. etrans; eauto.
    - intros i st st1 st' (j & b & Hj & Hb & Hi) R1. exists j, b.
      split_and!; auto. exact (prefix_lookup_Some _ _ _ _ Hb R1).
    - intros i st0 st st' R0 R1 (j & b & Hj & Hb & Hi). exists j, b.
      split_and!; auto. apply prefix_length in R0. lia.
    - intros [i x] st st' Hi Hb.
      destruct (create_new_module_returns _ _ _ _ _ _ _ _ _ Hb)
        as (c & Hc & _ & Happ).
      apply in_combine_seq_ge in Hi. simpl in Happ.
      specialize (Happ ltac:(lia)).
      split.
      + unfold appends. etrans; [|exact Happ]. now apply prefix_app_r.
      + exists (length (vertices st)), c. split_and!; auto.
        apply (prefix_lookup_Some (vertices st ++ [c])); [|exact Happ].
        now apply list_lookup_middle. }
  destruct HPR as [Rs Ps].
  split; [simpl; lia|].
  intros p x Hp. destruct p as [|p]; simpl in Hp.
  - inversion Hp; subst x. exists block_idx, clone0.
    split_and!; auto; [|congruence].
    apply (prefix_lookup_Some (vertices sa)); [|exact Rs].
    rewrite Hva. now apply list_lookup_insert_eq.
  - destruct (Ps (1 + p, x) (in_combine_seq r 1 p x Hp))
      as (j & b & Hj & Hb & Hinst).
    exists j, b. split_and!; auto; [discriminate|]. intros _. lia.
Qed.

Lemma py_or_same v : py_or (Some v) v = v.
Proof. unfold py_or. now destruct (key_truthy (Some v)). Qed.

Lemma walks_keep_vertices {X} fuel main (xs : list X)
    (arg : X -> PyKey * bool) s :
  vertices (snd (py_for xs (fun x => _update_module_children fuel main
                                       (fst (arg x)) (snd (arg x))) s))
  = vertices s.
Proof.
  destruct (keeps_for (fun st => vertices st = vertices s) xs
              (fun x => _update_module_children fuel main (fst (arg x))
                                                (snd (arg x)))
              (fun x _ => blind_update_module_children
                            (fun st => vertices st = vertices s)
                            (fun s0 h E => E) fuel main _ _)
              s eq_refl) as [E _].
  exact E.
Qed.

(** X10: when [_create_new_resources_foreach] returns on the module in
    slot [block_idx], the graph holds one instance of the module for
    every element of a sequence statement and for every entry of a
    mapping statement: a block with the block type and path of the
    module, the name the module gets for the instance key, and the
    instance key as [for_each_index].  The instance key of an element is
    the element; the instance key of an entry is what [new_key or
    new_value] gives, the key when it is truthy.  The first instance is
    in the slot of the module, every other one in a slot appended by the
    call. *)
Theorem foreach_makes_one_instance_per_entry
    (render : TerraformBlock -> PyKey -> option PyKey ->
              list (string * Statement) * list (string * Statement) ->
              list (string * Statement) * list (string * Statement))
    (fuel block_idx : nat) (main : TerraformBlock) (statement : Statement)
    (s s' : Store) :
  vertices s !! block_idx = Some main ->
  _create_new_resources_foreach render fuel statement block_idx s
  = (Ok tt, s') ->
  (forall l p v, statement = SList l -> l !! p = Some v ->
     exists j b, vertices s' !! j = Some b /\ instance_of main v b /\
                 (p = 0 -> j = block_idx) /\
                 (p <> 0 -> length (vertices s) <= j)) /\
  (forall d p k v, statement = SDict d -> d !! p = Some (k, v) ->
     exists j b, vertices s' !! j = Some b /\
                 instance_of main (py_or (Some k) v) b /\
                 (p = 0 -> j = block_idx) /\
                 (p <> 0 -> length (vertices s) <= j)).
Proof.
  intros Hmain H. unfold _create_new_resources_foreach in H.
  apply bind_inv_ok in H as (mr & s0 & H0 & H).
  unfold vertex in H0. rewrite Hmain in H0. inversion H0; subst mr s0.
  clear H0.
  apply bind_inv_ok in H as ([] & s1 & Hsuper & H).
  unfold super_create_new_resources_foreach in Hsuper.
  apply bind_inv_ok in Hsuper as (mr & s0 & H0 & Hsuper).
  unfold vertex in H0. rewrite Hmain in H0. inversion H0; subst mr s0.
  clear H0.
  split.
  - intros l p v -> Hp.
    rewrite (py_for_ext _ _
               (fun ix => _create_new_module render fuel main
                            (snd ix) block_idx (fst ix) (Some (snd ix))))
      in Hsuper by (intros [i x] st _; reflexivity).
    apply (clone_loop_returns render fuel main block_idx
             (fun x => x) Some) in Hsuper as [_ Hall].
    destruct (Hall p v Hp) as (j & b & Hb & Hi & H0 & Hn).
    rewrite py_or_same in Hi.
    rewrite (py_for_ext _ _
               (fun ix => _update_module_children fuel main
                            (fst (snd ix, should_override (fst ix)))
                            (snd (snd ix, should_override (fst ix)))))
      in H by (intros [i x] st _; reflexivity).
    pose proof (walks_keep_vertices fuel main (enumerate l)
                  (fun ix => (snd ix, should_override (fst ix))) s1) as V.
    cbv beta in V. rewrite H in V. simpl in V.
    exists j, b. rewrite V. auto.
  - intros d p k v -> Hp.
    rewrite (py_for_ext _ _
               (fun ix => _create_new_module render fuel main
                            (snd (snd ix)) block_idx (fst ix)
                            (Some (fst (snd ix)))))
      in Hsuper by (intros [i [k0 v0]] st _; reflexivity).
    apply (clone_loop_returns render fuel main block_idx
             snd (fun x => Some (fst x))) in Hsuper as [_ Hall].
    destruct (Hall p (k, v) Hp) as (j & b & Hb & Hi & H0 & Hn).
    rewrite (py_for_ext _ _
               (fun ix => _update_module_children fuel main
                            (fst (fst (snd ix), should_override (fst ix)))
                            (snd (fst (snd ix), should_override (fst ix)))))
      in H by (intros [i [k0 v0]] st _; reflexivity).
    pose proof (walks_keep_vertices fuel main (enumerate d)
                  (fun ix => (fst (snd ix), should_override (fst ix))) s1)
      as V.
    cbv beta in V. rewrite H in V. simpl in V.
    exists j, b. rewrite V. auto.
Qed.

Lemma foreach_makes_one_instance_per_entry_witness :
  let main := Examples.module_block "main.tf" "a"
                [("for_each", SList [PyStr "a1"; PyStr "a2"])] None [] in
  let statement := SList [PyStr "a1"; PyStr "a2"] in
  let s' := snd (_create_new_resources_foreach Examples.render_nothing 5
                   statement 0 Examples.nested) in
  (forall l p v, statement = SList l -> l !! p = Some v ->
     exists j b, vertices s' !! j = Some b /\ instance_of main v b /\
                 (p = 0 -> j = 0) /\
                 (p <> 0 -> length (vertices Examples.nested) <= j)) /\
  (forall d p k v, statement = SDict d -> d !! p = Some (k, v) ->
     exists j b, vertices s' !! j = Some b /\
                 instance_of main (py_or (Some k) v) b /\
                 (p = 0 -> j = 0) /\
                 (p <> 0 -> length (vertices Examples.nested) <= j)).
Proof.
  cbn zeta.
  apply (foreach_makes_one_instance_per_entry Examples.render_nothing 5 0
           (Examples.module_block "main.tf" "a"
              [("for_each", SList [PyStr "a1"; PyStr "a2"])] None [])
           (SList [PyStr "a1"; PyStr "a2"]) Examples.nested).
  - reflexivity.
  - vm_compute. reflexivity.
Defined.

(** ** Membership slots are never removed *)

(** [slots_kept d d']: every slot of the dictionary [d] is a slot of
    [d'], at its place, with its key object and the hash stored with
    it. *)
Definition slots_kept (d d' : Dict) : Prop :=
  length d <= length d' /\
  forall i e, d !! i = Some e ->
    exists e', d' !! i = Some e' /\ e_key e' = e_key e /\
               e_hash e' = e_hash e.

Lemma slots_kept_refl d : slots_kept d d.
Proof. split; [lia|]. intros i e He. exists e. auto. Qed.

Lemma slots_kept_trans d1 d2 d3 :
  slots_kept d1 d2 -> slots_kept d2 d3 -> slots_kept d1 d3.
Proof.
  intros [L1 S1] [L2 S2]. split; [lia|]. intros i e He.
  destruct (S1 i e He) as (e' & He' & ? & ?).
  destruct (S2 i e' He') as (e'' & He'' & ? & ?).
  exists e''. split_and!; congruence.
Qed.

Lemma slots_kept_dict_set h d kl k v : slots_kept d (dict_set h d kl k v).
Proof.
  induction d as [|e d IH]; simpl.
  - split; [simpl; lia|]. intros i e He. discriminate.
  - destruct (entry_matches h k e).
    + split; [simpl; lia|]. intros [|i] e0 He; simpl in *.
      * inversion He; subst. eexists. split; [reflexivity|]. auto.
      * exists e0. auto.
    + destruct IH as [L S]. split; [simpl; lia|].
      intros [|i] e0 He; simpl in *.
      * inversion He; subst. exists e0. auto.
      * exact (S i e0 He).
Qed.

Section DictSlots.
Variable render :
  TerraformBlock -> PyKey -> option PyKey ->
  list (string * Statement) * list (string * Statement) ->
  list (string * Statement) * list (string * Statement).
Variable d0 : Dict.
Local Abbreviation K :=
  (fun s : Store => slots_kept d0 (vertices_by_module_dependency s)).

Lemma kept_heap s h : K s -> K (with_heap s h).
Proof. now intros H. Qed.

Lemma kept_vertices_append b : keeps K (vertices_append b) (fun _ => True).
Proof. intros s Hs. simpl. split; [exact Hs|auto]. Qed.

Lemma kept_vertices_set i b : keeps K (vertices_set i b) (fun _ => True).
Proof.
  intros s Hs. unfold vertices_set.
  destruct (decide _); simpl; (split; [exact Hs|auto]).
Qed.

Lemma kept_dict_assign kl v : keeps K (dict_assign kl v) (fun _ => True).
Proof.
  unfold dict_assign.
  eapply keeps_bind; [apply blind_key_of|]. intros k _.
  intros s Hs. simpl. split; [|auto].
  eapply slots_kept_trans; [exact Hs|apply slots_kept_dict_set].
Qed.

Lemma kept_dict_append kl t i : keeps K (dict_append kl t i) (fun _ => True).
Proof.
  unfold dict_append.
  eapply keeps_bind; [apply blind_key_of|]. intros k _.
  eapply keeps_bind; [apply blind_dict_read|]. intros m _.
  intros s Hs. simpl. split; [|auto].
  eapply slots_kept_trans; [exact Hs|apply slots_kept_dict_set].
Qed.

Lemma kept_add_new_vertices_for_module
    (rec : TerraformBlock -> Members -> nat -> M unit) key value idx :
  (forall b v i, keeps K (rec b v i) (fun _ => True)) ->
  keeps K (_add_new_vertices_for_module rec key value idx) (fun _ => True).
Proof.
  intros Hrec. unfold _add_new_vertices_for_module.
  apply keeps_fold with (P := fun _ => True); [|exact Logic.I].
  intros acc [vertex_type vertices_idx] _ _.
  apply keeps_fold with (P := fun _ => True); [|exact Logic.I].
  intros acc' vertex_idx _ _.
  eapply keeps_bind; [apply blind_vertex|]. intros module_vertex _.
  eapply keeps_bind; [apply blind_deepcopy_block, kept_heap|].
  intros new_vertex0 _.
  eapply keeps_bind; [apply kept_vertices_append|]. intros _ _.
  eapply keeps_bind; [apply blind_vertices_len|]. intros n _.
  destruct (source_module_pop_add _ _); [|apply keeps_raise].
  eapply keeps_bind; [apply kept_vertices_set|]. intros _ _.
  destruct (BlockType_eqb vertex_type MODULE); [|now apply keeps_ret].
  eapply keeps_bind; [apply blind_new_TFModule, kept_heap|]. intros mk _.
  eapply keeps_bind; [apply blind_key_of|]. intros k _.
  eapply keeps_bind; [apply blind_dict_read|]. intros mv _.
  eapply keeps_bind; [apply Hrec|]. intros _ _. now apply keeps_ret.
Qed.

Lemma kept_create_new_module_with_vertices fuel :
  forall main_resource value resource_idx key,
    keeps K (_create_new_module_with_vertices fuel main_resource value
                                              resource_idx key)
          (fun _ => True).
Proof.
  induction fuel as [|f IH]; intros main_resource value resource_idx key;
    simpl; [apply keeps_out_of_fuel|].
  eapply keeps_bind with (Q := fun _ => True).
  { destruct key; [now apply keeps_ret|].
    eapply keeps_bind; [apply blind_deepcopy_block, kept_heap|].
    intros nr _. apply blind_new_TFModule, kept_heap. }
  intros k _.
  eapply keeps_bind; [apply blind_vertices_len|]. intros n _.
  eapply keeps_bind; [apply blind_vertex|]. intros ov _.
  eapply keeps_bind with (Q := fun _ => True).
  { destruct (source_module_object ov); [|now apply keeps_ret].
    eapply keeps_bind; [apply blind_tf_object|]. intros o _.
    eapply keeps_bind; [apply blind_new_TFModule, kept_heap|].
    intros k' _. now apply keeps_ret. }
  intros smk _.
  eapply keeps_bind; [apply kept_dict_append|]. intros _ _.
  eapply keeps_bind.
  - apply kept_add_new_vertices_for_module. intros b v i. apply IH.
  - intros nv _. apply kept_dict_assign.
Qed.

Lemma kept_create_new_module fuel main_resource new_value resource_idx
    foreach_idx new_key :
  keeps K (_create_new_module render fuel main_resource new_value
                              resource_idx foreach_idx new_key)
        (fun _ => True).
Proof.
  unfold _create_new_module.
  eapply keeps_bind; [apply blind_deepcopy_block, kept_heap|]. intros nr0 _.
  eapply keeps_bind; [apply blind_new_TFModule, kept_heap|]. intros mk _.
  eapply keeps_bind; [apply blind_deepcopy_dict|]. intros cp _.
  eapply keeps_bind; [apply blind_key_of|]. intros k _.
  eapply keeps_bind; [apply blind_new_TFModule, kept_heap|]. intros nk _.
  eapply keeps_bind;
    [apply blind_update_resolved_entry_for_tf_definition, kept_heap|].
  intros _ _.
  destruct (negb _).
  - eapply keeps_bind; [apply kept_vertices_append|]. intros _ _.
    apply kept_create_new_module_with_vertices.
  - eapply keeps_bind; [apply kept_vertices_set|]. intros _ _.
    eapply keeps_bind; [apply blind_deepcopy_TFModule, kept_heap|].
    intros [l|] _; [|apply keeps_raise].
    eapply keeps_bind; [apply blind_assign_foreach_idx, kept_heap|].
    intros _ _. apply kept_dict_assign.
Qed.

Lemma kept_create_new_resources_count fuel statement block_idx :
  keeps K (_create_new_resources_count render fuel statement block_idx)
        (fun _ => True).
Proof.
  unfold _create_new_resources_count.
  eapply keeps_bind; [apply blind_vertex|]. intros main_resource _.
  eapply keeps_bind with (Q := fun _ => True).
  { destruct statement; try apply keeps_raise. now apply keeps_ret. }
  intros r _.
  eapply keeps_bind with (Q := fun _ => True).
  { apply keeps_for. intros i _. apply kept_create_new_module. }
  intros _ _.
  eapply keeps_bind with (Q := fun _ => True).
  { destruct statement; try apply keeps_raise. now apply keeps_ret. }
  intros r' _. apply keeps_for. intros i _.
  apply blind_update_module_children, kept_heap.
Qed.

Lemma kept_create_new_resources_foreach fuel statement block_idx :
  keeps K (_create_new_resources_foreach render fuel statement block_idx)
        (fun _ => True).
Proof.
  unfold _create_new_resources_foreach.
  eapply keeps_bind; [apply blind_vertex|]. intros main_resource _.
  eapply keeps_bind with (Q := fun _ => True).
  { unfold super_create_new_resources_foreach.
    eapply keeps_bind; [apply blind_vertex|]. intros mr _.
    destruct statement; try (now apply keeps_ret).
    - apply keeps_for. intros [i v] _. apply kept_create_new_module.
    - apply keeps_for. intros [i [k v]] _. apply kept_create_new_module. }
  intros _ _.
  destruct statement; try (now apply keeps_ret).
  - apply keeps_for. intros [i v] _.
    apply blind_update_module_children, kept_heap.
  - apply keeps_for. intros [i [k v]] _.
    apply blind_update_module_children, kept_heap.
Qed.

Variable SubGraph : Type.
Variable build : Store -> list nat -> SubGraph.
Variable resolve : nat -> SubGraph -> Statement.
Variable is_static : nat -> SubGraph -> bool.

Lemma kept_render_module fuel sub_graph module_idx :
  keeps K (render_module render SubGraph resolve is_static fuel sub_graph
                         module_idx) (fun _ => True).
Proof.
  unfold render_module.
  eapply keeps_bind; [apply blind_vertex|]. intros b _.
  destruct (stmt_truthy _).
  - destruct (negb _); [now apply keeps_ret|].
    apply kept_create_new_resources_foreach.
  - destruct (stmt_truthy _); [|now apply keeps_ret].
    destruct (negb _); [now apply keeps_ret|].
    apply kept_create_new_resources_count.
Qed.

Lemma kept_handle_loop modules_blocks : forall fuel modules_to_render
    current_level,
  keeps K (handle_loop render SubGraph build resolve is_static fuel
                       modules_blocks modules_to_render current_level)
        (fun _ => True).
Proof.
  induction fuel as [|f IH]; intros [|m ms] current_level; simpl;
    try (now apply keeps_ret); try apply keeps_out_of_fuel.
  eapply keeps_bind with (Q := fun _ => True).
  - unfold _render_foreach_modules_by_levels.
    eapply keeps_bind; [apply blind_get_store|]. intros s0 _.
    eapply keeps_bind with (Q := fun _ => True).
    { apply keeps_for. intros i Hi. apply kept_render_module. }
    intros _ _. eapply keeps_weaken;
      [apply blind_get_modules_to_render, kept_heap|auto].
  - intros next _. apply IH.
Qed.

Lemma kept_handle fuel modules_blocks :
  keeps K (handle render SubGraph build resolve is_static fuel
                  modules_blocks) (fun _ => True).
Proof.
  unfold handle. destruct modules_blocks as [|x rest];
    [now apply keeps_ret|].
  eapply keeps_bind; [apply blind_get_store|]. intros s0 _.
  destruct (dict_get _ _ _); [|apply keeps_raise].
  apply kept_handle_loop.
Qed.
End DictSlots.

(** X11: [handle] never removes a slot of the membership index and never
    gives a slot another key: whatever the collaborators answer, however
    many rounds are run and whatever the outcome, every slot of
    [vertices_by_module_dependency] that [handle] was given is a slot of
    the index it leaves, with the same key object and the hash the key
    had when it was inserted.  So the entries under the keys of the
    modules before their expansion stay in the index. *)
Theorem handle_keeps_every_membership_slot
    (render : TerraformBlock -> PyKey -> option PyKey ->
              list (string * Statement) * list (string * Statement) ->
              list (string * Statement) * list (string * Statement))
    (SubGraph : Type) (build : Store -> list nat -> SubGraph)
    (resolve : nat -> SubGraph -> Statement)
    (is_static : nat -> SubGraph -> bool)
    (fuel : nat) (modules_blocks : list nat) (s : Store) :
  let s' := snd (handle render SubGraph build resolve is_static fuel
                        modules_blocks s) in
  length (vertices_by_module_dependency s)
  <= length (vertices_by_module_dependency s') /\
  forall i e, vertices_by_module_dependency s !! i = Some e ->
    exists e', vertices_by_module_dependency s' !! i = Some e' /\
               e_key e' = e_key e /\ e_hash e' = e_hash e.
Proof.
  intros s'.
  destruct (kept_handle render (vertices_by_module_dependency s) SubGraph
              build resolve is_static fuel modules_blocks s
              (slots_kept_refl _)) as [[Hl Hs] _].
  split; [exact Hl|exact Hs].
Qed.

(** ** Where a new instance is registered *)

Lemma dict_find_app h t d k :
  heap_wf h -> dict_keys_valid h d ->
  dict_find (h ++ t) d k = dict_find h d k.
Proof.
  intros Hwf. induction d as [|e d IH]; intros Hd; simpl; [reflexivity|].
  unfold entry_matches.
  rewrite ref_value_app by (auto; apply Hd; now left).
  destruct (_ && _); [reflexivity|].
  apply IH. intros e' He'. apply Hd. now right.
Qed.

Lemma dict_find_set_other h d kl k v k' :
  Key_eqb k k' = false ->
  (forall e, In e d -> Key_eqb (e_hash e) k = true ->
             Key_eqb (e_hash e) k' = false) ->
  dict_get h (dict_set h d kl k v) k' = dict_get h d k'.
Proof.
  intros Hne Hh. unfold dict_get.
  induction d as [|e d IH]; simpl.
  - unfold entry_matches. simpl. now rewrite Hne.
  - destruct (entry_matches h k e) eqn:E; simpl.
    + assert (E' : entry_matches h k' e = false).
      { unfold entry_matches in *. apply andb_true_iff in E as [E1 _].
        now rewrite (Hh e (or_introl eq_refl) E1). }
      assert (E'' : entry_matches h k' (mkEntry (e_key e) (e_hash e) v)
                    = false) by exact E'.
      now rewrite E', E''.
    + destruct (entry_matches h k' e); [reflexivity|].
      apply IH. intros e' He'. apply Hh. now right.
Qed.

Fixpoint TFModule_eqb_true (a b : TFModule) {struct a} :
  TFModule_eqb a b = true -> a = b.
Proof.
  destruct a as [p1 n1 s1 i1], b as [p2 n2 s2 i2]. simpl. intros H.
  apply andb_true_iff in H as [H Hi]. apply andb_true_iff in H as [H Hs].
  apply andb_true_iff in H as [Hp Hn].
  apply String.eqb_eq in Hp, Hn. subst.
  assert (Ei : i1 = i2).
  { destruct i1 as [x|], i2 as [y|]; simpl in Hi; try discriminate;
      [|reflexivity].
    apply PyKey_eqb_eq in Hi. now subst. }
  subst. destruct s1 as [x|], s2 as [y|]; try discriminate; [|reflexivity].
  now rewrite (TFModule_eqb_true x y Hs).
Qed.

Lemma Key_eqb_true (a b : Key) : Key_eqb a b = true -> a = b.
Proof.
  destruct a as [x|], b as [y|]; simpl; intros H; try discriminate;
    [|reflexivity].
  now rewrite (TFModule_eqb_true x y H).
Qed.

Lemma dict_get_set_other h d kl k v k' :
  Key_eqb k k' = false ->
  dict_get h (dict_set h d kl k v) k' = dict_get h d k'.
Proof.
  intros Hne. apply dict_find_set_other; [exact Hne|].
  intros e _ He. apply Key_eqb_true in He. now rewrite He.
Qed.

Lemma tf_value_some_lt h l v : tf_value h l = Some v -> l < length h.
Proof.
  unfold tf_value. destruct (length h) as [|n] eqn:E; [discriminate|].
  simpl. destruct (h !! l) as [o|] eqn:Ho; [|discriminate].
  intros _. apply lookup_lt_Some in Ho. lia.
Qed.

(** X12: [_create_new_module_with_vertices] registers the new instance
    under the key of the parent module built without a [foreach_idx].
    For a module with no descendants to copy, on a well-formed store: the
    call returns, leaves the vertices as they are, and the index of the
    last vertex (the clone just appended) is added to the [MODULE]
    members of the entry read under the path, the name and the nesting
    of the [source_module_object] of the vertex in slot [resource_idx],
    with [foreach_idx] unset, also when that [source_module_object]
    carries a [foreach_idx] itself. *)
Theorem instance_is_registered_under_parent_key_without_index
    (fuel : nat) (main_resource : TerraformBlock) (resource_idx : nat)
    (k : loc) (s : Store) (ov : TerraformBlock) (p : loc) (o : TFObject)
    (parent_nested : Key) (kp kn : string) (kx : Key) (idx : PyKey) :
  heap_wf (heap s) ->
  dict_keys_valid (heap s) (vertices_by_module_dependency s) ->
  vertices s !! resource_idx = Some ov ->
  source_module_object ov = Some p -> heap s !! p = Some o ->
  ref_value (heap s) (o_nested o) = Some parent_nested ->
  tf_value (heap s) k = Some (TFM kp kn kx (Some idx)) ->
  let parent_key := Some (TFM (o_path o) (o_name o) parent_nested None) in
  exists s',
    _create_new_module_with_vertices (S fuel) main_resource [] resource_idx
                                     (Some k) s = (Ok tt, s') /\
    vertices s' = vertices s /\
    dict_get (heap s') (vertices_by_module_dependency s') parent_key
    = Some (members_append
              (default [] (dict_get (heap s) (vertices_by_module_dependency s)
                                    parent_key))
              MODULE (length (vertices s) - 1)).
Proof.
  intros Hwf Hd Hov Hsmo Ho Hpn Hk parent_key.
  set (obj := mkTFObject (o_path o) (o_name o) (o_nested o) None).
  set (h1 := heap s ++ [obj]).
  assert (Hnv : ref_valid (heap s) (o_nested o)).
  { intros m Hm. pose proof (Hwf p o m Ho Hm).
    apply lookup_lt_Some in Ho. lia. }
  destruct (new_TFModule_value (heap s) (o_path o) (o_name o) (o_nested o)
              None parent_nested Hwf Hnv Hpn) as [Hwf1 Hv1].
  fold obj in Hwf1, Hv1. fold h1 in Hwf1, Hv1.
  pose proof (tf_value_some_lt _ _ _ Hk) as Hklt.
  assert (Hk1 : ref_value h1 (Some k)
                = Some (Some (TFM kp kn kx (Some idx)))).
  { unfold h1. rewrite ref_value_app; [simpl; now rewrite Hk|exact Hwf|].
    intros ? [= <-]. exact Hklt. }
  set (m := default [] (dict_get (heap s) (vertices_by_module_dependency s)
                                 parent_key)).
  set (d1 := dict_set h1 (vertices_by_module_dependency s)
                      (Some (length (heap s))) parent_key
                      (members_append m MODULE (length (vertices s) - 1))).
  set (d2 := dict_set h1 d1 (Some k) (Some (TFM kp kn kx (Some idx))) []).
  exists (mkStore (vertices s) d2 h1).
  split; [|split; [reflexivity|]].
  - cbn [_create_new_module_with_vertices].
    rewrite (bind_ok (ret k) _ s k s eq_refl).
    rewrite (bind_ok vertices_len _ s (length (vertices s)) s eq_refl).
    rewrite (bind_ok (vertex resource_idx) _ s ov s)
      by (unfold vertex; now rewrite Hov).
    rewrite Hsmo.
    rewrite (bind_ok _ _ s (Some (length (heap s))) (with_heap s h1))
      by (unfold bind, tf_object; rewrite Ho; reflexivity).
    rewrite (bind_ok (dict_append (Some (length (heap s))) MODULE
                                  (length (vertices s) - 1)) _
               (with_heap s h1) tt (with_dict (with_heap s h1) d1)).
    2:{ assert (A2 : dict_get h1 (vertices_by_module_dependency s) parent_key
                     = dict_get (heap s) (vertices_by_module_dependency s)
                                parent_key).
        { unfold dict_get, h1. now rewrite dict_find_app. }
        unfold dict_append, bind, key_of, dict_read.
        cbn [heap with_heap vertices_by_module_dependency ref_value].
        rewrite Hv1.
        change (heap (with_heap s h1)) with h1.
        change (vertices_by_module_dependency (with_heap s h1))
          with (vertices_by_module_dependency s).
        fold parent_key. rewrite A2. reflexivity. }
    unfold _add_new_vertices_for_module. cbn [for_fold].
    unfold bind at 1. unfold ret at 1. cbv beta iota.
    unfold dict_assign, bind, key_of.
    change (heap (with_dict (with_heap s h1) d1)) with h1.
    rewrite Hk1. reflexivity.
  - cbn [heap vertices_by_module_dependency]. unfold d2.
    rewrite dict_get_set_other.
    + unfold d1. apply dict_get_set. cbn [ref_value]. now rewrite Hv1.
    + simpl. rewrite andb_false_r. reflexivity.
Qed.

Lemma instance_is_registered_under_parent_key_without_index_witness :
  let main := mkBlock MODULE "a/main.tf" "c" [] None [] (Some 0) [0]
                      (Some (PyStr "z")) in
  let parent_key := Some (TFM "main.tf" "a" None None) in
  exists s',
    _create_new_module_with_vertices 1 main [] 1 (Some 1) Examples.deep
    = (Ok tt, s') /\
    vertices s' = vertices Examples.deep /\
    dict_get (heap s') (vertices_by_module_dependency s') parent_key
    = Some (members_append
              (default []
                 (dict_get (heap Examples.deep)
                           (vertices_by_module_dependency Examples.deep)
                           parent_key))
              MODULE (length (vertices Examples.deep) - 1)).
Proof.
  cbn zeta.
  apply (instance_is_registered_under_parent_key_without_index 0
           (mkBlock MODULE "a/main.tf" "c" [] None [] (Some 0) [0]
                    (Some (PyStr "z")))
           1 1 Examples.deep
           (mkBlock MODULE "a/main.tf" "c" [] None [] (Some 0) [0]
                    (Some (PyStr "z")))
           0 (mkTFObject "main.tf" "a" None (Some (PyInt 1))) None
           "a/main.tf" "c" (Some (TFM "main.tf" "a" None (Some (PyInt 1))))
           (PyStr "z")).
  - intros l o n H Hn.
    do 4 (destruct l as [|l];
          [inversion H; subst; simpl in Hn; inversion Hn; lia|]).
    discriminate.
  - intros e He l Hl. simpl in He.
    destruct He as [<-|[<-|[<-|[<-|[]]]]]; simpl in Hl; inversion Hl;
      simpl; lia.
  - reflexivity.
  - reflexivity.
  - reflexivity.
  - reflexivity.
  - reflexivity.
Defined.

(** ** The walk of a module without a membership entry *)

(** X13: when the membership index has no entry under the key the walk
    starts from (the path and the name of the module, its
    [source_module_object], and no [foreach_idx] for the override
    instance or the instance key for another instance),
    [_update_module_children] returns at once: no vertex and no
    membership entry is changed, no key object that existed is written,
    and nothing is raised.  The children of such a module are left as
    they are. *)
Theorem walk_without_membership_entry_changes_nothing
    (fuel : nat) (main_resource : TerraformBlock) (key : PyKey)
    (should_override_foreach_key : bool) (s : Store) (X : Key) :
  heap_wf (heap s) -> block_ok (heap s) main_resource ->
  dict_keys_valid (heap s) (vertices_by_module_dependency s) ->
  ref_value (heap s) (source_module_object main_resource) = Some X ->
  dict_mem (heap s) (vertices_by_module_dependency s)
           (Some (TFM (path main_resource) (name main_resource) X
                      (if should_override_foreach_key then None
                       else Some key))) = false ->
  exists s',
    _update_module_children (S fuel) main_resource key
                            should_override_foreach_key s = (Ok tt, s') /\
    vertices s' = vertices s /\
    vertices_by_module_dependency s' = vertices_by_module_dependency s /\
    heap s `prefix_of` heap s'.
Proof.
  intros Hwf [Hsmo _] Hd HX Hmem.
  set (idx := if should_override_foreach_key then None else Some key) in *.
  set (obj := mkTFObject (path main_resource) (name main_resource)
                         (source_module_object main_resource) idx).
  set (h2 := heap s ++ [obj]).
  destruct (new_TFModule_value (heap s) (path main_resource)
              (name main_resource) (source_module_object main_resource)
              idx X Hwf Hsmo HX) as [Hwf2 Hv2].
  fold obj in Hwf2, Hv2. fold h2 in Hwf2, Hv2.
  assert (Hvalid : ref_valid h2 (Some (length (heap s)))).
  { intros ? [= <-]. unfold h2. rewrite length_app. simpl. lia. }
  destruct (copy_ref_ok [] h2 (Some (length (heap s))) Hwf2)
    as (m & h3 & r' & Hcp & Hp & Hwf3 & _ & Hr' & Hval & _);
    [intros ? ? []|exact Hvalid|].
  assert (Hk : ref_value h3 r'
               = Some (Some (TFM (path main_resource) (name main_resource)
                                 X idx))).
  { rewrite Hval. simpl. now rewrite Hv2. }
  assert (Hps : heap s `prefix_of` h3).
  { etrans; [|exact Hp]. unfold h2. now apply prefix_app_r. }
  exists (with_heap s h3). split; [|auto].
  unfold _update_module_children.
  set (h1 := heap s ++ [mkTFObject (path main_resource) (name main_resource)
                                   (source_module_object main_resource)
                                   None]).
  rewrite (bind_ok (new_TFModule _ _ _ None) _ s (length (heap s))
             (with_heap s h1) eq_refl).
  assert (E2 : (if negb should_override_foreach_key
                then assign_foreach_idx (length (heap s)) (Some key)
                else ret tt) (with_heap s h1) = (Ok tt, with_heap s h2)).
  { unfold idx, obj, h2, h1 in *. destruct should_override_foreach_key;
      simpl; [reflexivity|].
    unfold assign_foreach_idx. cbn [heap with_heap].
    rewrite list_lookup_middle by reflexivity. simpl.
    rewrite insert_app_r_alt by lia. rewrite Nat.sub_diag. reflexivity. }
  rewrite (bind_ok _ _ _ _ _ E2).
  cbn [_update_children_foreach_index].
  rewrite (bind_ok (deepcopy_TFModule (Some (length (heap s)))) _
             (with_heap s h2) r' (with_heap s h3))
    by (unfold deepcopy_TFModule; cbn [heap with_heap]; now rewrite Hcp).
  rewrite (bind_ok (key_of r') _ (with_heap s h3) _ (with_heap s h3))
    by (unfold key_of; cbn [heap with_heap]; now rewrite Hk).
  assert (E5 : dict_contains
                 (Some (TFM (path main_resource) (name main_resource) X idx))
                 (with_heap s h3) = (Ok false, with_heap s h3)).
  { unfold dict_contains. cbn [heap with_heap vertices_by_module_dependency].
    destruct Hps as [t Ht]. rewrite Ht. unfold dict_mem.
    rewrite (dict_find_app _ _ _ _ Hwf Hd).
    unfold dict_mem in Hmem. now rewrite Hmem. }
  rewrite (bind_ok _ _ _ _ _ E5). reflexivity.
Qed.

Lemma walk_without_membership_entry_changes_nothing_witness :
  let main := Examples.module_block "main.tf" "m" [("count", SInt 3)] None [] in
  exists s',
    _update_module_children 1 main (PyInt 1) false Examples.count3
    = (Ok tt, s') /\
    vertices s' = vertices Examples.count3 /\
    vertices_by_module_dependency s'
    = vertices_by_module_dependency Examples.count3 /\
    heap Examples.count3 `prefix_of` heap s'.
Proof.
  cbn zeta.
  apply (walk_without_membership_entry_changes_nothing 0
           (Examples.module_block "main.tf" "m" [("count", SInt 3)] None [])
           (PyInt 1) false Examples.count3 None).
  - intros l o n H. cbv [Examples.count3 heap] in H.
    rewrite lookup_nil in H. discriminate.
  - split; intros l H; discriminate.
  - intros e [<-|[]] l H. discriminate.
  - reflexivity.
  - reflexivity.
Defined.
